(** * Site scraper: the crawl engine of [site_scraper.py]

    A shallow embedding of [WebScraper] (src/site_scraper.py): the URL
    classifier and normaliser, the local path mapper, the page processor
    and the worker pool with its orchestrator, followed by the properties
    of the specification that concern them.  The console menu in front of
    it ([InteractiveMenu]) and the thread in which the GUI runs it
    ([ScraperWorker], src/scraper_gui.py) come after the scraper.

    Python strings are [string]s, the visited set is a [gset string], the
    FIFO queue is a list of (url, depth) pairs, the file store a
    [gmap string string].  The library functions the scraper calls
    ([urllib.parse.urlparse], [urllib.parse.urljoin], [os.path.*]) are
    modelled after CPython's own sources, on the inputs they accept. *)

From Stdlib Require Import ZArith Ascii String List Lia Bool.
From stdpp Require Import gmap strings list fin_maps.

Open Scope string_scope.
Open Scope list_scope.

(* ===================================================================== *)
(** ** Python string methods *)
(* ===================================================================== *)

Module PyStr.

(** [bool(s)]: a string is true when it is not empty. *)
Definition truthy (s : string) : bool := negb (String.eqb s "").

(** [s.startswith(p)] *)
Definition startswith (s p : string) : bool := String.prefix p s.

(** [s.endswith(suf)]: [suf] is one of the tails of [s]. *)
Fixpoint endswith (s suf : string) : bool :=
  String.eqb s suf ||
  match s with
  | EmptyString => false
  | String _ s' => endswith s' suf
  end.

(** [c in s] for a one-character [c]. *)
Fixpoint contains (c : ascii) (s : string) : bool :=
  match s with
  | EmptyString => false
  | String a s' => Ascii.eqb a c || contains c s'
  end.

(** [s.partition(c)]: the text before the first [c], and the text after it
    when there is one. *)
Fixpoint partition (c : ascii) (s : string) : string * option string :=
  match s with
  | EmptyString => (EmptyString, None)
  | String a s' =>
      if Ascii.eqb a c then (EmptyString, Some s')
      else let '(b, r) := partition c s' in (String a b, r)
  end.

(** [s.rpartition(c)], when [c] occurs: the text before and after the last
    [c]. *)
Fixpoint rpartition (c : ascii) (s : string) : option (string * string) :=
  match s with
  | EmptyString => None
  | String a s' =>
      match rpartition c s' with
      | Some (b, t) => Some (String a b, t)
      | None => if Ascii.eqb a c then Some (EmptyString, s') else None
      end
  end.

(** [s.split(c)]: never empty. *)
Fixpoint split (c : ascii) (s : string) : list string :=
  match s with
  | EmptyString => [EmptyString]
  | String a s' =>
      if Ascii.eqb a c then EmptyString :: split c s'
      else match split c s' with
           | [] => [String a EmptyString]
           | h :: t => String a h :: t
           end
  end.

(** [sep.join(l)] *)
Fixpoint join (sep : string) (l : list string) : string :=
  match l with
  | [] => EmptyString
  | [x] => x
  | x :: rest => x +:+ sep +:+ join sep rest
  end.

(** [s.replace(a, b)] for one-character [a] and [b]. *)
Fixpoint replace (a b : ascii) (s : string) : string :=
  match s with
  | EmptyString => EmptyString
  | String x s' => String (if Ascii.eqb x a then b else x) (replace a b s')
  end.

(** [s.replace(a, "")] for a one-character [a]. *)
Fixpoint remove (a : ascii) (s : string) : string :=
  match s with
  | EmptyString => EmptyString
  | String x s' => if Ascii.eqb x a then remove a s' else String x (remove a s')
  end.

Definition is_upper (a : ascii) : bool :=
  let n := nat_of_ascii a in (65 <=? n)%nat && (n <=? 90)%nat.

Definition is_lower (a : ascii) : bool :=
  let n := nat_of_ascii a in (97 <=? n)%nat && (n <=? 122)%nat.

Definition is_digit (a : ascii) : bool :=
  let n := nat_of_ascii a in (48 <=? n)%nat && (n <=? 57)%nat.

Definition lower_ascii (a : ascii) : ascii :=
  if is_upper a then ascii_of_nat (nat_of_ascii a + 32) else a.

(** [s.lower()] on ASCII text. *)
Fixpoint lower (s : string) : string :=
  match s with
  | EmptyString => EmptyString
  | String a s' => String (lower_ascii a) (lower s')
  end.

(** [s.lstrip(chars)] with [chars] given as a predicate. *)
Fixpoint lstrip (f : ascii -> bool) (s : string) : string :=
  match s with
  | EmptyString => EmptyString
  | String a s' => if f a then lstrip f s' else s
  end.

(** [s.rstrip(chars)] with [chars] given as a predicate. *)
Fixpoint rstrip (f : ascii -> bool) (s : string) : string :=
  match s with
  | EmptyString => EmptyString
  | String a s' =>
      match rstrip f s' with
      | EmptyString => if f a then EmptyString else String a EmptyString
      | r => String a r
      end
  end.

(** [s.strip(chars)] *)
Definition strip (f : ascii -> bool) (s : string) : string :=
  rstrip f (lstrip f s).

Fixpoint all_chars (f : ascii -> bool) (s : string) : bool :=
  match s with
  | EmptyString => true
  | String a s' => f a && all_chars f s'
  end.

(** [needle in hay] for strings. *)
Fixpoint substr_in (needle hay : string) : bool :=
  String.prefix needle hay ||
  match hay with
  | EmptyString => false
  | String _ h' => substr_in needle h'
  end.

Definition is_space (a : ascii) : bool :=
  let n := nat_of_ascii a in (n =? 32)%nat || ((9 <=? n)%nat && (n <=? 13)%nat).

(** [s.split()]: the maximal runs of non-blank characters. *)
Fixpoint words_aux (cur : string) (s : string) : list string :=
  match s with
  | EmptyString => if truthy cur then [cur] else []
  | String a s' =>
      if is_space a
      then (if truthy cur then cur :: words_aux EmptyString s'
            else words_aux EmptyString s')
      else words_aux (cur +:+ String a EmptyString) s'
  end.

Definition words (s : string) : list string := words_aux EmptyString s.

(** [x in l] for a list of strings. *)
Definition mem (x : string) (l : list string) : bool :=
  existsb (String.eqb x) l.

End PyStr.

(* ===================================================================== *)
(** ** [urllib.parse]: urlsplit, urlparse, urlunparse, urljoin *)
(* ===================================================================== *)

(** The model follows CPython's [Lib/urllib/parse.py] on [str] arguments.
    The parser's validation of bracketed (IPv6) hosts and of non-ASCII
    hosts, which raises [ValueError], is outside the model: the functions
    below describe the parser on the URLs it accepts. *)

Module Urllib.
Import PyStr.

Record ParseResult := mkParse {
  scheme : string;
  netloc : string;
  path : string;
  params : string;
  query : string;
  fragment : string
}.

Definition uses_relative : list string :=
  [""; "ftp"; "http"; "gopher"; "nntp"; "imap"; "wais"; "file"; "https";
   "shttp"; "mms"; "prospero"; "rtsp"; "rtspu"; "sftp"; "svn"; "svn+ssh";
   "ws"; "wss"].

Definition uses_netloc : list string :=
  [""; "ftp"; "http"; "gopher"; "nntp"; "telnet"; "imap"; "wais"; "file";
   "mms"; "https"; "shttp"; "snews"; "prospero"; "rtsp"; "rtspu"; "rsync";
   "svn"; "svn+ssh"; "sftp"; "nfs"; "git"; "git+ssh"; "ws"; "wss"].

Definition uses_params : list string :=
  [""; "ftp"; "hdl"; "prospero"; "http"; "imap"; "https"; "shttp"; "rtsp";
   "rtspu"; "sip"; "sips"; "mms"; "sftp"; "tel"].

Definition is_alpha (a : ascii) : bool := is_upper a || is_lower a.

(** [c in scheme_chars] *)
Definition scheme_char (a : ascii) : bool :=
  is_alpha a || is_digit a ||
  Ascii.eqb a "+" || Ascii.eqb a "-" || Ascii.eqb a ".".

(** [_WHATWG_C0_CONTROL_OR_SPACE] *)
Definition c0_or_space (a : ascii) : bool := (nat_of_ascii a <=? 32)%nat.

(** [_UNSAFE_URL_BYTES_TO_REMOVE]: tab, carriage return, line feed. *)
Definition remove_unsafe (s : string) : string :=
  remove (ascii_of_nat 10) (remove (ascii_of_nat 13) (remove (ascii_of_nat 9) s)).

(** The scheme test of [urlsplit]: [url = sch ":" rest] with a non-empty
    [sch] that starts with a letter and holds scheme characters only. *)
Definition split_scheme (url : string) : option (string * string) :=
  match partition ":" url with
  | (String a pre, Some rest) =>
      if is_alpha a && all_chars scheme_char (String a pre)
      then Some (lower (String a pre), rest)
      else None
  | _ => None
  end.

(** [_splitnetloc(url, 2)] on [url = "//" ++ s]: the domain runs up to the
    first of [/], [?] and [#]; the rest starts with that delimiter. *)
Fixpoint splitnetloc (s : string) : string * string :=
  match s with
  | EmptyString => (EmptyString, EmptyString)
  | String a s' =>
      if Ascii.eqb a "/" || Ascii.eqb a "?" || Ascii.eqb a "#"
      then (EmptyString, s)
      else let '(d, r) := splitnetloc s' in (String a d, r)
  end.

(** The first lines of [urlsplit]: leading control characters and blanks
    are stripped, tabs and line breaks removed. *)
Definition sanitize (url : string) : string :=
  remove_unsafe (lstrip c0_or_space url).

(** [urlsplit] finds a scheme, or keeps the default one. *)
Definition take_scheme (url dflt : string) : string * string :=
  match split_scheme url with
  | Some (s, rest) => (s, rest)
  | None => (dflt, url)
  end.

(** [if url[:2] == '//': netloc, url = _splitnetloc(url, 2)] *)
Definition take_netloc (url : string) : string * string :=
  match url with
  | String a (String b rest) =>
      if Ascii.eqb a "/" && Ascii.eqb b "/" then splitnetloc rest
      else (EmptyString, url)
  | _ => (EmptyString, url)
  end.

(** [if c in url: url, tail = url.split(c, 1)] *)
Definition cut (c : ascii) (url : string) : string * string :=
  match partition c url with
  | (b, Some f) => (b, f)
  | (b, None) => (b, EmptyString)
  end.

(** [urlsplit] on the sanitised text: scheme, netloc, path, query,
    fragment. *)
Definition split_parts (url dflt : string)
  : string * string * string * string * string :=
  let '(sch, url) := take_scheme url dflt in
  let '(nl, url) := take_netloc url in
  let '(url, frag) := cut "#" url in
  let '(url, q) := cut "?" url in
  (sch, nl, url, q, frag).

(** [urlsplit(url, scheme)] *)
Definition urlsplit (url dflt : string)
  : string * string * string * string * string :=
  split_parts (sanitize url) (remove_unsafe (strip c0_or_space dflt)).

(** [_splitparams(url)], called when [';' in url]. *)
Definition splitparams (url : string) : string * string :=
  match rpartition "/" url with
  | Some (dir, last) =>
      match partition ";" last with
      | (b, Some p) => (dir +:+ "/" +:+ b, p)
      | (_, None) => (url, EmptyString)
      end
  | None =>
      match partition ";" url with
      | (b, Some p) => (b, p)
      | (b, None) => (b, EmptyString)
      end
  end.

(** [urlparse(url, scheme)] *)
Definition urlparse_with (url dflt : string) : ParseResult :=
  let '(sch, nl, p, q, f) := urlsplit url dflt in
  if mem sch uses_params && contains ";" p
  then let '(p', prm) := splitparams p in mkParse sch nl p' prm q f
  else mkParse sch nl p EmptyString q f.

(** [urlparse(url)] *)
Definition urlparse (url : string) : ParseResult := urlparse_with url "".

(** [urlunsplit((scheme, netloc, url, query, fragment))] *)
Definition urlunsplit (sch nl url q frag : string) : string :=
  let url :=
    if truthy nl ||
       (truthy sch && mem sch uses_netloc && negb (startswith url "//"))
    then "//" +:+ nl +:+
         (if truthy url && negb (startswith url "/") then "/" +:+ url else url)
    else url in
  let url := if truthy sch then sch +:+ ":" +:+ url else url in
  let url := if truthy q then url +:+ "?" +:+ q else url in
  if truthy frag then url +:+ "#" +:+ frag else url.

(** [urlunparse((scheme, netloc, url, params, query, fragment))] *)
Definition urlunparse (r : ParseResult) : string :=
  let url := if truthy (params r) then path r +:+ ";" +:+ params r else path r in
  urlunsplit (scheme r) (netloc r) url (query r) (fragment r).

(** [segments[1:-1] = filter(None, segments[1:-1])] *)
Definition filter_middle (l : list string) : list string :=
  match l with
  | [] => []
  | x :: rest =>
      match rev rest with
      | [] => [x]
      | z :: mid => x :: List.filter truthy (rev mid) ++ [z]
      end
  end.

(** The loop of [urljoin] over the segments: [..] pops (popping the empty
    list is ignored), [.] is skipped, anything else is appended. *)
Fixpoint resolve_segments (segs acc : list string) : list string :=
  match segs with
  | [] => acc
  | seg :: rest =>
      if String.eqb seg ".." then resolve_segments rest (removelast acc)
      else if String.eqb seg "." then resolve_segments rest acc
      else resolve_segments rest (acc ++ [seg])
  end.

(** [urljoin(base, url)] *)
Definition urljoin (base url : string) : string :=
  if negb (truthy base) then url
  else if negb (truthy url) then base
  else
    let b := urlparse base in
    let u := urlparse_with url (scheme b) in
    if negb (String.eqb (scheme u) (scheme b)) || negb (mem (scheme u) uses_relative)
    then url
    else if mem (scheme u) uses_netloc && truthy (netloc u)
    then urlunparse u
    else
      let nl := if mem (scheme u) uses_netloc then netloc b else netloc u in
      if negb (truthy (path u)) && negb (truthy (params u))
      then urlunparse (mkParse (scheme u) nl (path b) (params b)
                         (if truthy (query u) then query u else query b)
                         (fragment u))
      else
        let base_parts := split "/" (path b) in
        let base_parts :=
          if truthy (List.last base_parts "") then removelast base_parts
          else base_parts in
        let segments :=
          if startswith (path u) "/" then split "/" (path u)
          else filter_middle (base_parts ++ split "/" (path u)) in
        let resolved := resolve_segments segments [] in
        let resolved :=
          if mem (List.last segments "") ["."; ".."] then resolved ++ [""]
          else resolved in
        let joined := join "/" resolved in
        urlunparse (mkParse (scheme u) nl
                      (if truthy joined then joined else "/")
                      (params u) (query u) (fragment u)).

End Urllib.

(* ===================================================================== *)
(** ** [os.path] (posixpath) *)
(* ===================================================================== *)

Module PosixPath.
Import PyStr.

(** [os.path.join(a, b)] *)
Definition join2 (a b : string) : string :=
  if startswith b "/" then b
  else if negb (truthy a) || endswith a "/" then a +:+ b
  else a +:+ "/" +:+ b.

(** [os.path.basename(p)]: what follows the last [/]. *)
Definition basename (p : string) : string :=
  match rpartition "/" p with
  | Some (_, t) => t
  | None => p
  end.

(** [os.path.dirname(p)]: what precedes the last [/], without trailing
    slashes unless it consists of slashes only. *)
Definition dirname (p : string) : string :=
  match rpartition "/" p with
  | Some (b, _) =>
      let head := b +:+ "/" in
      if all_chars (Ascii.eqb "/") head then head else rstrip (Ascii.eqb "/") head
  | None => EmptyString
  end.

(** One component of [normpath]'s loop. *)
Definition normpath_step (initial : bool) (acc : list string) (comp : string)
  : list string :=
  if String.eqb comp "" || String.eqb comp "." then acc
  else if negb (String.eqb comp "..")
          || (negb initial && negb (0 <? length acc)%nat)
          || ((0 <? length acc)%nat && String.eqb (List.last acc "") "..")
  then acc ++ [comp]
  else removelast acc.

(** [os.path.normpath(p)] *)
Definition normpath (p : string) : string :=
  if negb (truthy p) then "."
  else
    let initial := startswith p "/" in
    let slashes :=
      if initial && startswith p "//" && negb (startswith p "///") then "//"
      else if initial then "/" else "" in
    let comps := fold_left (normpath_step initial) (split "/" p) [] in
    let r := slashes +:+ join "/" comps in
    if truthy r then r else ".".

(** [os.path.abspath(p)] in a process whose working directory is [cwd]. *)
Definition abspath (cwd p : string) : string :=
  normpath (if startswith p "/" then p else join2 cwd p).

Fixpoint common_prefix_len (a b : list string) : nat :=
  match a, b with
  | x :: a', y :: b' => if String.eqb x y then S (common_prefix_len a' b') else 0
  | _, _ => 0
  end.

(** [os.path.relpath(path, start)] for a non-empty [path]. *)
Definition relpath (cwd path start : string) : string :=
  let start_list := List.filter truthy (split "/" (abspath cwd start)) in
  let path_list := List.filter truthy (split "/" (abspath cwd path)) in
  let i := common_prefix_len start_list path_list in
  let rel := repeat ".." (length start_list - i) ++ skipn i path_list in
  match rel with
  | [] => "."
  | x :: rest => fold_left join2 rest x
  end.

End PosixPath.

(* ===================================================================== *)
(** ** The scraper's configuration and its surroundings *)
(* ===================================================================== *)

(** The arguments of [WebScraper.__init__], and the working directory
    of the process.  [delay] and [verbose] only change how long a worker
    sleeps and what is printed; they are left out. *)
Record Config := mkConfig {
  base_url : string;
  output_dir : string;
  max_depth : Z;
  follow_external : bool;
  download_images : bool;
  download_css : bool;
  download_js : bool;
  file_types : list string;
  num_threads : nat;
  cwd : string  (* the process's working directory, read by os.path.relpath *)
}.

(** [self.base_domain = urllib.parse.urlparse(base_url).netloc] *)
Definition base_domain (cfg : Config) : string :=
  Urllib.netloc (Urllib.urlparse (base_url cfg)).

(** A parsed page as BeautifulSoup presents it to [find_all]: its tags in
    document order, each with its attribute dictionary.  A multi-valued
    attribute ([rel]) is kept as its blank-separated text. *)
Record Tag := mkTag {
  tag_name : string;
  attrs : gmap string string
}.

Definition Document := list Tag.

(** What a file holds: the bytes of a response, or a serialised page
    ([str(soup)]). *)
Inductive FileData :=
| Raw (content : string)
| Markup (soup : Document).

(** The answer of [session.get]: an exception, or a response with its
    status code, Content-Type header, body, and the tree BeautifulSoup
    builds from the body.  In [download_page] an exception raised later in
    the [try] block (a file that cannot be written) ends in the same
    [except] branch as one raised by the request; [NetError] stands for
    both, and what such a page wrote before it failed is not tracked. *)
Inductive Response :=
| NetError
| Reply (status : Z) (content_type : string) (content : string) (soup : Document).

Definition Net := string -> Response.

Inductive Request :=
| PageGet (url : string)
| ResourceGet (url dest : string).

(** The three counters as handed to the progress callback. *)
Record Stats := mkStats {
  st_total : nat;
  st_downloaded : nat;
  st_failed : nat
}.

(** Everything outside the scraper object that the scraper acts on: the
    files written, the directories [os.makedirs] was asked for, the GET
    requests sent and the snapshots passed to the progress callback (both
    oldest first). *)
Record World := mkWorld {
  files : gmap string FileData;
  dirs : gset string;
  requests : list Request;
  reports : list Stats
}.

Definition empty_world : World := mkWorld ∅ ∅ [] [].

Definition write_file (p : string) (d : FileData) (w : World) : World :=
  mkWorld (<[p := d]> (files w)) (dirs w) (requests w) (reports w).

Definition makedirs (d : string) (w : World) : World :=
  mkWorld (files w) ({[d]} ∪ dirs w) (requests w) (reports w).

Definition send (r : Request) (w : World) : World :=
  mkWorld (files w) (dirs w) (requests w ++ [r]) (reports w).

Definition report (s : Stats) (w : World) : World :=
  mkWorld (files w) (dirs w) (requests w) (reports w ++ [s]).

(** Computations that act on the world. *)
Definition M (A : Type) : Type := World -> A * World.

Definition ret {A} (a : A) : M A := fun w => (a, w).

Definition bind {A B} (m : M A) (k : A -> M B) : M B :=
  fun w => let '(a, w') := m w in k a w'.

Definition act (f : World -> World) : M unit := fun w => (tt, f w).

Notation "'let*' x ':=' m 'in' k" := (bind m (fun x => k))
  (at level 10, x name, m at level 100, k at level 200).
Notation "'do' m 'then' k" := (bind m (fun _ => k))
  (at level 10, m at level 100, k at level 200).

(** [for x in l: body(x)] *)
Fixpoint for_each {A} (l : list A) (body : A -> M unit) : M unit :=
  match l with
  | [] => ret tt
  | x :: rest => do body x then for_each rest body
  end.

(** A loop over the tags of a document that may replace each tag it
    visits. *)
Fixpoint for_tags (doc : Document) (body : Tag -> M Tag) : M Document :=
  match doc with
  | [] => ret []
  | t :: rest =>
      let* t' := body t in
      let* rest' := for_tags rest body in
      ret (t' :: rest')
  end.

(* ===================================================================== *)
(** ** [WebScraper]: classifier, normaliser, path mapper, page processor *)
(* ===================================================================== *)

Section Methods.
Context (cfg : Config).
Import PyStr.

(** [url.startswith(('http://', 'https://'))] *)
Definition is_http (url : string) : bool :=
  startswith url "http://" || startswith url "https://".

Definition unwanted_exts : list string := [".exe"; ".bin"].

(** [WebScraper._is_valid_url] *)
Definition _is_valid_url (url : string) : bool :=
  if negb (truthy url) || negb (is_http url) then false
  else if negb (follow_external cfg)
          && negb (String.eqb (Urllib.netloc (Urllib.urlparse url)) (base_domain cfg))
  then false
  else if existsb (endswith url) unwanted_exts then false
  else if (0 <? length (file_types cfg))%nat
          && existsb (endswith url) (file_types cfg)
  then true
  else true.

(** [WebScraper._normalize_url]; [None] is Python's [None]. *)
Definition _normalize_url (url parent_url : string) : option string :=
  if negb (truthy url) then None
  else
    let url := (partition "#" url).1 in
    if negb (is_http url) then Some (Urllib.urljoin parent_url url)
    else Some url.

(** [if normalized_url and ...]: neither [None] nor the empty string. *)
Definition usable (o : option string) : bool :=
  match o with
  | Some s => truthy s
  | None => false
  end.

(** The path computed by [WebScraper._get_local_path]. *)
Definition local_path (url : string) : string :=
  let parsed_url := Urllib.urlparse url in
  let path := Urllib.netloc parsed_url +:+ Urllib.path parsed_url in
  let path := replace ":" "_" path in
  let path :=
    if endswith path "/" then path +:+ "index.html"
    else if negb (contains "." (PosixPath.basename path)) then path +:+ "/index.html"
    else path in
  PosixPath.join2 (output_dir cfg) path.

(** [WebScraper._get_local_path]: the path, after [os.makedirs] of its
    directory. *)
Definition _get_local_path (url : string) : M string :=
  do act (makedirs (PosixPath.dirname (local_path url))) then
  ret (local_path url).

(** [WebScraper._download_resource]: an exception and a status other than
    200 both give [False]. *)
Definition _download_resource (net : Net) (url dest : string) : M bool :=
  do act (send (ResourceGet url dest)) then
  match net url with
  | Reply status _ content _ =>
      if (status =? 200)%Z
      then do act (write_file dest (Raw content)) then ret true
      else ret false
  | NetError => ret false
  end.

(** [WebScraper._should_download_file] *)
Definition _should_download_file (url : string) : bool :=
  if negb (0 <? length (file_types cfg))%nat then false
  else existsb (fun ext => endswith (lower url) (lower ext)) (file_types cfg).

Definition has_attr (a : string) (t : Tag) : bool :=
  bool_decide (is_Some (attrs t !! a)).

Definition set_attr (a v : string) (t : Tag) : Tag :=
  mkTag (tag_name t) (<[a := v]> (attrs t)).

(** [soup.find_all('a', href=True)] and its siblings, as tests on a tag. *)
Definition is_anchor (t : Tag) : bool :=
  String.eqb (tag_name t) "a" && has_attr "href" t.

Definition is_image (t : Tag) : bool :=
  String.eqb (tag_name t) "img" && has_attr "src" t.

Definition is_stylesheet (t : Tag) : bool :=
  String.eqb (tag_name t) "link" && has_attr "href" t &&
  match attrs t !! "rel" with
  | Some v => mem "stylesheet" (words v)
  | None => false
  end.

Definition is_script (t : Tag) : bool :=
  String.eqb (tag_name t) "script" && has_attr "src" t.

(** The first loop of [_process_html]: the links of the page. *)
Definition extract_links (soup : Document) (url : string) : list string :=
  flat_map
    (fun a_tag =>
       match attrs a_tag !! "href" with
       | Some href =>
           match _normalize_url href url with
           | Some normalized_url =>
               if truthy normalized_url && _is_valid_url normalized_url
               then [normalized_url] else []
           | None => []
           end
       | None => []
       end)
    (List.filter is_anchor soup).

(** The body shared by the image, stylesheet and script loops: download
    the resource and, on success, point the attribute at the local copy. *)
Definition localize (net : Net) (url attr : string) (t : Tag) : M Tag :=
  match attrs t !! attr with
  | Some ref =>
      match _normalize_url ref url with
      | Some res_url =>
          if truthy res_url then
            let* dest := _get_local_path res_url in
            let* ok := _download_resource net res_url dest in
            if ok then
              let* page_path := _get_local_path url in
              ret (set_attr attr
                     (PosixPath.relpath (cwd cfg) dest (PosixPath.dirname page_path)) t)
            else ret t
          else ret t
      | None => ret t
      end
  | None => ret t
  end.

Definition localize_all (enabled : bool) (sel : Tag -> bool) (net : Net)
    (url attr : string) (soup : Document) : M Document :=
  if enabled
  then for_tags soup (fun t => if sel t then localize net url attr t else ret t)
  else ret soup.

(** The body of the last loop of [_process_html]: an anchor to a file of
    a wanted type has the file downloaded. *)
Definition download_file (net : Net) (url : string) (a_tag : Tag) : M unit :=
  match attrs a_tag !! "href" with
  | Some href =>
      match _normalize_url href url with
      | Some file_url =>
          if truthy file_url && _should_download_file file_url then
            let* dest := _get_local_path file_url in
            let* _ := _download_resource net file_url dest in
            ret tt
          else ret tt
      | None => ret tt
      end
  | None => ret tt
  end.

(** The last loop of [_process_html]. *)
Definition download_files (net : Net) (url : string) (soup : Document) : M unit :=
  for_each (List.filter is_anchor soup) (download_file net url).

(** [WebScraper._process_html], from the parsed page on.  The result is
    the links, with the tree that was saved. *)
Definition _process_html (net : Net) (soup : Document) (url : string) (depth : Z)
  : M (list string * Document) :=
  let links := extract_links soup url in
  let* soup := localize_all (download_images cfg) is_image net url "src" soup in
  let* soup := localize_all (download_css cfg) is_stylesheet net url "href" soup in
  let* soup := localize_all (download_js cfg) is_script net url "src" soup in
  do download_files net url soup then
  let* dest := _get_local_path url in
  do act (write_file dest (Markup soup)) then
  ret (links, soup).

(** How the request of [download_page] ended, before any link is queued
    and before the outcome is counted. *)
Inductive Fetched :=
| PageFailed
| PageSaved
| PageLinks (links : list string).

(** [WebScraper.download_page] up to the loop over [links]. *)
Definition fetch_page (net : Net) (url : string) (depth : Z) : M Fetched :=
  do act (send (PageGet url)) then
  match net url with
  | Reply status content_type content soup =>
      if (status =? 200)%Z then
        if substr_in "text/html" (lower content_type) then
          let* r := _process_html net soup url depth in
          ret (PageLinks r.1)
        else
          let* dest := _get_local_path url in
          do act (write_file dest (Raw content)) then
          ret PageSaved
      else ret PageFailed
  | NetError => ret PageFailed
  end.

End Methods.

(* ===================================================================== *)
(** ** The scraper object, its worker threads and [start] *)
(* ===================================================================== *)

(** The mutable fields of a [WebScraper] object.  [progress_callback]
    records whether a callback is registered; what the callback is given
    is kept in the world's [reports].  The callback is taken to return
    normally, as its contract asks. *)
Record Scraper := mkScraper {
  visited_urls : gset string;
  queue : list (string * Z);
  running : bool;
  total_pages : nat;
  downloaded_pages : nat;
  failed_pages : nat;
  progress_callback : bool
}.

(** The fields as [WebScraper.__init__] leaves them: the queue is created
    here, and the seed put on it at depth 0. *)
Definition __init__ (cfg : Config) : Scraper :=
  mkScraper ∅ [(base_url cfg, 0%Z)] false 0 0 0 false.

Definition stats (s : Scraper) : Stats :=
  mkStats (total_pages s) (downloaded_pages s) (failed_pages s).

Definition set_queue (q : list (string * Z)) (s : Scraper) : Scraper :=
  mkScraper (visited_urls s) q (running s) (total_pages s)
    (downloaded_pages s) (failed_pages s) (progress_callback s).

(** [self.queue.put(task)] *)
Definition put (task : string * Z) (s : Scraper) : Scraper :=
  set_queue (queue s ++ [task]) s.

Definition set_running (b : bool) (s : Scraper) : Scraper :=
  mkScraper (visited_urls s) (queue s) b (total_pages s)
    (downloaded_pages s) (failed_pages s) (progress_callback s).

(** [self.visited_urls.add(url); self.total_pages += 1] *)
Definition mark_visited (url : string) (s : Scraper) : Scraper :=
  mkScraper ({[url]} ∪ visited_urls s) (queue s) (running s)
    (S (total_pages s)) (downloaded_pages s) (failed_pages s)
    (progress_callback s).

(** [self.downloaded_pages += 1] or [self.failed_pages += 1] *)
Definition count (ok : bool) (s : Scraper) : Scraper :=
  mkScraper (visited_urls s) (queue s) (running s) (total_pages s)
    (if ok then S (downloaded_pages s) else downloaded_pages s)
    (if ok then failed_pages s else S (failed_pages s))
    (progress_callback s).

(** Where a worker thread stands in [WebScraper.worker] and in the
    [download_page] it calls.  Between two of these points the thread
    does one thing to the shared fields, under the lock where the source
    takes it. *)
Inductive Worker :=
| AtLoop                                   (* at [while self.running] *)
| InGet                                    (* in [self.queue.get(timeout=1)] *)
| Dequeued (url : string) (depth : Z)      (* holds a task, before the lock *)
| Fetching (url : string) (depth : Z)      (* in [session.get] of [download_page] *)
| Enqueuing (depth : Z) (links : list string)  (* in [for link in links] *)
| Counting (ok : bool)                     (* before the outcome is counted *)
| Sleeping                                 (* in [time.sleep(self.delay)] *)
| Exited.                                  (* the loop has ended *)

(** [t.is_alive()] *)
Definition is_alive (wk : Worker) : bool :=
  match wk with
  | Exited => false
  | _ => true
  end.

(** The thread that called [start]. *)
Inductive Caller :=
| Idle
| Polling
| Returned.

Record Session := mkSession {
  scraper : Scraper;
  workers : list Worker;
  caller : Caller;
  world : World
}.

Inductive Event :=
| Run (i : nat)                 (* worker [i] takes its next step *)
| Respond (i : nat) (net : Net) (* the request of worker [i] is answered *)
| Poll                          (* one turn of the loop of [start] *)
| Stop                          (* [stop()] is called *)
| Interrupt.                    (* KeyboardInterrupt reaches [start] *)

Section Machine.
Context (cfg : Config).

(** One step of [WebScraper.worker] on the shared fields. *)
Definition worker_step (wk : Worker) (s : Scraper) (w : World)
  : Worker * Scraper * World :=
  match wk with
  | AtLoop => (if running s then InGet else Exited, s, w)
  | InGet =>
      match queue s with
      | [] => (AtLoop, s, w)                       (* queue.Empty: continue *)
      | (url, depth) :: q => (Dequeued url depth, set_queue q s, w)
      end
  | Dequeued url depth =>
      if bool_decide (url ∈ visited_urls s)
      then (AtLoop, s, w)                          (* task_done; continue *)
      else (Fetching url depth, mark_visited url s, w)
  | Fetching _ _ => (wk, s, w)
  | Enqueuing depth [] => (Counting true, s, w)
  | Enqueuing depth (link :: rest) =>
      (Enqueuing depth rest,
       if bool_decide (link ∈ visited_urls s) then s
       else put (link, (depth + 1)%Z) s,
       w)
  | Counting ok =>
      let s' := count ok s in
      (Sleeping, s', if progress_callback s' then report (stats s') w else w)
  | Sleeping => (AtLoop, s, w)                     (* task_done *)
  | Exited => (Exited, s, w)
  end.

(** The response to the request of [download_page] arrives. *)
Definition worker_respond (net : Net) (wk : Worker) (w : World) : Worker * World :=
  match wk with
  | Fetching url depth =>
      let '(r, w') := fetch_page cfg net url depth w in
      match r with
      | PageFailed => (Counting false, w')
      | PageSaved => (Counting true, w')
      | PageLinks links =>
          (if (depth <? max_depth cfg)%Z then Enqueuing depth links
           else Counting true, w')
      end
  | _ => (wk, w)
  end.

(** The [finally] block of [start]. *)
Definition finish (σ : Session) : Session :=
  mkSession (set_running false (scraper σ)) (workers σ) Returned (world σ).

(** [self.queue.empty() and all(not t.is_alive() for t in workers)],
    read in one go. *)
Definition drained (σ : Session) : bool :=
  bool_decide (queue (scraper σ) = []) && forallb (fun wk => negb (is_alive wk)) (workers σ).

Definition step (e : Event) (σ : Session) : Session :=
  match e with
  | Run i =>
      match workers σ !! i with
      | Some wk =>
          let '(wk', s', w') := worker_step wk (scraper σ) (world σ) in
          mkSession s' (<[i := wk']> (workers σ)) (caller σ) w'
      | None => σ
      end
  | Respond i net =>
      match workers σ !! i with
      | Some wk =>
          let '(wk', w') := worker_respond net wk (world σ) in
          mkSession (scraper σ) (<[i := wk']> (workers σ)) (caller σ) w'
      | None => σ
      end
  | Poll =>
      match caller σ with
      | Polling =>
          if running (scraper σ)
          then (if drained σ then finish σ else σ)
          else finish σ
      | _ => σ
      end
  | Stop =>
      mkSession (set_running false (scraper σ)) (workers σ) (caller σ) (world σ)
  | Interrupt =>
      match caller σ with
      | Polling => finish σ
      | _ => σ
      end
  end.

Definition run (events : list Event) (σ : Session) : Session :=
  fold_left (fun σ e => step e σ) events σ.

(** [WebScraper.start] up to its waiting loop: the three assignments, then
    the worker threads.  It is called when no worker of an earlier call is
    alive. *)
Definition start (callback : bool) (σ : Session) : Session :=
  let s := scraper σ in
  mkSession
    (mkScraper ∅ (queue s) true (total_pages s) (downloaded_pages s)
       (failed_pages s) callback)
    (replicate (num_threads cfg) AtLoop)
    Polling
    (world σ).

(** A scraper just constructed, nothing started. *)
Definition fresh : Session := mkSession (__init__ cfg) [] Idle empty_world.

(** One crawl session: construct, then [start]. *)
Definition session (callback : bool) : Session := start callback fresh.

End Machine.

(* ===================================================================== *)
(** ** Vocabulary of the statements *)
(* ===================================================================== *)

(** The characters that start a query or a fragment. *)
Definition is_delim (c : ascii) : Prop := c = "?"%char \/ c = "#"%char.

(** A text with neither. *)
Definition plain (u : string) : Prop :=
  PyStr.contains "?" u = false /\ PyStr.contains "#" u = false.

(** The URLs of the page requests in a log. *)
Definition page_gets (l : list Request) : list string :=
  flat_map (fun r => match r with PageGet u => [u] | ResourceGet _ _ => [] end) l.

(** What downloading resources does to the world: the requests sent so
    far stay at the head of the log, no page request is added, no file
    disappears and the callback is not called. *)
Definition grows (w w' : World) : Prop :=
  requests w `prefix_of` requests w'
  /\ page_gets (requests w') = page_gets (requests w)
  /\ dom (files w) ⊆ dom (files w')
  /\ reports w' = reports w.

(** Two versions of a page with the same tags in the same places, every
    anchor of the first unchanged in the second. *)
Definition same_anchors (soup soup' : Document) : Prop :=
  Forall2 (fun t t' => tag_name t' = tag_name t /\ (tag_name t = "a" -> t' = t))
    soup soup'.

(** The request of one wanted file, and the file itself when the answer is
    a 200. *)
Definition fetched (cfg : Config) (net : Net) (file_url : string) (w : World) : Prop :=
  ResourceGet file_url (local_path cfg file_url) ∈ requests w
  /\ (forall ct body sp, net file_url = Reply 200 ct body sp ->
       local_path cfg file_url ∈ dom (files w)).

(** A worker between marking a URL visited and counting its outcome. *)
Definition in_flight (wk : Worker) : nat :=
  match wk with
  | Fetching _ _ | Enqueuing _ _ | Counting _ => 1
  | _ => 0
  end.

(** The number of tasks in flight. *)
Definition load (ws : list Worker) : nat := sum_list_with in_flight ws.

(** The URL a worker is about to request. *)
Definition fetching (wk : Worker) : list string :=
  match wk with
  | Fetching url _ => [url]
  | _ => []
  end.

(** The URLs whose page was requested in this session, or is about to
    be. *)
Definition claimed (σ : Session) : list string :=
  page_gets (requests (world σ)) ++ flat_map fetching (workers σ).

(** The counters agree with each other, with the visited set and with
    what the callback was told. *)
Definition stats_ok (st : Stats) : Prop :=
  st_downloaded st + st_failed st <= st_total st.

Definition stats_inv (σ : Session) : Prop :=
  total_pages (scraper σ)
    = downloaded_pages (scraper σ) + failed_pages (scraper σ) + load (workers σ)
  /\ total_pages (scraper σ) = size (visited_urls (scraper σ))
  /\ Forall stats_ok (reports (world σ)).

(** No URL is claimed twice, and every claimed URL is marked visited. *)
Definition dedup_inv (σ : Session) : Prop :=
  NoDup (claimed σ)
  /\ (forall u, u ∈ claimed σ -> u ∈ visited_urls (scraper σ)).

(** The depth bound on a task as a pair, and on what a worker holds: a
    worker that still has links to queue stands at a depth below the
    limit. *)
Definition depth_ok (cfg : Config) (task : string * Z) : Prop :=
  (0 <= task.2 <= max_depth cfg)%Z.

Definition holds_depth_ok (cfg : Config) (wk : Worker) : Prop :=
  match wk with
  | Dequeued _ d | Fetching _ d => (0 <= d <= max_depth cfg)%Z
  | Enqueuing d _ => (0 <= d < max_depth cfg)%Z
  | _ => True
  end.

(** A URL on the host of the seed, as the classifier compares hosts: by
    the [netloc] of the parsed URL. *)
Definition same_host (cfg : Config) (url : string) : Prop :=
  Urllib.netloc (Urllib.urlparse url) = base_domain cfg.

Definition holds_same_host (cfg : Config) (wk : Worker) : Prop :=
  match wk with
  | Dequeued u _ | Fetching u _ => same_host cfg u
  | Enqueuing _ links => Forall (same_host cfg) links
  | _ => True
  end.

(** Every task, queued or held by a worker, respects the depth limit. *)
Definition depth_inv (cfg : Config) (σ : Session) : Prop :=
  Forall (depth_ok cfg) (queue (scraper σ))
  /\ Forall (holds_depth_ok cfg) (workers σ).

(** Every task, queued or held by a worker, is on the host of the seed. *)
Definition host_inv (cfg : Config) (σ : Session) : Prop :=
  Forall (fun task => same_host cfg task.1) (queue (scraper σ))
  /\ Forall (holds_same_host cfg) (workers σ).

(** Events of the crawl itself: nobody calls [stop()], no interrupt. *)
Definition quiet (e : Event) : Prop :=
  match e with
  | Stop | Interrupt => False
  | _ => True
  end.

(** What keeps [start] in its loop: the flag is set, the caller polls,
    every worker thread is alive, and without any worker the seed stays on
    the queue. *)
Definition keeps_polling (σ : Session) : Prop :=
  running (scraper σ) = true
  /\ caller σ = Polling
  /\ Forall (fun wk => is_alive wk = true) (workers σ)
  /\ (workers σ <> [] \/ queue (scraper σ) <> []).

(* ===================================================================== *)
(** ** Worked examples: a small site *)
(* ===================================================================== *)

Definition anchor (href : string) : Tag := mkTag "a" {["href" := href]}.

Definition image (src : string) : Tag := mkTag "img" {["src" := src]}.

(** Depth limit 2, same host only, [.pdf] files wanted, one worker. *)
Definition demo_cfg : Config :=
  mkConfig "http://a.test/" "out" 2 false true true true [".pdf"] 1 "/home/user".

(** [demo_cfg] with another list of wanted file types. *)
Definition set_file_types (ft : list string) (cfg : Config) : Config :=
  mkConfig (base_url cfg) (output_dir cfg) (max_depth cfg) (follow_external cfg)
    (download_images cfg) (download_css cfg) (download_js cfg) ft
    (num_threads cfg) (cwd cfg).

(** The seed page links twice to the same page, to itself, to another
    host and to a PDF, and shows a logo. *)
Definition demo_page : Document :=
  [anchor "/b.html"; anchor "b.html#intro"; anchor "#top";
   anchor "http://other.test/c.html"; anchor "paper.PDF"; image "/logo.png"].

Definition demo_net : Net := fun url =>
  if String.eqb url "http://a.test/" then
    Reply 200 "text/html; charset=utf-8" "<html>seed</html>" demo_page
  else if String.eqb url "http://a.test/b.html" then
    Reply 200 "text/html" "<html>b</html>" []
  else if String.eqb url "http://a.test/logo.png" then
    Reply 200 "image/png" "PNG" []
  else if String.eqb url "http://a.test/paper.PDF" then
    Reply 200 "application/pdf" "%PDF" []
  else Reply 500 "" "" [].

(** A listing served page by page under one path. *)
Definition paged_net : Net := fun url =>
  if String.eqb url "http://a.test/list?page=1" then
    Reply 200 "application/json" "one" []
  else Reply 200 "application/json" "two" [].

(** The only worker takes the seed, marks it, gets the page and queues its
    links. *)
Definition seed_events : list Event :=
  [Run 0; Run 0; Run 0; Respond 0 demo_net; Run 0; Run 0].

(** A site whose pages hold no link at all. *)
Definition lonely_net : Net := fun _ =>
  Reply 200 "text/html" "<html></html>" [].

(** The only worker downloads the seed, counts it, sleeps and is back at
    the head of its loop; the caller polls three times. *)
Definition lonely_events : list Event :=
  [Run 0; Run 0; Run 0; Respond 0 lonely_net; Run 0; Run 0; Run 0;
   Poll; Poll; Poll].

(** The same crawl, then [stop()]: the worker leaves its loop and [start]
    returns.  After that, [start] is called again on the same object. *)
Definition stopped_session : Session :=
  run demo_cfg (lonely_events ++ [Stop; Run 0; Poll]) (session demo_cfg false).

Definition second_start : Session := start demo_cfg false stopped_session.

(** The path below the output directory, before it is joined to it. *)
Definition relative_path (url : string) : string :=
  let parsed_url := Urllib.urlparse url in
  let path :=
    PyStr.replace ":" "_" (Urllib.netloc parsed_url +:+ Urllib.path parsed_url) in
  if PyStr.endswith path "/" then path +:+ "index.html"
  else if negb (PyStr.contains "." (PosixPath.basename path))
  then path +:+ "/index.html"
  else path.

(** [session.get(url)] answered with status 200. *)
Definition fetch_ok (net : Net) (url : string) : bool :=
  match net url with
  | Reply status _ _ _ => (status =? 200)%Z
  | NetError => false
  end.

(** What [localize] makes of a tag, read off the answers of the network
    alone. *)
Definition localized (cfg : Config) (net : Net) (url attr : string) (t : Tag) : Tag :=
  match attrs t !! attr with
  | Some ref =>
      match _normalize_url ref url with
      | Some res_url =>
          if PyStr.truthy res_url && fetch_ok net res_url
          then set_attr attr
                 (PosixPath.relpath (cwd cfg) (local_path cfg res_url)
                    (PosixPath.dirname (local_path cfg url))) t
          else t
      | None => t
      end
  | None => t
  end.

(** One tag after the three rewriting loops of [_process_html]. *)
Definition rewrite_tag (cfg : Config) (net : Net) (url : string) (t : Tag) : Tag :=
  let t := if download_images cfg && is_image t then localized cfg net url "src" t else t in
  let t := if download_css cfg && is_stylesheet t then localized cfg net url "href" t else t in
  if download_js cfg && is_script t then localized cfg net url "src" t else t.

(** A network on which nothing can be fetched. *)
Definition dead_net : Net := fun _ => Reply 404 "text/plain" "not found" [].

(** A worker that can still start a page after [running] has become
    false: it is inside [queue.get], or holds a task it has not yet
    looked up in the visited set. *)
Definition may_start (wk : Worker) : nat :=
  match wk with
  | InGet | Dequeued _ _ => 1
  | _ => 0
  end.

Definition pending (ws : list Worker) : nat := sum_list_with may_start ws.

(** One snapshot of the counters is not ahead of another. *)
Definition stats_le (r r' : Stats) : Prop :=
  st_total r <= st_total r'
  /\ st_downloaded r <= st_downloaded r'
  /\ st_failed r <= st_failed r'.

(** Worker [i] alone is scheduled [n] times; each time a pending request
    of its own is answered first. *)
Definition wind_down (i : nat) (net : Net) (n : nat) : list Event :=
  concat (replicate n [Respond i net; Run i]).

(** What the callback has been told, against the counters: one call per
    counted page, each snapshot counting one page more than the one
    before, and none ahead of the counters. *)
Definition reports_inv (callback : bool) (σ : Session) : Prop :=
  progress_callback (scraper σ) = callback
  /\ length (reports (world σ))
     = (if callback
        then downloaded_pages (scraper σ) + failed_pages (scraper σ) else 0)
  /\ (forall k r, reports (world σ) !! k = Some r ->
        st_downloaded r + st_failed r = S k /\ stats_le r (stats (scraper σ)))
  /\ (forall j k rj rk, j <= k ->
        reports (world σ) !! j = Some rj -> reports (world σ) !! k = Some rk ->
        stats_le rj rk).

(** Worker [i], scheduled alone and often enough, leaves its loop. *)
Definition exits (cfg : Config) (i : nat) (net : Net) (σ : Session) : Prop :=
  exists n, workers (run cfg (wind_down i net n) σ) !! i = Some Exited.

(** Where the flag is false, worker [i] in state [wk] ends. *)
Definition ends (cfg : Config) (i : nat) (net : Net) (wk : Worker) : Prop :=
  forall σ, running (scraper σ) = false -> workers σ !! i = Some wk ->
    exits cfg i net σ.

(** Every file is the mapped path of a URL that was requested, as a page
    or as a resource saved to that very path. *)
Definition accounted (cfg : Config) (w : World) : Prop :=
  forall p, p ∈ dom (files w) ->
    exists u, p = local_path cfg u
              /\ (PageGet u ∈ requests w \/ ResourceGet u p ∈ requests w).

(** The same while the page [url] is being processed. *)
Definition page_accounted (cfg : Config) (url : string) (w : World) : Prop :=
  accounted cfg w /\ PageGet url ∈ requests w.

(** A URL that may be requested as a page: the seed, which is queued as
    given, or a link the classifier accepted. *)
Definition seed_or_valid (cfg : Config) (url : string) : Prop :=
  url = base_url cfg \/ _is_valid_url cfg url = true.

Definition holds_seed_or_valid (cfg : Config) (wk : Worker) : Prop :=
  match wk with
  | Dequeued u _ | Fetching u _ => seed_or_valid cfg u
  | Enqueuing _ links => Forall (fun l => _is_valid_url cfg l = true) links
  | _ => True
  end.

Definition requested_inv (cfg : Config) (σ : Session) : Prop :=
  Forall (fun task => seed_or_valid cfg task.1) (queue (scraper σ))
  /\ Forall (holds_seed_or_valid cfg) (workers σ)
  /\ Forall (seed_or_valid cfg) (page_gets (requests (world σ))).

(* ===================================================================== *)
(** ** [InteractiveMenu]: the console menu in front of the scraper *)
(* ===================================================================== *)

(** [c.isspace()] on ASCII text: what [str.strip()] removes. *)
Definition isspace (a : ascii) : bool :=
  let n := nat_of_ascii a in
  (n =? 32)%nat || ((9 <=? n)%nat && (n <=? 13)%nat)
  || ((28 <=? n)%nat && (n <=? 31)%nat).

Module InteractiveMenu.

(** The fields of an [InteractiveMenu] object.  [delay] is a float that
    only the sleeping time of the workers depends on; it is left out.
    [scraper] holds the arguments the last [WebScraper] was made with. *)
Record Menu := mkMenu {
  url : string;
  output_dir : string;
  max_depth : Z;
  follow_external : bool;
  download_images : bool;
  download_css : bool;
  download_js : bool;
  file_types : list string;
  verbose : bool;
  num_threads : Z;
  scraper : option Config
}.

(** [InteractiveMenu.__init__] *)
Definition __init__ : Menu :=
  mkMenu "" "./scraped_sites" 3 false true true true [] false 5 None.

Definition set_url_field (v : string) (m : Menu) : Menu :=
  mkMenu v (output_dir m) (max_depth m) (follow_external m) (download_images m)
    (download_css m) (download_js m) (file_types m) (verbose m) (num_threads m)
    (scraper m).

Definition set_output_dir_field (v : string) (m : Menu) : Menu :=
  mkMenu (url m) v (max_depth m) (follow_external m) (download_images m)
    (download_css m) (download_js m) (file_types m) (verbose m) (num_threads m)
    (scraper m).

Definition set_max_depth_field (v : Z) (m : Menu) : Menu :=
  mkMenu (url m) (output_dir m) v (follow_external m) (download_images m)
    (download_css m) (download_js m) (file_types m) (verbose m) (num_threads m)
    (scraper m).

Definition set_follow_external_field (v : bool) (m : Menu) : Menu :=
  mkMenu (url m) (output_dir m) (max_depth m) v (download_images m)
    (download_css m) (download_js m) (file_types m) (verbose m) (num_threads m)
    (scraper m).

Definition set_download_images_field (v : bool) (m : Menu) : Menu :=
  mkMenu (url m) (output_dir m) (max_depth m) (follow_external m) v
    (download_css m) (download_js m) (file_types m) (verbose m) (num_threads m)
    (scraper m).

Definition set_download_css_field (v : bool) (m : Menu) : Menu :=
  mkMenu (url m) (output_dir m) (max_depth m) (follow_external m)
    (download_images m) v (download_js m) (file_types m) (verbose m)
    (num_threads m) (scraper m).

Definition set_download_js_field (v : bool) (m : Menu) : Menu :=
  mkMenu (url m) (output_dir m) (max_depth m) (follow_external m)
    (download_images m) (download_css m) v (file_types m) (verbose m)
    (num_threads m) (scraper m).

Definition set_file_types_field (v : list string) (m : Menu) : Menu :=
  mkMenu (url m) (output_dir m) (max_depth m) (follow_external m)
    (download_images m) (download_css m) (download_js m) v (verbose m)
    (num_threads m) (scraper m).

Definition set_verbose_field (v : bool) (m : Menu) : Menu :=
  mkMenu (url m) (output_dir m) (max_depth m) (follow_external m)
    (download_images m) (download_css m) (download_js m) (file_types m) v
    (num_threads m) (scraper m).

Definition set_num_threads_field (v : Z) (m : Menu) : Menu :=
  mkMenu (url m) (output_dir m) (max_depth m) (follow_external m)
    (download_images m) (download_css m) (download_js m) (file_types m)
    (verbose m) v (scraper m).

Definition set_scraper_field (v : option Config) (m : Menu) : Menu :=
  mkMenu (url m) (output_dir m) (max_depth m) (follow_external m)
    (download_images m) (download_css m) (download_js m) (file_types m)
    (verbose m) (num_threads m) v.

(** What ends a menu method other than its return.  [EOFError] is raised
    by [input()] at the end of the input, [IndexError] by [list.pop],
    [SystemExit] by [sys.exit(0)]; no method catches any of them. *)
Inductive Exn := EOFError | IndexError | SystemExit.

(** The outcome of a method: its result with the object and the lines
    still to be read, or an exception with the object as it then is.
    [Unfinished] marks a loop cut off by its bound on the number of
    turns. *)
Inductive Res (A : Type) :=
| Ok (a : A) (m : Menu) (rest : list string)
| Raise (e : Exn) (m : Menu)
| Unfinished (m : Menu).

Arguments Ok {A} a m rest.
Arguments Raise {A} e m.
Arguments Unfinished {A} m.

(** A method: it reads lines of the console and updates the object. *)
Definition Method (A : Type) : Type := Menu -> list string -> Res A.

Definition pure {A} (a : A) : Method A := fun m lines => Ok a m lines.

Definition and_then {A B} (f : Method A) (k : A -> Method B) : Method B :=
  fun m lines =>
    match f m lines with
    | Ok a m' rest => k a m' rest
    | Raise e m' => Raise e m'
    | Unfinished m' => Unfinished m'
    end.

Notation "'let+' x ':=' f 'in' k" := (and_then f (fun x => k))
  (at level 10, x name, f at level 100, k at level 200).
Notation "'do+' f 'then' k" := (and_then f (fun _ => k))
  (at level 10, f at level 100, k at level 200).

(** [input(prompt)] *)
Definition input : Method string := fun m lines =>
  match lines with
  | [] => Raise EOFError m
  | line :: rest => Ok line m rest
  end.

Definition self : Method Menu := fun m lines => Ok m m lines.

Definition assign (f : Menu -> Menu) : Method unit :=
  fun m lines => Ok tt (f m) lines.

Definition throw {A} (e : Exn) : Method A := fun m _ => Raise e m.

(** The object an outcome leaves behind. *)
Definition object {A} (r : Res A) : Menu :=
  match r with
  | Ok _ m _ | Raise _ m | Unfinished m => m
  end.

(** [InteractiveMenu.validate_url] *)
Definition validate_url (url : string) : string :=
  if negb (PyStr.truthy url) then ""
  else
    let url := PyStr.strip isspace url in
    if negb (is_http url) then "https://" +:+ url else url.

(** [list.pop(i)], [None] for an [IndexError]. *)
Definition pop (i : Z) (l : list string) : option (list string) :=
  let n := Z.of_nat (length l) in
  if (0 <=? i)%Z && (i <? n)%Z then Some (delete (Z.to_nat i) l)
  else if (- n <=? i)%Z && (i <? 0)%Z then Some (delete (Z.to_nat (n + i)) l)
  else None.

(** The arguments [start_scraping] gives to [WebScraper]. *)
Definition arguments (cwd : string) (m : Menu) : Config :=
  mkConfig (url m) (output_dir m) (max_depth m) (follow_external m)
    (download_images m) (download_css m) (download_js m) (file_types m)
    (Z.to_nat (num_threads m)) cwd.

Section Methods.
(** [int(s)] with [None] for a [ValueError], the test
    [0.1 <= float(s) <= 5.0] with [false] also for a [ValueError], and the
    working directory of the process. *)
Context (int : string -> option Z) (delay_ok : string -> bool) (cwd : string).

(** [InteractiveMenu.get_option]: a turn of the loop reads one line. *)
Fixpoint get_option (min_val max_val : Z) (m : Menu) (lines : list string)
  : Res Z :=
  match lines with
  | [] => Raise EOFError m
  | line :: rest =>
      match int line with
      | Some choice =>
          if (min_val <=? choice)%Z && (choice <=? max_val)%Z
          then Ok choice m rest
          else get_option min_val max_val m rest
      | None => get_option min_val max_val m rest
      end
  end.

(** [InteractiveMenu.set_url] *)
Definition set_url : Method unit :=
  let+ url := input in
  assign (set_url_field (validate_url url)).

(** [InteractiveMenu.set_output_dir] *)
Definition set_output_dir : Method unit :=
  let+ output_dir := input in
  if PyStr.truthy output_dir
  then assign (set_output_dir_field (PosixPath.abspath cwd output_dir))
  else pure tt.

(** [InteractiveMenu.set_max_depth] *)
Definition set_max_depth : Method unit :=
  let+ depth := get_option 1 10 in
  assign (set_max_depth_field depth).

(** [InteractiveMenu.toggle_follow_external] and its siblings: the flag
    is flipped, then Enter is awaited. *)
Definition toggle_follow_external : Method unit :=
  do+ assign (fun m => set_follow_external_field (negb (follow_external m)) m) then
  do+ input then pure tt.

Definition toggle_download_images : Method unit :=
  do+ assign (fun m => set_download_images_field (negb (download_images m)) m) then
  do+ input then pure tt.

Definition toggle_download_css : Method unit :=
  do+ assign (fun m => set_download_css_field (negb (download_css m)) m) then
  do+ input then pure tt.

Definition toggle_download_js : Method unit :=
  do+ assign (fun m => set_download_js_field (negb (download_js m)) m) then
  do+ input then pure tt.

Definition toggle_verbose : Method unit :=
  do+ assign (fun m => set_verbose_field (negb (verbose m)) m) then
  do+ input then pure tt.

(** [InteractiveMenu.set_delay]: lines are read until one is a delay in
    range. *)
Fixpoint set_delay (m : Menu) (lines : list string) : Res unit :=
  match lines with
  | [] => Raise EOFError m
  | line :: rest => if delay_ok line then Ok tt m rest else set_delay m rest
  end.

(** [InteractiveMenu.set_num_threads] *)
Definition set_num_threads : Method unit :=
  let+ threads := get_option 1 20 in
  do+ assign (set_num_threads_field threads) then
  do+ input then pure tt.

(** Choice 1 of [manage_file_types]. *)
Definition add_file_type : Method unit :=
  let+ ext := input in
  do+ (if PyStr.truthy ext then
         let ext := if negb (PyStr.startswith ext ".") then "." +:+ ext else ext in
         let+ m := self in
         if negb (PyStr.mem ext (file_types m))
         then assign (set_file_types_field (file_types m ++ [ext]))
         else pure tt
       else pure tt) then
  do+ input then pure tt.

(** Choice 2 of [manage_file_types]. *)
Definition remove_file_type : Method unit :=
  let+ m := self in
  do+ (if negb (0 <? length (file_types m))%nat then pure tt
       else
         let+ idx := get_option 1 (Z.of_nat (length (file_types m))) in
         match pop (idx - 1) (file_types m) with
         | Some l => assign (set_file_types_field l)
         | None => throw IndexError
         end) then
  do+ input then pure tt.

(** Choice 3 of [manage_file_types]. *)
Definition clear_file_types : Method unit :=
  do+ assign (set_file_types_field []) then
  do+ input then pure tt.

(** [InteractiveMenu.manage_file_types], at most [turns] turns of its
    loop. *)
Fixpoint manage_file_types_loop (turns : nat) : Method unit :=
  match turns with
  | O => fun m _ => Unfinished m
  | S turns =>
      let+ choice := get_option 0 3 in
      if (choice =? 0)%Z then pure tt
      else if (choice =? 1)%Z then
        do+ add_file_type then manage_file_types_loop turns
      else if (choice =? 2)%Z then
        do+ remove_file_type then manage_file_types_loop turns
      else if (choice =? 3)%Z then
        do+ clear_file_types then manage_file_types_loop turns
      else manage_file_types_loop turns
  end.

(** A turn reads at least one line: the loop has no more turns than
    there are lines. *)
Definition manage_file_types : Method unit :=
  fun m lines => manage_file_types_loop (S (length lines)) m lines.

(** [InteractiveMenu.start_scraping].  The scraper is made and started;
    what [start] then does is the session above, and the menu goes on when
    it returns. *)
Definition start_scraping : Method unit :=
  let+ m := self in
  if negb (PyStr.truthy (url m)) then do+ input then pure tt
  else
    do+ assign (set_scraper_field (Some (arguments cwd m))) then
    do+ input then pure tt.

(** [InteractiveMenu.show_about] *)
Definition show_about : Method unit :=
  do+ input then pure tt.

(** [InteractiveMenu.main_menu], at most [turns] turns of its loop. *)
Fixpoint main_menu_loop (turns : nat) : Method unit :=
  match turns with
  | O => fun m _ => Unfinished m
  | S turns =>
      let+ choice := get_option 0 13 in
      if (choice =? 0)%Z then throw SystemExit
      else
        do+ (if (choice =? 1)%Z then set_url
             else if (choice =? 2)%Z then set_output_dir
             else if (choice =? 3)%Z then set_max_depth
             else if (choice =? 4)%Z then toggle_follow_external
             else if (choice =? 5)%Z then toggle_download_images
             else if (choice =? 6)%Z then toggle_download_css
             else if (choice =? 7)%Z then toggle_download_js
             else if (choice =? 8)%Z then set_delay
             else if (choice =? 9)%Z then toggle_verbose
             else if (choice =? 10)%Z then set_num_threads
             else if (choice =? 11)%Z then manage_file_types
             else if (choice =? 12)%Z then start_scraping
             else if (choice =? 13)%Z then show_about
             else pure tt) then
        main_menu_loop turns
  end.

Definition main_menu : Method unit :=
  fun m lines => main_menu_loop (S (length lines)) m lines.

End Methods.

(** What the menu keeps true of its settings. *)
Definition settings_ok (m : Menu) : Prop :=
  (1 <= max_depth m <= 10)%Z
  /\ (1 <= num_threads m <= 20)%Z
  /\ NoDup (file_types m)
  /\ Forall (fun ext => PyStr.startswith ext "." = true) (file_types m)
  /\ (url m = "" \/ is_http (url m) = true).

End InteractiveMenu.

(** A scraper as the menu makes it. *)
Definition made_by_menu (cfg : Config) : Prop :=
  is_http (base_url cfg) = true
  /\ (1 <= max_depth cfg <= 10)%Z
  /\ 1 <= num_threads cfg <= 20
  /\ NoDup (file_types cfg)
  /\ Forall (fun ext => PyStr.startswith ext "." = true) (file_types cfg).

(** The settings are in range, and so are the arguments of the scraper
    that was started, if any. *)
Definition menu_ok (m : InteractiveMenu.Menu) : Prop :=
  InteractiveMenu.settings_ok m
  /\ match InteractiveMenu.scraper m with
     | Some cfg => made_by_menu cfg
     | None => True
     end.

(** A decimal reading of a line, enough to drive the examples: [int]
    accepts these digit strings with this value. *)
Fixpoint digits (acc : Z) (s : string) : option Z :=
  match s with
  | EmptyString => Some acc
  | String a s' =>
      if PyStr.is_digit a
      then digits (10 * acc + Z.of_nat (nat_of_ascii a - 48)) s'
      else None
  end.

Definition decimal (s : string) : option Z :=
  match s with
  | EmptyString => None
  | _ => digits 0 s
  end.

(** A return with the settings in range. *)
Definition kept {A} (a : A) (m : InteractiveMenu.Menu) : Prop := menu_ok m.

(** An outcome the menu can live with: a return that satisfies [Q] and
    has read at least [k] of the [n] lines, the end of the input or an
    exit with the settings in range; never an [IndexError], never a loop
    cut off. *)
Definition good {A} (k n : nat) (Q : A -> InteractiveMenu.Menu -> Prop)
    (r : InteractiveMenu.Res A) : Prop :=
  match r with
  | InteractiveMenu.Ok a m rest => Q a m /\ length rest + k <= n
  | InteractiveMenu.Raise InteractiveMenu.IndexError _ => False
  | InteractiveMenu.Raise _ m => menu_ok m
  | InteractiveMenu.Unfinished _ => False
  end.

(** A visit to the menu: the URL is typed with blanks around it, [pdf]
    is added to the file types, then [.pdf] once more, the depth is set
    after a number out of range, the scraper is started and the menu
    left. *)
Definition menu_lines : list string :=
  ["1"; "  a.test/docs "; "11"; "1"; "pdf"; ""; "1"; ".pdf"; ""; "0";
   "3"; "42"; "7"; "12"; ""; "0"].

(** The components of a path that count: what stands between its
    slashes, the empty texts left out. *)
Definition components (p : string) : list string :=
  List.filter PyStr.truthy (PyStr.split "/" p).

(** A component that names a file or a directory. *)
Definition regular (c : string) : Prop :=
  c <> "" /\ c <> "." /\ c <> ".." /\ PyStr.contains "/" c = false.

(** A path that starts with one slash, and not with two. *)
Definition rooted (p : string) : Prop :=
  PyStr.startswith p "/" = true /\ PyStr.startswith p "//" = false.

(** The path that [abspath] normalises. *)
Definition anchored (cwd p : string) : string :=
  if PyStr.startswith p "/" then p else PosixPath.join2 cwd p.

(* ===================================================================== *)
(** ** [ScraperWorker]: the thread of the GUI that runs the scraper *)
(* ===================================================================== *)

(** The signals of [ScraperWorker] (src/scraper_gui.py). *)
Inductive Signal :=
| progress (data : Stats)
| finished
| error (msg : string).

(** [ScraperWorker.run] calls [self.scraper.start()], without a
    callback, on the scraper that [ScraperGUI.start_scraping] has just
    made. *)
Definition ScraperWorker_run (cfg : Config) : Session := session cfg false.

(** What the worker has emitted: [finished] once [start] has returned.
    Nothing emits [progress]; [update_progress] is connected to it and is
    otherwise reached only through the callback of the scraper, whose
    calls are the [reports] of the world. *)
Definition emitted (σ : Session) : list Signal :=
  match caller σ with
  | Returned => [finished]
  | _ => []
  end.

(* ===================================================================== *)
(** ** Facts about the string methods *)
(* ===================================================================== *)

Section StringFacts.
Import PyStr.

Lemma truthy_true (s : string) : truthy s = true <-> s <> "".
Proof.
  unfold truthy. destruct s; simpl; split; intros H; try done.
Qed.

Lemma truthy_false (s : string) : truthy s = false <-> s = "".
Proof.
  unfold truthy. destruct s; simpl; split; intros H; try done.
Qed.

Lemma append_nil_l (s : string) : "" +:+ s = s.
Proof. reflexivity. Qed.

Lemma append_cons (a : ascii) (u v : string) :
  String a u +:+ v = String a (u +:+ v).
Proof. reflexivity. Qed.

Lemma append_nil_r (s : string) : s +:+ "" = s.
Proof. induction s as [|a s IH]; [done|]. by rewrite append_cons, IH. Qed.

Lemma endswith_refl (s : string) : endswith s s = true.
Proof. destruct s; simpl; [done|]. by rewrite Ascii.eqb_refl, String.eqb_refl. Qed.

Lemma endswith_app (p suf : string) : endswith (p +:+ suf) suf = true.
Proof.
  induction p as [|a p IH]; simpl.
  - apply endswith_refl.
  - rewrite IH. apply orb_true_r.
Qed.

Lemma endswith_inv (s suf : string) :
  endswith s suf = true -> exists p, s = p +:+ suf.
Proof.
  induction s as [|a s IH]; cbn [endswith]; intros H.
  - rewrite orb_false_r in H. apply String.eqb_eq in H. by exists "".
  - apply orb_true_iff in H as [H|H].
    + apply String.eqb_eq in H. by exists "".
    + destruct (IH H) as [p ->]. by exists (String a p).
Qed.

Lemma partition_fst_clean (c : ascii) (s : string) :
  contains c (partition c s).1 = false.
Proof.
  induction s as [|a s IH]; simpl; [done|].
  destruct (Ascii.eqb a c) eqn:E; simpl; [done|].
  destruct (partition c s) as [b r]; simpl in *. by rewrite E, IH.
Qed.

End StringFacts.

(* ===================================================================== *)
(** ** The parser does not look past the path when it finds host and path *)
(* ===================================================================== *)

Section ParserFacts.
Import PyStr Urllib.

Lemma contains_app (d : ascii) (u v : string) :
  contains d (u +:+ v) = contains d u || contains d v.
Proof. induction u as [|a u IH]; simpl; [done|]. by rewrite IH, orb_assoc. Qed.

Lemma lstrip_app_stop (f : ascii -> bool) (u : string) (c : ascii) (s : string) :
  f c = false -> lstrip f (u +:+ String c s) = lstrip f u +:+ String c s.
Proof.
  intros Hc. induction u as [|a u IH]; simpl.
  - by rewrite Hc.
  - by destruct (f a).
Qed.

Lemma remove_app (a : ascii) (u v : string) :
  remove a (u +:+ v) = remove a u +:+ remove a v.
Proof.
  induction u as [|x u IH]; simpl; [done|].
  destruct (Ascii.eqb x a); simpl; by rewrite IH.
Qed.

Lemma contains_lstrip (d : ascii) (f : ascii -> bool) (u : string) :
  contains d u = false -> contains d (lstrip f u) = false.
Proof.
  induction u as [|a u IH]; simpl; [done|].
  intros H. apply orb_false_iff in H as [H1 H2].
  destruct (f a); [by apply IH|]. simpl. by rewrite H1, H2.
Qed.

Lemma contains_remove (d a : ascii) (u : string) :
  contains d u = false -> contains d (remove a u) = false.
Proof.
  induction u as [|x u IH]; simpl; [done|].
  intros H. apply orb_false_iff in H as [H1 H2].
  destruct (Ascii.eqb x a); [by apply IH|]. simpl. by rewrite H1, IH.
Qed.

Lemma sanitize_app (u : string) (c : ascii) (s : string) :
  is_delim c ->
  sanitize (u +:+ String c s) = sanitize u +:+ String c (remove_unsafe s).
Proof.
  intros Hc. unfold sanitize, remove_unsafe.
  rewrite lstrip_app_stop by (by destruct Hc as [-> | ->]).
  rewrite !remove_app. by destruct Hc as [-> | ->].
Qed.

Lemma sanitize_plain (u : string) : plain u -> plain (sanitize u).
Proof.
  intros [H1 H2]. unfold sanitize, remove_unsafe.
  split; by repeat apply contains_remove; apply contains_lstrip.
Qed.

Lemma partition_absent (c : ascii) (u : string) :
  contains c u = false -> partition c u = (u, None).
Proof.
  induction u as [|a u IH]; simpl; [done|].
  intros H. apply orb_false_iff in H as [H1 H2].
  by rewrite H1, (IH H2).
Qed.

Lemma partition_app_absent (c : ascii) (u v : string) :
  contains c u = false ->
  partition c (u +:+ v) = ((u +:+ (partition c v).1), (partition c v).2).
Proof.
  induction u as [|a u IH].
  - intros _. rewrite !append_nil_l. by destruct (partition c v).
  - intros H. simpl in H. apply orb_false_iff in H as [H1 H2].
    rewrite !append_cons. simpl. by rewrite H1, (IH H2).
Qed.

Lemma partition_app_present (c : ascii) (u v b r : string) :
  partition c u = (b, Some r) ->
  partition c (u +:+ v) = (b, Some (r +:+ v)).
Proof.
  revert b. induction u as [|a u IH]; intros b; [done|].
  rewrite append_cons. simpl.
  destruct (Ascii.eqb a c).
  - intros [= <- <-]. done.
  - destruct (partition c u) as [b' [r'|]] eqn:E; [|done].
    intros [= <- <-]. by rewrite (IH _ eq_refl).
Qed.

Lemma partition_present_or_absent (c : ascii) (u : string) :
  (exists b r, partition c u = (b, Some r)) \/ contains c u = false.
Proof.
  induction u as [|a u IH]; simpl; [by right|].
  destruct (Ascii.eqb a c); simpl; [left; eauto|].
  destruct IH as [(b & r & ->)|H]; [left; eauto | by right].
Qed.

Lemma partition_rest_contains (c d : ascii) (u b r : string) :
  partition c u = (b, Some r) -> contains d u = false -> contains d r = false.
Proof.
  revert b. induction u as [|a u IH]; simpl; intros b; [done|].
  intros H Hd. apply orb_false_iff in Hd as [H1 H2].
  destruct (Ascii.eqb a c).
  - by injection H as <- <-.
  - destruct (partition c u) as [b' [r'|]] eqn:E; [|done].
    injection H as <- <-. by apply (IH b').
Qed.

Lemma all_chars_app (f : ascii -> bool) (u v : string) :
  all_chars f (u +:+ v) = all_chars f u && all_chars f v.
Proof. induction u as [|a u IH]; simpl; [done|]. by rewrite IH, andb_assoc. Qed.

Lemma take_scheme_app (u dflt : string) (c : ascii) (s : string) :
  is_delim c ->
  take_scheme (u +:+ String c s) dflt =
    ((take_scheme u dflt).1, (take_scheme u dflt).2 +:+ String c s).
Proof.
  intros Hc. unfold take_scheme, split_scheme.
  destruct (partition_present_or_absent ":" u) as [(b & r & E)|E].
  - rewrite (partition_app_present _ _ _ _ _ E), E.
    destruct b as [|a pre]; [done|].
    by destruct (is_alpha a && all_chars scheme_char (String a pre)).
  - rewrite (partition_app_absent _ _ _ E), (partition_absent _ _ E).
    assert (Hc' : exists b', (partition ":" (String c s)).1 = String c b').
    { simpl. destruct Hc as [-> | ->]; simpl;
        destruct (partition ":" s); simpl; eauto. }
    destruct Hc' as [b' ->].
    assert (Hbad : all_chars scheme_char (u +:+ String c b') = false).
    { rewrite all_chars_app. simpl.
      replace (scheme_char c) with false by (by destruct Hc as [-> | ->]).
      simpl. apply andb_false_r. }
    destruct (u +:+ String c b') as [|a pre] eqn:Eu.
    + by destruct u.
    + rewrite Hbad, andb_false_r.
      destruct (partition ":" (String c s)).2; by destruct u.
Qed.

Lemma take_scheme_plain (u dflt : string) :
  plain u -> plain (take_scheme u dflt).2.
Proof.
  intros [H1 H2]. unfold take_scheme, split_scheme.
  destruct (partition ":" u) as [b [r|]] eqn:E; [|by destruct b].
  destruct b as [|a pre]; [done|].
  destruct (is_alpha a && all_chars scheme_char (String a pre)); [|done].
  simpl. split; eapply partition_rest_contains; eauto.
Qed.

Lemma splitnetloc_app (x : string) (c : ascii) (s : string) :
  is_delim c -> plain x ->
  splitnetloc (x +:+ String c s) =
    ((splitnetloc x).1, (splitnetloc x).2 +:+ String c s).
Proof.
  intros Hc. induction x as [|a x IH]; intros [H1 H2].
  - simpl. by destruct Hc as [-> | ->].
  - simpl in H1, H2.
    apply orb_false_iff in H1 as [H1 H1'], H2 as [H2 H2'].
    simpl. rewrite H1, H2. rewrite orb_false_r.
    destruct (Ascii.eqb a "/"); simpl; [done|].
    rewrite (IH (conj H1' H2')). by destruct (splitnetloc x).
Qed.

Lemma splitnetloc_plain (x : string) : plain x -> plain (splitnetloc x).2.
Proof.
  induction x as [|a x IH]; intros [H1 H2]; [done|].
  pose proof H1 as H1f. pose proof H2 as H2f.
  simpl in H1, H2.
  apply orb_false_iff in H1 as [H1 H1'], H2 as [H2 H2'].
  simpl. rewrite H1, H2, orb_false_r.
  destruct (Ascii.eqb a "/"); simpl; [by split|].
  specialize (IH (conj H1' H2')). by destruct (splitnetloc x).
Qed.

Lemma take_netloc_app (x : string) (c : ascii) (s : string) :
  is_delim c -> plain x ->
  take_netloc (x +:+ String c s) =
    ((take_netloc x).1, (take_netloc x).2 +:+ String c s).
Proof.
  intros Hc Hx. unfold take_netloc.
  destruct x as [|a [|b x]].
  - simpl. destruct s; [done|].
    replace (Ascii.eqb c "/") with false by (by destruct Hc as [-> | ->]). done.
  - simpl.
    replace (Ascii.eqb c "/") with false by (by destruct Hc as [-> | ->]).
    by rewrite andb_false_r.
  - simpl. destruct (Ascii.eqb a "/" && Ascii.eqb b "/"); [|done].
    apply splitnetloc_app; [done|].
    destruct Hx as [H1 H2]. simpl in H1, H2.
    apply orb_false_iff in H1 as [_ H1], H2 as [_ H2].
    apply orb_false_iff in H1 as [_ H1], H2 as [_ H2]. by split.
Qed.

Lemma take_netloc_plain (x : string) : plain x -> plain (take_netloc x).2.
Proof.
  intros Hx. unfold take_netloc.
  destruct x as [|a [|b x]]; [done|done|].
  destruct (Ascii.eqb a "/" && Ascii.eqb b "/"); [|done].
  apply splitnetloc_plain.
  destruct Hx as [H1 H2]. simpl in H1, H2.
  apply orb_false_iff in H1 as [_ H1], H2 as [_ H2].
  apply orb_false_iff in H1 as [_ H1], H2 as [_ H2]. by split.
Qed.

(** The path that [urlsplit] cuts out of [y ++ c ++ s] is [y]. *)
Lemma cut_path_app (y : string) (c : ascii) (s : string) :
  is_delim c -> plain y ->
  (cut "?" (cut "#" (y +:+ String c s)).1).1 = y.
Proof.
  intros Hc [H1 H2]. unfold cut.
  rewrite (partition_app_absent "#" y _ H2).
  destruct Hc as [-> | ->].
  - change (partition "#" (String "?" s))
      with (let '(b, r) := partition "#" s in (String "?"%char b, r)).
    destruct (partition "#" s) as [b r]. simpl.
    assert (E : partition "?" (y +:+ String "?" b) = (y, Some b)).
    { rewrite (partition_app_absent "?" y _ H1). simpl. by rewrite append_nil_r. }
    destruct r; simpl; by rewrite E.
  - simpl. rewrite append_nil_r.
    by rewrite (partition_absent "?" y H1).
Qed.

Lemma cut_path_plain (y : string) :
  plain y -> (cut "?" (cut "#" y).1).1 = y.
Proof.
  intros [H1 H2]. unfold cut.
  rewrite (partition_absent "#" y H2). simpl.
  by rewrite (partition_absent "?" y H1).
Qed.

Lemma split_parts_app (u dflt : string) (c : ascii) (s : string) :
  is_delim c -> plain u ->
  (split_parts (u +:+ String c s) dflt).1.1.1 = (split_parts u dflt).1.1.1
  /\ (split_parts (u +:+ String c s) dflt).1.1.2 = (split_parts u dflt).1.1.2.
Proof.
  intros Hc Hu. unfold split_parts.
  rewrite (take_scheme_app u dflt c s Hc).
  pose proof (take_scheme_plain u dflt Hu) as Hx.
  destruct (take_scheme u dflt) as [sch x]. simpl in *.
  rewrite (take_netloc_app x c s Hc Hx).
  pose proof (take_netloc_plain x Hx) as Hy.
  destruct (take_netloc x) as [nl y]. simpl in *.
  pose proof (cut_path_app y c s Hc Hy) as E1.
  pose proof (cut_path_plain y Hy) as E2.
  destruct (cut "#" (y +:+ String c s)) as [z1 f1].
  destruct (cut "#" y) as [z2 f2]. simpl in *.
  destruct (cut "?" z1) as [p1 q1]. destruct (cut "?" z2) as [p2 q2].
  simpl in *. by subst.
Qed.

(** A query or a fragment added to a URL that has neither changes none of
    the scheme, the host, the path and the parameters that [urlparse]
    finds. *)
Lemma urlparse_ignores_suffix (u : string) (c : ascii) (s : string) :
  is_delim c -> plain u ->
  scheme (urlparse (u +:+ String c s)) = scheme (urlparse u)
  /\ netloc (urlparse (u +:+ String c s)) = netloc (urlparse u)
  /\ path (urlparse (u +:+ String c s)) = path (urlparse u)
  /\ params (urlparse (u +:+ String c s)) = params (urlparse u).
Proof.
  intros Hc Hu. unfold urlparse, urlparse_with, urlsplit.
  rewrite (sanitize_app u c s Hc).
  pose proof (sanitize_plain u Hu) as Hu'.
  destruct (split_parts_app (sanitize u) (remove_unsafe (strip c0_or_space ""))
              c (remove_unsafe s) Hc Hu') as [E1 E2].
  destruct (split_parts (sanitize u +:+ String c (remove_unsafe s)) _)
    as [[[[sch1 nl1] p1] q1] f1].
  destruct (split_parts (sanitize u) _) as [[[[sch2 nl2] p2] q2] f2].
  simpl in E1, E2. injection E1 as -> ->. subst p2.
  destruct (mem sch2 uses_params && contains ";" p1); [|done].
  by destruct (splitparams p1).
Qed.

End ParserFacts.

(* ===================================================================== *)
(** ** The URL classifier *)
(* ===================================================================== *)

Section Classifier.
Import PyStr.

(** The decision of [_is_valid_url] in closed form: a URL is accepted
    exactly when none of the three rejections applies. *)
Lemma is_valid_url_closed_form (cfg : Config) (url : string) :
  _is_valid_url cfg url =
    is_http url
    && (follow_external cfg
        || String.eqb (Urllib.netloc (Urllib.urlparse url)) (base_domain cfg))
    && negb (endswith url ".exe") && negb (endswith url ".bin").
Proof.
  unfold _is_valid_url, unwanted_exts.
  assert (Hh : is_http url = true -> truthy url = true).
  { unfold is_http, startswith. destruct url; simpl; [done|done]. }
  destruct (is_http url) eqn:Eh; simpl.
  - rewrite (Hh eq_refl). simpl.
    destruct (follow_external cfg); simpl.
    + rewrite orb_false_r.
      destruct (endswith url ".exe"), (endswith url ".bin"); simpl;
        try done; by destruct (_ && _).
    + destruct (String.eqb _ _); simpl; [|done].
      rewrite orb_false_r.
      destruct (endswith url ".exe"), (endswith url ".bin"); simpl;
        try done; by destruct (_ && _).
  - by rewrite orb_true_r.
Qed.


End Classifier.

(* ===================================================================== *)
(** ** The URL normaliser *)
(* ===================================================================== *)

Section Normaliser.
Import PyStr.

Lemma urljoin_empty_reference (base : string) :
  base <> "" -> Urllib.urljoin base "" = base.
Proof.
  intros H. unfold Urllib.urljoin.
  apply truthy_true in H. by rewrite H.
Qed.

(** C7, as the code has it.  [_normalize_url] gives [None] for an empty
    href.  For any other href it cuts the fragment off (what is left holds
    no [#]), returns what is left unchanged when that starts with
    [http://] or [https://], and otherwise returns [urljoin] of the parent
    URL and what is left.  An href that is only a fragment is therefore not
    answered with [None]: it resolves to the parent URL itself. *)
Theorem normalize_url_cases :
  forall (href parent : string),
    let rest := (partition "#" href).1 in
    _normalize_url "" parent = None
    /\ contains "#" rest = false
    /\ (href <> "" ->
        _normalize_url href parent =
          Some (if is_http rest then rest else Urllib.urljoin parent rest))
    /\ (href <> "" -> rest = "" -> parent <> "" ->
        _normalize_url href parent = Some parent).
Proof.
  intros href parent rest.
  assert (Hmain : href <> "" ->
            _normalize_url href parent =
              Some (if is_http rest then rest else Urllib.urljoin parent rest)).
  { intros H. unfold _normalize_url. apply truthy_true in H. rewrite H. simpl.
    fold rest. by destruct (is_http rest). }
  repeat split.
  - apply partition_fst_clean.
  - exact Hmain.
  - intros H Hrest Hp. rewrite (Hmain H), Hrest. simpl.
    by rewrite urljoin_empty_reference.
Qed.

(** An instance of [normalize_url_cases]: a relative link with a
    fragment, on the seed page of the example. *)
Lemma normalize_url_cases_witness :
  _normalize_url "b.html#intro" "http://a.test/" = Some "http://a.test/b.html".
Proof.
  destruct (normalize_url_cases "b.html#intro" "http://a.test/")
    as (_ & _ & H & _).
  rewrite H; [reflexivity | discriminate].
Defined.

(** C7, counterexample to the claim as stated: an href that consists of a
    fragment only is not answered with none; the parent URL comes back. *)
Lemma normalize_fragment_only_href :
  _normalize_url "#top" "http://a.test/page" = Some "http://a.test/page".
Proof. reflexivity. Qed.

End Normaliser.

(* ===================================================================== *)
(** ** The local path mapper *)
(* ===================================================================== *)

Section PathMapper.
Import PyStr.

(** The path is computed from the host and the path of the URL alone. *)
Lemma local_path_host_and_path (cfg : Config) (a b : string) :
  Urllib.netloc (Urllib.urlparse a) = Urllib.netloc (Urllib.urlparse b) ->
  Urllib.path (Urllib.urlparse a) = Urllib.path (Urllib.urlparse b) ->
  local_path cfg a = local_path cfg b.
Proof. intros H1 H2. unfold local_path. by rewrite H1, H2. Qed.

Lemma local_path_ignores_suffix (cfg : Config) (u : string) (c : ascii) (s : string) :
  is_delim c -> plain u ->
  local_path cfg (u +:+ String c s) = local_path cfg u.
Proof.
  intros Hc Hu.
  destruct (urlparse_ignores_suffix u c s Hc Hu) as (_ & H1 & H2 & _).
  by apply local_path_host_and_path.
Qed.

(** A successful [_download_resource] leaves the body at its
    destination. *)
Lemma download_resource_stores (net : Net) (url dest ct body : string)
    (sp : Document) (w : World) :
  net url = Reply 200 ct body sp ->
  (_download_resource net url dest w).1 = true
  /\ files (_download_resource net url dest w).2 = <[dest := Raw body]> (files w).
Proof.
  intros H. unfold _download_resource, bind, act, ret. simpl. by rewrite H.
Qed.



End PathMapper.

(* ===================================================================== *)
(** ** The page processor *)
(* ===================================================================== *)

Section PageProcessor.
Import PyStr.

Lemma bind_run {A B} (m : M A) (k : A -> M B) (w : World) :
  bind m k w = k (m w).1 (m w).2.
Proof. unfold bind. by destruct (m w). Qed.

Global Instance grows_preorder : PreOrder grows.
Proof.
  split.
  - intros w. by repeat split.
  - intros w1 w2 w3 (H1 & H2 & H3 & H4) (H5 & H6 & H7 & H8).
    repeat split; by etrans.
Qed.

Lemma page_gets_app (l k : list Request) :
  page_gets (l ++ k) = page_gets l ++ page_gets k.
Proof. apply flat_map_app. Qed.

Lemma get_local_path_run (cfg : Config) (url : string) (w : World) :
  _get_local_path cfg url w =
    (local_path cfg url, makedirs (PosixPath.dirname (local_path cfg url)) w).
Proof. reflexivity. Qed.

Lemma get_local_path_grows (cfg : Config) (url : string) (w : World) :
  grows w (_get_local_path cfg url w).2.
Proof. rewrite get_local_path_run. by repeat split. Qed.

Lemma write_file_grows (p : string) (d : FileData) (w : World) :
  grows w (write_file p d w).
Proof. repeat split; simpl; try done. rewrite dom_insert. set_solver. Qed.

Lemma send_grows (url dest : string) (w : World) :
  grows w (send (ResourceGet url dest) w).
Proof.
  repeat split; simpl; try done; [by apply prefix_app_r|].
  rewrite page_gets_app. simpl. apply app_nil_r.
Qed.

Lemma download_resource_grows (net : Net) (url dest : string) (w : World) :
  grows (send (ResourceGet url dest) w) (_download_resource net url dest w).2.
Proof.
  unfold _download_resource, bind, act, ret. simpl.
  destruct (net url) as [|status ct body sp]; [done|].
  destruct (status =? 200)%Z; [|done]. simpl. apply write_file_grows.
Qed.

Lemma download_resource_saved (net : Net) (url dest ct body : string)
    (sp : Document) (w : World) :
  net url = Reply 200 ct body sp ->
  dest ∈ dom (files (_download_resource net url dest w).2).
Proof.
  intros H. unfold _download_resource, bind, act, ret. simpl. rewrite H. simpl.
  rewrite dom_insert. set_solver.
Qed.

Lemma for_each_grows {A} (l : list A) (body : A -> M unit) (w : World) :
  (forall x w, grows w (body x w).2) -> grows w (for_each l body w).2.
Proof.
  intros Hb. revert w. induction l as [|x l IH]; intros w; simpl; [done|].
  rewrite bind_run. etrans; [apply (Hb x)|apply IH].
Qed.

Lemma for_tags_grows (soup : Document) (body : Tag -> M Tag) (w : World) :
  (forall t w, grows w (body t w).2) -> grows w (for_tags soup body w).2.
Proof.
  intros Hb. revert w. induction soup as [|t soup IH]; intros w; simpl; [done|].
  rewrite !bind_run. simpl. etrans; [apply (Hb t)|apply IH].
Qed.

(** What [localize] returns is the tag itself or the tag with one
    attribute set anew. *)
Lemma localize_result (cfg : Config) (net : Net) (url attr : string) (t : Tag)
    (w : World) :
  (localize cfg net url attr t w).1 = t
  \/ exists v, (localize cfg net url attr t w).1 = set_attr attr v t.
Proof.
  unfold localize.
  destruct (attrs t !! attr) as [ref|]; [|by left].
  destruct (_normalize_url ref url) as [res_url|]; [|by left].
  destruct (truthy res_url); [|by left].
  rewrite !bind_run.
  destruct ((_download_resource net res_url _ _).1); [|by left].
  rewrite bind_run. right. eauto.
Qed.

Lemma localize_grows (cfg : Config) (net : Net) (url attr : string) (t : Tag)
    (w : World) :
  grows w (localize cfg net url attr t w).2.
Proof.
  unfold localize.
  destruct (attrs t !! attr) as [ref|]; [|done].
  destruct (_normalize_url ref url) as [res_url|]; [|done].
  destruct (truthy res_url); [|done].
  rewrite !bind_run.
  set (dest := (_get_local_path cfg res_url w).1).
  set (w1 := (_get_local_path cfg res_url w).2).
  assert (H1 : grows w (_download_resource net res_url dest w1).2).
  { etrans; [apply (get_local_path_grows cfg res_url)|]. fold w1.
    etrans; [apply (send_grows res_url dest)|].
    apply download_resource_grows. }
  destruct ((_download_resource net res_url dest w1).1); [|done].
  rewrite bind_run. etrans; [exact H1|]. apply get_local_path_grows.
Qed.

Lemma same_anchors_refl (soup : Document) : same_anchors soup soup.
Proof. unfold same_anchors. induction soup; constructor; auto. Qed.

Lemma same_anchors_trans (a b c : Document) :
  same_anchors a b -> same_anchors b c -> same_anchors a c.
Proof.
  unfold same_anchors. intros H. revert c.
  induction H as [|x y a b [Hn Hx] H IH]; intros c Hc.
  - exact Hc.
  - inversion Hc as [|y' z b' c' [Hn' Hy] Hc']; subst. constructor.
    + split; [congruence|]. intros Ha. rewrite (Hy ltac:(congruence)). auto.
    + by apply IH.
Qed.

Lemma same_anchors_filter (soup soup' : Document) :
  same_anchors soup soup' ->
  List.filter is_anchor soup' = List.filter is_anchor soup.
Proof.
  unfold same_anchors.
  induction 1 as [|t t' soup soup' [Hn Ht] H IH]; [done|]. simpl.
  destruct (String.eqb (tag_name t) "a") eqn:E.
  - apply String.eqb_eq in E. rewrite (Ht E), IH. done.
  - unfold is_anchor. rewrite Hn, E. simpl. done.
Qed.

(** The three rewriting loops select images, stylesheet links and
    scripts: never an anchor. *)
Lemma localize_all_same_anchors (cfg : Config) (enabled : bool) (sel : Tag -> bool)
    (net : Net) (url attr : string) (soup : Document) (w : World) :
  (forall t, sel t = true -> tag_name t <> "a") ->
  same_anchors soup (localize_all cfg enabled sel net url attr soup w).1.
Proof.
  intros Hsel. unfold localize_all.
  destruct enabled; [|apply same_anchors_refl].
  revert w. induction soup as [|t soup IH]; intros w; simpl; [constructor|].
  rewrite !bind_run. simpl. constructor; [|apply IH].
  destruct (sel t) eqn:E; [|done].
  destruct (localize_result cfg net url attr t w) as [-> | [v ->]]; [done|].
  split; [done|]. intros Ha. by destruct (Hsel t E).
Qed.

Lemma localize_all_grows (cfg : Config) (enabled : bool) (sel : Tag -> bool)
    (net : Net) (url attr : string) (soup : Document) (w : World) :
  grows w (localize_all cfg enabled sel net url attr soup w).2.
Proof.
  unfold localize_all. destruct enabled; [|done].
  apply for_tags_grows. intros t w'.
  destruct (sel t); [apply localize_grows|done].
Qed.

Lemma download_file_grows (cfg : Config) (net : Net) (url : string) (a : Tag)
    (w : World) :
  grows w (download_file cfg net url a w).2.
Proof.
  unfold download_file.
  destruct (attrs a !! "href") as [href|]; [|done].
  destruct (_normalize_url href url) as [file_url|]; [|done].
  destruct (truthy file_url && _should_download_file cfg file_url); [|done].
  rewrite !bind_run. simpl.
  etrans; [apply (get_local_path_grows cfg file_url)|].
  etrans; [apply (send_grows file_url (local_path cfg file_url))|].
  apply download_resource_grows.
Qed.

Lemma fetched_grows (cfg : Config) (net : Net) (file_url : string) (w w' : World) :
  grows w w' -> fetched cfg net file_url w -> fetched cfg net file_url w'.
Proof.
  intros ([k Hk] & _ & Hd & _) [H1 H2]. split.
  - rewrite Hk. apply elem_of_app. by left.
  - intros ct body sp Hn. apply Hd. eauto.
Qed.

Lemma download_file_fetched (cfg : Config) (net : Net) (url : string) (a : Tag)
    (href file_url : string) (w : World) :
  attrs a !! "href" = Some href ->
  _normalize_url href url = Some file_url ->
  file_url <> "" ->
  _should_download_file cfg file_url = true ->
  fetched cfg net file_url (download_file cfg net url a w).2.
Proof.
  intros Ha Hn Hf Hs. unfold download_file. rewrite Ha, Hn.
  apply truthy_true in Hf. rewrite Hf, Hs. simpl.
  rewrite !bind_run. simpl.
  set (dest := local_path cfg file_url).
  set (w1 := makedirs (PosixPath.dirname dest) w).
  split.
  - destruct (download_resource_grows net file_url dest w1) as [[k Hk] _].
    rewrite Hk. simpl. rewrite !elem_of_app, list_elem_of_singleton. auto.
  - intros ct body sp Hr. by eapply download_resource_saved.
Qed.

Lemma for_each_download_fetched (cfg : Config) (net : Net) (url : string)
    (l : list Tag) (a : Tag) (href file_url : string) (w : World) :
  a ∈ l ->
  attrs a !! "href" = Some href ->
  _normalize_url href url = Some file_url ->
  file_url <> "" ->
  _should_download_file cfg file_url = true ->
  fetched cfg net file_url (for_each l (download_file cfg net url) w).2.
Proof.
  intros Hin Ha Hn Hf Hs. revert w.
  induction l as [|x l IH]; intros w; [by apply elem_of_nil in Hin|].
  simpl. rewrite bind_run.
  apply elem_of_cons in Hin as [-> | Hin].
  - eapply fetched_grows; [|by eapply download_file_fetched].
    apply for_each_grows. intros; apply download_file_grows.
  - by apply IH.
Qed.

Lemma should_download_file_any (cfg : Config) (u : string) :
  _should_download_file cfg u =
    existsb (fun ext => endswith (lower u) (lower ext)) (file_types cfg).
Proof.
  unfold _should_download_file. by destruct (file_types cfg).
Qed.


End PageProcessor.

(* ===================================================================== *)
(** ** What one page request does to the world *)
(* ===================================================================== *)

Section PageRequest.
Import PyStr.

Lemma download_files_grows (cfg : Config) (net : Net) (url : string)
    (soup : Document) (w : World) :
  grows w (download_files cfg net url soup w).2.
Proof.
  unfold download_files. apply for_each_grows.
  intros a w'. apply download_file_grows.
Qed.

Lemma process_html_grows (cfg : Config) (net : Net) (soup : Document)
    (url : string) (depth : Z) (w : World) :
  grows w (_process_html cfg net soup url depth w).2.
Proof.
  unfold _process_html. rewrite !bind_run. simpl.
  etrans; [apply (localize_all_grows cfg (download_images cfg) is_image net url "src")|].
  etrans; [apply (localize_all_grows cfg (download_css cfg) is_stylesheet net url "href")|].
  etrans; [apply (localize_all_grows cfg (download_js cfg) is_script net url "src")|].
  etrans; [apply download_files_grows|].
  etrans; [apply (get_local_path_grows cfg url)|].
  apply write_file_grows.
Qed.

Lemma process_html_links (cfg : Config) (net : Net) (soup : Document)
    (url : string) (depth : Z) (w : World) :
  (_process_html cfg net soup url depth w).1.1 = extract_links cfg soup url.
Proof. unfold _process_html. rewrite !bind_run. reflexivity. Qed.

(** [fetch_page] sends one page request, for its own URL, and never calls
    the callback. *)
Lemma fetch_page_world (cfg : Config) (net : Net) (url : string) (depth : Z)
    (w : World) :
  page_gets (requests (fetch_page cfg net url depth w).2)
    = page_gets (requests w) ++ [url]
  /\ reports (fetch_page cfg net url depth w).2 = reports w.
Proof.
  assert (H0 : page_gets (requests (send (PageGet url) w))
               = page_gets (requests w) ++ [url]).
  { simpl. by rewrite page_gets_app. }
  unfold fetch_page. rewrite bind_run. simpl.
  destruct (net url) as [|status ct body sp]; [done|].
  destruct (status =? 200)%Z; [|done].
  destruct (substr_in "text/html" (lower ct)).
  - rewrite bind_run. simpl.
    destruct (process_html_grows cfg net sp url depth (send (PageGet url) w))
      as (_ & Hp & _ & Hr).
    rewrite Hp, Hr. done.
  - done.
Qed.

Lemma extract_links_valid (cfg : Config) (soup : Document) (url : string) :
  Forall (fun l => _is_valid_url cfg l = true) (extract_links cfg soup url).
Proof.
  unfold extract_links. induction (List.filter is_anchor soup) as [|a l IH].
  - constructor.
  - simpl. apply Forall_app. split; [|exact IH].
    destruct (attrs a !! "href") as [href|]; [|constructor].
    destruct (_normalize_url href url) as [n|]; [|constructor].
    destruct (truthy n && _is_valid_url cfg n) eqn:E; [|constructor].
    apply andb_true_iff in E as [_ E]. by repeat constructor.
Qed.

Lemma fetch_page_links (cfg : Config) (net : Net) (url : string) (depth : Z)
    (w : World) (links : list string) :
  (fetch_page cfg net url depth w).1 = PageLinks links ->
  Forall (fun l => _is_valid_url cfg l = true) links.
Proof.
  unfold fetch_page. rewrite bind_run. simpl.
  destruct (net url) as [|status ct body sp]; [done|].
  destruct (status =? 200)%Z; [|done].
  destruct (substr_in "text/html" (lower ct)); [|done].
  rewrite bind_run. simpl. rewrite process_html_links.
  intros [= <-]. apply extract_links_valid.
Qed.

Lemma valid_url_same_host (cfg : Config) (url : string) :
  follow_external cfg = false ->
  _is_valid_url cfg url = true -> same_host cfg url.
Proof.
  intros Hf. rewrite is_valid_url_closed_form, Hf. simpl.
  intros H. do 2 (apply andb_true_iff in H as [H _]).
  apply andb_true_iff in H as [_ H]. by apply String.eqb_eq in H.
Qed.

End PageRequest.

(* ===================================================================== *)
(** ** Runs of the machine *)
(* ===================================================================== *)

Section Runs.
Context (cfg : Config).

Lemma run_cons (e : Event) (events : list Event) (σ : Session) :
  run cfg (e :: events) σ = run cfg events (step cfg e σ).
Proof. reflexivity. Qed.

Lemma run_app (evs1 evs2 : list Event) (σ : Session) :
  run cfg (evs1 ++ evs2) σ = run cfg evs2 (run cfg evs1 σ).
Proof. apply fold_left_app. Qed.

(** A property that holds at the start of a run and that every allowed
    step keeps holds at its end. *)
Lemma run_invariant (Inv : Session -> Prop) (allowed : Event -> Prop) :
  (forall e σ, allowed e -> Inv σ -> Inv (step cfg e σ)) ->
  forall events σ, Forall allowed events -> Inv σ -> Inv (run cfg events σ).
Proof.
  intros Hstep events. induction events as [|e events IH]; intros σ Hall Hσ.
  - exact Hσ.
  - inversion Hall; subst. rewrite run_cons. apply IH; [done|]. by apply Hstep.
Qed.

Lemma run_invariant_all (Inv : Session -> Prop) :
  (forall e σ, Inv σ -> Inv (step cfg e σ)) ->
  forall events σ, Inv σ -> Inv (run cfg events σ).
Proof.
  intros Hstep events σ. apply (run_invariant Inv (fun _ => True)); [auto|].
  by apply Forall_true.
Qed.

(** A worker that is replaced in the list: what surrounds it stays. *)
Lemma insert_middle (ws : list Worker) (i : nat) (wk : Worker) :
  ws !! i = Some wk ->
  exists l1 l2, ws = l1 ++ wk :: l2 /\ forall wk', <[i := wk']> ws = l1 ++ wk' :: l2.
Proof.
  intros H. exists (take i ws), (drop (S i) ws). split.
  - by rewrite take_drop_middle.
  - intros wk'. apply insert_take_drop. by eapply lookup_lt_Some.
Qed.

Lemma load_insert (ws : list Worker) (i : nat) (wk wk' : Worker) :
  ws !! i = Some wk ->
  load (<[i := wk']> ws) + in_flight wk = load ws + in_flight wk'.
Proof.
  intros H. destruct (insert_middle ws i wk H) as (l1 & l2 & E & E').
  rewrite (E' wk'). clear E'. subst ws. unfold load.
  rewrite !sum_list_with_app. simpl. lia.
Qed.

Lemma fetching_insert (ws : list Worker) (i : nat) (wk wk' : Worker) :
  ws !! i = Some wk ->
  flat_map fetching (<[i := wk']> ws) ++ fetching wk
    ≡ₚ fetching wk' ++ flat_map fetching ws.
Proof.
  intros H. destruct (insert_middle ws i wk H) as (l1 & l2 & E & E').
  rewrite (E' wk'). clear E'. subst ws.
  rewrite !flat_map_app. simpl.
  generalize (flat_map fetching l1) (flat_map fetching l2)
    (fetching wk) (fetching wk').
  intros a b c d. solve_Permutation.
Qed.

End Runs.

(* ===================================================================== *)
(** ** The counters *)
(* ===================================================================== *)

Section Counters.
Context (cfg : Config).

Lemma session_stats_inv (callback : bool) : stats_inv (session cfg callback).
Proof.
  unfold stats_inv, session, start, load. simpl. repeat split.
  - induction (num_threads cfg) as [|n IH]; simpl; [done|]. exact IH.
  - constructor.
Qed.

Lemma stats_inv_step (e : Event) (σ : Session) :
  stats_inv σ -> stats_inv (step cfg e σ).
Proof.
  destruct σ as [s ws c w]. unfold stats_inv. simpl.
  intros (Hload & Hsize & Hrep).
  destruct e as [i|i net| | |]; simpl.
  - destruct (ws !! i) as [wk|] eqn:E; [|done].
    destruct wk as [| |url depth|url depth|depth links|ok| |]; simpl.
    + pose proof (load_insert ws i _ (if running s then InGet else Exited) E) as L.
      destruct (running s); simpl in *; repeat split; try done; lia.
    + destruct (queue s) as [|[url depth] q]; simpl.
      * pose proof (load_insert ws i _ AtLoop E) as L. simpl in L.
        repeat split; try done; lia.
      * pose proof (load_insert ws i _ (Dequeued url depth) E) as L. simpl in L.
        repeat split; try done; lia.
    + destruct (bool_decide (url ∈ visited_urls s)) eqn:V; simpl.
      * pose proof (load_insert ws i _ AtLoop E) as L. simpl in L.
        repeat split; try done; lia.
      * pose proof (load_insert ws i _ (Fetching url depth) E) as L. simpl in L.
        apply bool_decide_eq_false in V.
        repeat split; try done; [lia|].
        rewrite size_union by set_solver. rewrite size_singleton. lia.
    + rewrite list_insert_id by done. done.
    + destruct links as [|link rest]; simpl.
      * pose proof (load_insert ws i _ (Counting true) E) as L. simpl in L.
        repeat split; try done; lia.
      * pose proof (load_insert ws i _ (Enqueuing depth rest) E) as L. simpl in L.
        destruct (bool_decide (link ∈ visited_urls s)); simpl;
          repeat split; try done; lia.
    + pose proof (load_insert ws i _ Sleeping E) as L. simpl in L.
      assert (Hnew : stats_ok (stats (count ok s))).
      { unfold stats_ok. destruct ok; simpl; lia. }
      destruct ok; simpl; (repeat split; [lia|done|]);
        destruct (progress_callback s); simpl; try done;
        apply Forall_app; split; try done; by repeat constructor.
    + pose proof (load_insert ws i _ AtLoop E) as L. simpl in L.
      repeat split; try done; lia.
    + rewrite list_insert_id by done. done.
  - destruct (ws !! i) as [wk|] eqn:E; [|done].
    destruct wk as [| |url depth|url depth|depth links|ok| |]; simpl;
      try (rewrite list_insert_id by done; done).
    destruct (fetch_page_world cfg net url depth w) as [_ Hr].
    destruct (fetch_page cfg net url depth w) as [r w'] eqn:F. simpl in Hr.
    destruct r as [| |links]; simpl.
    + pose proof (load_insert ws i _ (Counting false) E) as L. simpl in L.
      rewrite Hr. repeat split; try done; lia.
    + pose proof (load_insert ws i _ (Counting true) E) as L. simpl in L.
      rewrite Hr. repeat split; try done; lia.
    + destruct (depth <? max_depth cfg)%Z; simpl.
      * pose proof (load_insert ws i _ (Enqueuing depth links) E) as L. simpl in L.
        rewrite Hr. repeat split; try done; lia.
      * pose proof (load_insert ws i _ (Counting true) E) as L. simpl in L.
        rewrite Hr. repeat split; try done; lia.
  - destruct c; simpl; try done.
    destruct (running s); simpl; [|done].
    by destruct (drained _).
  - done.
  - by destruct c.
Qed.

(** No step lowers a counter. *)
Lemma step_monotone (e : Event) (σ : Session) :
  total_pages (scraper σ) <= total_pages (scraper (step cfg e σ))
  /\ downloaded_pages (scraper σ) <= downloaded_pages (scraper (step cfg e σ))
  /\ failed_pages (scraper σ) <= failed_pages (scraper (step cfg e σ)).
Proof.
  destruct σ as [s ws c w].
  destruct e as [i|i net| | |]; simpl.
  - destruct (ws !! i) as [wk|] eqn:E; [|simpl; lia].
    destruct wk as [| |url depth|url depth|depth links|ok| |]; simpl; try lia.
    + destruct (queue s) as [|[url depth] q]; simpl; lia.
    + destruct (bool_decide (url ∈ visited_urls s)); simpl; lia.
    + destruct links as [|link rest]; simpl; [lia|].
      destruct (bool_decide (link ∈ visited_urls s)); simpl; lia.
    + destruct ok; simpl; lia.
  - destruct (ws !! i) as [wk|] eqn:E; [|simpl; lia].
    destruct (worker_respond cfg net wk w). simpl. lia.
  - destruct c; simpl; try lia.
    destruct (running s); simpl; [|lia]. destruct (drained _); simpl; lia.
  - lia.
  - destruct c; simpl; lia.
Qed.

Lemma run_monotone (events : list Event) (σ : Session) :
  total_pages (scraper σ) <= total_pages (scraper (run cfg events σ))
  /\ downloaded_pages (scraper σ) <= downloaded_pages (scraper (run cfg events σ))
  /\ failed_pages (scraper σ) <= failed_pages (scraper (run cfg events σ)).
Proof.
  revert σ. induction events as [|e events IH]; intros σ; [simpl; lia|].
  rewrite run_cons.
  pose proof (step_monotone e σ). pose proof (IH (step cfg e σ)). lia.
Qed.

End Counters.


(* ===================================================================== *)
(** ** No page is requested twice *)
(* ===================================================================== *)

Section Dedup.
Context (cfg : Config).

Lemma session_dedup_inv (callback : bool) : dedup_inv (session cfg callback).
Proof.
  assert (H : flat_map fetching (replicate (num_threads cfg) AtLoop) = []).
  { induction (num_threads cfg) as [|n IH]; simpl; [done|exact IH]. }
  unfold dedup_inv, claimed, session, start. simpl. rewrite H. split.
  - constructor.
  - intros u Hu. by apply elem_of_nil in Hu.
Qed.

(** A step that permutes the claimed URLs and forgets no visited URL
    keeps the invariant. *)
Lemma dedup_inv_perm (σ σ' : Session) :
  claimed σ' ≡ₚ claimed σ ->
  visited_urls (scraper σ) ⊆ visited_urls (scraper σ') ->
  dedup_inv σ -> dedup_inv σ'.
Proof.
  intros Hp Hv [Hn Hin]. split.
  - by rewrite Hp.
  - intros u Hu. rewrite Hp in Hu. apply Hv. by apply Hin.
Qed.

(** Replacing a worker that is not about to send a request by another
    such worker changes no claim. *)
Lemma claimed_insert_idle (s s' : Scraper) (ws : list Worker) (c c' : Caller)
    (w : World) (i : nat) (wk wk' : Worker) :
  ws !! i = Some wk -> fetching wk = [] -> fetching wk' = [] ->
  claimed (mkSession s' (<[i := wk']> ws) c' w) ≡ₚ claimed (mkSession s ws c w).
Proof.
  intros E H1 H2. unfold claimed. simpl.
  pose proof (fetching_insert ws i wk wk' E) as P.
  rewrite H1, H2, app_nil_r in P. simpl in P. by rewrite P.
Qed.

Lemma dedup_inv_step (e : Event) (σ : Session) :
  dedup_inv σ -> dedup_inv (step cfg e σ).
Proof.
  destruct σ as [s ws c w]. intros Hinv.
  destruct e as [i|i net| | |]; simpl.
  - destruct (ws !! i) as [wk|] eqn:E; [|done].
    destruct wk as [| |url depth|url depth|depth links|ok| |]; simpl.
    + eapply dedup_inv_perm; [| |exact Hinv]; [|done].
      eapply claimed_insert_idle; eauto. by destruct (running s).
    + destruct (queue s) as [|[url depth] q]; simpl;
        (eapply dedup_inv_perm; [| |exact Hinv]; [|done]);
        eapply claimed_insert_idle; eauto.
    + destruct (bool_decide (url ∈ visited_urls s)) eqn:V; simpl.
      * eapply dedup_inv_perm; [| |exact Hinv]; [|done].
        eapply claimed_insert_idle; eauto.
      * apply bool_decide_eq_false in V. destruct Hinv as [Hn Hin].
        unfold claimed in *. simpl in *.
        pose proof (fetching_insert ws i _ (Fetching url depth) E) as P.
        simpl in P. rewrite app_nil_r in P.
        assert (Hp : page_gets (requests w)
                       ++ flat_map fetching (<[i:=Fetching url depth]> ws)
                     ≡ₚ url :: (page_gets (requests w) ++ flat_map fetching ws)).
        { rewrite P. by rewrite Permutation_middle. }
        split.
        -- rewrite Hp. apply NoDup_cons. split; [|done].
           intros Hu. apply V. by apply Hin.
        -- intros u Hu. rewrite Hp in Hu.
           apply elem_of_cons in Hu as [-> | Hu]; [set_solver|].
           apply elem_of_union. right. by apply Hin.
    + rewrite list_insert_id by done. done.
    + destruct links as [|link rest]; simpl.
      * eapply dedup_inv_perm; [| |exact Hinv]; [|done].
        eapply claimed_insert_idle; eauto.
      * eapply dedup_inv_perm; [| |exact Hinv].
        -- eapply claimed_insert_idle; eauto.
        -- simpl. by destruct (bool_decide (link ∈ visited_urls s)).
    + eapply dedup_inv_perm; [| |exact Hinv]; [|done].
      unfold claimed. simpl.
      pose proof (fetching_insert ws i _ Sleeping E) as P.
      simpl in P. rewrite app_nil_r in P.
      destruct (progress_callback s); simpl; by rewrite P.
    + eapply dedup_inv_perm; [| |exact Hinv]; [|done].
      eapply claimed_insert_idle; eauto.
    + rewrite list_insert_id by done. done.
  - destruct (ws !! i) as [wk|] eqn:E; [|done].
    destruct wk as [| |url depth|url depth|depth links|ok| |]; simpl;
      try (rewrite list_insert_id by done; done).
    destruct (fetch_page_world cfg net url depth w) as [Hg _].
    destruct (fetch_page cfg net url depth w) as [r w'] eqn:F. simpl in Hg.
    set (wk' := match r with
                | PageFailed => Counting false
                | PageSaved => Counting true
                | PageLinks links =>
                    if (depth <? max_depth cfg)%Z then Enqueuing depth links
                    else Counting true
                end).
    assert (Hwk : fetching wk' = []).
    { unfold wk'. destruct r; try done. by destruct (depth <? max_depth cfg)%Z. }
    assert (Hstep : (let '(wk0, w0) :=
                       match r with
                       | PageFailed => (Counting false, w')
                       | PageSaved => (Counting true, w')
                       | PageLinks links =>
                           (if (depth <? max_depth cfg)%Z
                            then Enqueuing depth links else Counting true, w')
                       end in
                     mkSession s (<[i:=wk0]> ws) c w0)
                    = mkSession s (<[i:=wk']> ws) c w').
    { unfold wk'. by destruct r. }
    rewrite Hstep.
    eapply dedup_inv_perm; [| |exact Hinv]; [|done].
    unfold claimed. simpl. rewrite Hg.
    pose proof (fetching_insert ws i _ wk' E) as P.
    rewrite Hwk in P. simpl in P.
    rewrite <- P. generalize (flat_map fetching (<[i:=wk']> ws)).
    intros k. solve_Permutation.
  - destruct c; simpl; try done.
    destruct (running s); simpl.
    + destruct (drained _); [|done].
      eapply dedup_inv_perm; [| |exact Hinv]; done.
    + eapply dedup_inv_perm; [| |exact Hinv]; done.
  - eapply dedup_inv_perm; [| |exact Hinv]; done.
  - by destruct c.
Qed.

End Dedup.

(** C2, as the code has it.  Duplicates are caught when a task is taken
    off the queue, not when it is put on: under the lock a worker tests
    the URL against the visited set and marks it in the same step, so in
    every interleaving no page is requested twice in a session and every
    requested page is marked visited.  Putting a link on the queue only
    skips the links already marked. *)
Theorem no_page_requested_twice :
  forall (cfg : Config) (callback : bool) (events : list Event),
    let σ := run cfg events (session cfg callback) in
    NoDup (page_gets (requests (world σ)))
    /\ (forall u, u ∈ page_gets (requests (world σ)) ->
                  u ∈ visited_urls (scraper σ))
    /\ (forall u d s w,
          worker_step (Dequeued u d) s w =
            if bool_decide (u ∈ visited_urls s) then (AtLoop, s, w)
            else (Fetching u d, mark_visited u s, w))
    /\ (forall u d s w, u ∈ visited_urls (worker_step (Dequeued u d) s w).1.2)
    /\ (forall d link rest s w,
          link ∈ visited_urls s ->
          queue (worker_step (Enqueuing d (link :: rest)) s w).1.2 = queue s).
Proof.
  intros cfg callback events σ.
  assert (Hinv : dedup_inv σ).
  { apply (run_invariant_all cfg dedup_inv); [apply dedup_inv_step|].
    apply session_dedup_inv. }
  destruct Hinv as [Hn Hin]. unfold claimed in Hn, Hin.
  apply NoDup_app in Hn as (Hn & _ & _).
  split; [exact Hn|]. split.
  { intros u Hu. apply Hin, elem_of_app. by left. }
  split; [done|]. split.
  - intros u d s w. simpl.
    destruct (bool_decide (u ∈ visited_urls s)) eqn:V; simpl.
    + by apply bool_decide_eq_true in V.
    + set_solver.
  - intros d link rest s w Hl. simpl.
    by rewrite (bool_decide_eq_true_2 _ Hl).
Qed.

(** C2, counterexample to the claim as stated: the seed page of the
    example links twice to the same page, and after the worker has gone
    through its links the queue holds that URL twice. *)
Lemma queue_holds_url_twice :
  queue (scraper (run demo_cfg seed_events (session demo_cfg false)))
  = [("http://a.test/b.html", 1%Z); ("http://a.test/b.html", 1%Z)].
Proof. vm_compute. reflexivity. Qed.

(* ===================================================================== *)
(** ** The depth limit *)
(* ===================================================================== *)

Section Depth.
Context (cfg : Config).

Lemma session_depth_inv (callback : bool) :
  (0 <= max_depth cfg)%Z -> depth_inv cfg (session cfg callback).
Proof.
  intros H. split; simpl.
  - repeat constructor; simpl; lia.
  - by apply Forall_replicate.
Qed.

Lemma depth_inv_step (e : Event) (σ : Session) :
  depth_inv cfg σ -> depth_inv cfg (step cfg e σ).
Proof.
  destruct σ as [s ws c w]. unfold depth_inv. simpl. intros [Hq Hw].
  destruct e as [i|i net| | |]; simpl.
  - destruct (ws !! i) as [wk|] eqn:E; [|done].
    pose proof (Forall_lookup_1 _ _ _ _ Hw E) as Hwk.
    destruct wk as [| |url depth|url depth|depth links|ok| |]; simpl in *.
    + split; [done|]. apply Forall_insert; [done|]. by destruct (running s).
    + destruct (queue s) as [|[url depth] q] eqn:Q; simpl.
      * rewrite Q. split; [done|]. by apply Forall_insert.
      * inversion Hq; subst. split; [done|]. by apply Forall_insert.
    + destruct (bool_decide (url ∈ visited_urls s)); simpl;
        (split; [done|]); by apply Forall_insert.
    + split; [done|]. by apply Forall_insert.
    + destruct links as [|link rest]; simpl.
      * split; [done|]. by apply Forall_insert.
      * split; [|by apply Forall_insert].
        destruct (bool_decide (link ∈ visited_urls s)); simpl; [done|].
        apply Forall_app. split; [done|].
        repeat constructor; unfold depth_ok; simpl; lia.
    + split; [done|]. by apply Forall_insert.
    + split; [done|]. by apply Forall_insert.
    + split; [done|]. by apply Forall_insert.
  - destruct (ws !! i) as [wk|] eqn:E; [|done].
    pose proof (Forall_lookup_1 _ _ _ _ Hw E) as Hwk.
    destruct wk as [| |url depth|url depth|depth links|ok| |]; simpl in *;
      try (split; [done|]; by apply Forall_insert).
    destruct (fetch_page cfg net url depth w) as [r w'].
    destruct r as [| |links]; simpl;
      try (split; [done|]; by apply Forall_insert).
    split; [done|]. apply Forall_insert; [done|].
    destruct (depth <? max_depth cfg)%Z eqn:D; simpl; [|done].
    apply Z.ltb_lt in D. lia.
  - destruct c; simpl; try done.
    destruct (running s); simpl; [|done]. by destruct (drained _).
  - done.
  - by destruct c.
Qed.

End Depth.

(** C4.  With a depth limit that is not negative, no task is ever created
    with a depth above it: the seed is queued at depth 0, every task on
    the queue or in a worker's hands has a depth between 0 and the limit,
    a worker that still has links to queue stands below the limit, a link
    found at depth [d] is queued at depth [d + 1], and a page fetched at
    the limit has none of its links queued. *)
Theorem depth_never_exceeds_limit :
  forall (cfg : Config) (callback : bool) (events : list Event),
    (0 <= max_depth cfg)%Z ->
    let σ := run cfg events (session cfg callback) in
    queue (scraper (session cfg callback)) = [(base_url cfg, 0%Z)]
    /\ Forall (depth_ok cfg) (queue (scraper σ))
    /\ Forall (holds_depth_ok cfg) (workers σ)
    /\ (forall d link rest s w,
          let s' := (worker_step (Enqueuing d (link :: rest)) s w).1.2 in
          queue s' = queue s \/ queue s' = queue s ++ [(link, (d + 1)%Z)])
    /\ (forall net url d w,
          (max_depth cfg <= d)%Z ->
          exists ok, (worker_respond cfg net (Fetching url d) w).1 = Counting ok).
Proof.
  intros cfg callback events Hmax σ.
  assert (Hinv : depth_inv cfg σ).
  { apply (run_invariant_all cfg (depth_inv cfg)); [apply depth_inv_step|].
    by apply session_depth_inv. }
  destruct Hinv as [Hq Hw].
  split; [done|]. split; [exact Hq|]. split; [exact Hw|]. split.
  - intros d link rest s w. simpl.
    destruct (bool_decide (link ∈ visited_urls s)); simpl; auto.
  - intros net url d w Hd. simpl.
    destruct (fetch_page cfg net url d w) as [r w'].
    destruct r as [| |links]; simpl; eauto.
    assert (D : (d <? max_depth cfg)%Z = false) by (apply Z.ltb_ge; lia).
    rewrite D. eauto.
Qed.

(** [depth_never_exceeds_limit] on the example: after the seed page has
    been processed, the two queued tasks are at depth 1 of 2. *)
Lemma depth_never_exceeds_limit_witness :
  Forall (depth_ok demo_cfg)
    (queue (scraper (run demo_cfg seed_events (session demo_cfg false)))).
Proof.
  destruct (depth_never_exceeds_limit demo_cfg false seed_events)
    as (_ & H & _); [simpl; lia|exact H].
Defined.

(* ===================================================================== *)
(** ** Staying on the host of the seed *)
(* ===================================================================== *)

Section Host.
Context (cfg : Config).

Lemma session_host_inv (callback : bool) : host_inv cfg (session cfg callback).
Proof.
  split; simpl.
  - by repeat constructor.
  - by apply Forall_replicate.
Qed.

Lemma host_inv_step (e : Event) (σ : Session) :
  follow_external cfg = false ->
  host_inv cfg σ -> host_inv cfg (step cfg e σ).
Proof.
  intros Hext. destruct σ as [s ws c w]. unfold host_inv. simpl. intros [Hq Hw].
  destruct e as [i|i net| | |]; simpl.
  - destruct (ws !! i) as [wk|] eqn:E; [|done].
    pose proof (Forall_lookup_1 _ _ _ _ Hw E) as Hwk.
    destruct wk as [| |url depth|url depth|depth links|ok| |]; simpl in *.
    + split; [done|]. apply Forall_insert; [done|]. by destruct (running s).
    + destruct (queue s) as [|[url depth] q] eqn:Q; simpl.
      * rewrite Q. split; [done|]. by apply Forall_insert.
      * inversion Hq; subst. split; [done|]. by apply Forall_insert.
    + destruct (bool_decide (url ∈ visited_urls s)); simpl;
        (split; [done|]); by apply Forall_insert.
    + split; [done|]. by apply Forall_insert.
    + destruct links as [|link rest]; simpl.
      * split; [done|]. by apply Forall_insert.
      * inversion Hwk; subst. split; [|by apply Forall_insert].
        destruct (bool_decide (link ∈ visited_urls s)); simpl; [done|].
        apply Forall_app. split; [done|]. by repeat constructor.
    + split; [done|]. by apply Forall_insert.
    + split; [done|]. by apply Forall_insert.
    + split; [done|]. by apply Forall_insert.
  - destruct (ws !! i) as [wk|] eqn:E; [|done].
    pose proof (Forall_lookup_1 _ _ _ _ Hw E) as Hwk.
    destruct wk as [| |url depth|url depth|depth links|ok| |]; simpl in *;
      try (split; [done|]; by apply Forall_insert).
    pose proof (fetch_page_links cfg net url depth w) as Hlinks.
    destruct (fetch_page cfg net url depth w) as [r w'].
    destruct r as [| |links]; simpl;
      try (split; [done|]; by apply Forall_insert).
    split; [done|]. apply Forall_insert; [done|].
    destruct (depth <? max_depth cfg)%Z; simpl; [|done].
    specialize (Hlinks links eq_refl).
    eapply Forall_impl; [exact Hlinks|].
    intros l Hl. by apply valid_url_same_host.
  - destruct c; simpl; try done.
    destruct (running s); simpl; [|done]. by destruct (drained _).
  - done.
  - by destruct c.
Qed.

End Host.

(** C5.  In a session that does not follow external links every task,
    on the queue or in a worker's hands, has the host of the seed URL
    (the [netloc] that the classifier compares): the classifier rejects
    every URL whose host differs from the base host, so no link to
    another host is ever queued. *)
Theorem tasks_stay_on_seed_host :
  forall (cfg : Config) (callback : bool) (events : list Event),
    follow_external cfg = false ->
    let σ := run cfg events (session cfg callback) in
    Forall (fun task => same_host cfg task.1) (queue (scraper σ))
    /\ Forall (holds_same_host cfg) (workers σ)
    /\ (forall url,
          String.eqb (Urllib.netloc (Urllib.urlparse url)) (base_domain cfg) = false ->
          _is_valid_url cfg url = false).
Proof.
  intros cfg callback events Hext σ.
  assert (Hinv : host_inv cfg σ).
  { apply (run_invariant_all cfg (host_inv cfg));
      [intros e σ0; by apply host_inv_step|].
    apply session_host_inv. }
  destruct Hinv as [Hq Hw].
  split; [exact Hq|]. split; [exact Hw|].
  intros url Hne. rewrite is_valid_url_closed_form, Hext, Hne. simpl.
  by rewrite andb_false_r.
Qed.

(** [tasks_stay_on_seed_host] on the example: the link to [other.test]
    on the seed page is not among the queued tasks. *)
Lemma tasks_stay_on_seed_host_witness :
  Forall (fun task => same_host demo_cfg task.1)
    (queue (scraper (run demo_cfg seed_events (session demo_cfg false)))).
Proof.
  destruct (tasks_stay_on_seed_host demo_cfg false seed_events)
    as (H & _); [reflexivity|exact H].
Defined.

(* ===================================================================== *)
(** ** The waiting loop of [start] *)
(* ===================================================================== *)

Section Completion.
Context (cfg : Config).

Lemma session_keeps_polling (callback : bool) :
  keeps_polling (session cfg callback).
Proof.
  repeat split; simpl.
  - by apply Forall_replicate.
  - by right.
Qed.

(** While every worker is alive, or a task is queued, the test of the
    waiting loop fails. *)
Lemma keeps_polling_not_drained (σ : Session) :
  keeps_polling σ -> drained σ = false.
Proof.
  intros (_ & _ & Halive & [Hw | Hq]); unfold drained.
  - destruct (workers σ) as [|wk ws]; [done|].
    inversion Halive as [|? ? Hwk _]; subst. simpl. rewrite Hwk. simpl.
    apply andb_false_r.
  - by rewrite bool_decide_eq_false_2.
Qed.

Lemma insert_not_nil (ws : list Worker) (i : nat) (wk : Worker) :
  ws <> [] -> <[i := wk]> ws <> [].
Proof. destruct ws, i; simpl; congruence. Qed.

Lemma keeps_polling_step (e : Event) (σ : Session) :
  quiet e -> keeps_polling σ -> keeps_polling (step cfg e σ).
Proof.
  intros Hquiet Hinv. pose proof (keeps_polling_not_drained σ Hinv) as Hd.
  destruct σ as [s ws c w]. destruct Hinv as (Hrun & Hc & Halive & Hne).
  simpl in *. subst c.
  destruct e as [i|i net| | |]; simpl; try done.
  - destruct (ws !! i) as [wk|] eqn:E; [|done].
    assert (Hws : ws <> []) by (intros ->; done).
    pose proof (Forall_lookup_1 _ _ _ _ Halive E) as Hwk.
    destruct wk as [| |url depth|url depth|depth links|ok| |]; simpl in *;
      try done.
    + rewrite Hrun. repeat split; simpl; try done.
      * by apply Forall_insert.
      * left. by apply insert_not_nil.
    + destruct (queue s) as [|[url depth] q]; simpl;
        (repeat split; simpl; try done;
         [by apply Forall_insert | left; by apply insert_not_nil]).
    + destruct (bool_decide (url ∈ visited_urls s)); simpl;
        (repeat split; simpl; try done;
         [by apply Forall_insert | left; by apply insert_not_nil]).
    + repeat split; simpl; try done;
        [by apply Forall_insert | left; by apply insert_not_nil].
    + destruct links as [|link rest]; simpl.
      * repeat split; simpl; try done;
          [by apply Forall_insert | left; by apply insert_not_nil].
      * repeat split; simpl; try done.
        -- by destruct (bool_decide (link ∈ visited_urls s)).
        -- by apply Forall_insert.
        -- left. by apply insert_not_nil.
    + repeat split; simpl; try done;
        [by apply Forall_insert | left; by apply insert_not_nil].
    + repeat split; simpl; try done;
        [by apply Forall_insert | left; by apply insert_not_nil].
  - destruct (ws !! i) as [wk|] eqn:E; [|done].
    assert (Hws : ws <> []) by (intros ->; done).
    destruct (worker_respond cfg net wk w) as [wk' w'] eqn:R.
    assert (Hwk' : is_alive wk' = true).
    { pose proof (Forall_lookup_1 _ _ _ _ Halive E) as Hwk.
      destruct wk; simpl in R; try (injection R as <- <-; done).
      destruct (fetch_page cfg net url depth w) as [r w0].
      destruct r; injection R as <- <-; try done.
      by destruct (depth <? max_depth cfg)%Z. }
    repeat split; simpl; try done;
      [by apply Forall_insert | left; by apply insert_not_nil].
  - rewrite Hrun, Hd. by repeat split.
Qed.

End Completion.

(** C1, what the code does.  As long as nobody calls [stop()] and no
    interrupt arrives, [start] never leaves its waiting loop: a worker
    only ends when [running] is false, so the test "queue empty and no
    worker alive" fails at every turn, also once the queue has drained and
    no task is in flight. *)
Theorem start_keeps_polling :
  forall (cfg : Config) (callback : bool) (events : list Event),
    Forall quiet events ->
    let σ := run cfg events (session cfg callback) in
    caller σ = Polling
    /\ running (scraper σ) = true
    /\ drained σ = false
    /\ Forall (fun wk => is_alive wk = true) (workers σ).
Proof.
  intros cfg callback events Hq σ.
  assert (Hinv : keeps_polling σ).
  { apply (run_invariant cfg keeps_polling quiet); [|done|].
    - intros e σ0. apply keeps_polling_step.
    - apply session_keeps_polling. }
  pose proof (keeps_polling_not_drained σ Hinv) as Hd.
  destruct Hinv as (Hrun & Hc & Halive & _). by repeat split.
Qed.

(** [start_keeps_polling] where the session is expected to end: the
    seed has been downloaded and counted, the queue is empty, the only
    worker is back at the head of its loop with nothing in flight, and
    after three more turns [start] is still polling. *)
Lemma start_keeps_polling_witness :
  queue (scraper (run demo_cfg lonely_events (session demo_cfg false))) = []
  /\ workers (run demo_cfg lonely_events (session demo_cfg false)) = [AtLoop]
  /\ downloaded_pages (scraper (run demo_cfg lonely_events (session demo_cfg false))) = 1
  /\ caller (run demo_cfg lonely_events (session demo_cfg false)) = Polling.
Proof.
  destruct (start_keeps_polling demo_cfg false lonely_events) as (H & _).
  - unfold lonely_events. repeat constructor.
  - split; [by vm_compute|]. split; [by vm_compute|]. split; [by vm_compute|].
    exact H.
Defined.

(* ===================================================================== *)
(** ** What [start] resets *)
(* ===================================================================== *)

(** C8, as the code has it.  The constructor creates the visited set,
    the queue with the seed on it at depth 0 and the three counters at
    zero.  [start] empties the visited set, sets the flag and the
    callback and creates the workers, each at the head of its loop; it
    leaves the queue and the counters as they are.  A scraper that is
    constructed and then started therefore has, when its workers start,
    an empty visited set, the seed alone on the queue at depth 0 and all
    counters at zero. *)
Theorem start_resets_visited_only :
  forall (cfg : Config) (callback : bool) (σ : Session),
    (visited_urls (__init__ cfg) = ∅
     /\ queue (__init__ cfg) = [(base_url cfg, 0%Z)]
     /\ stats (__init__ cfg) = mkStats 0 0 0)
    /\ (visited_urls (scraper (start cfg callback σ)) = ∅
        /\ running (scraper (start cfg callback σ)) = true
        /\ progress_callback (scraper (start cfg callback σ)) = callback
        /\ queue (scraper (start cfg callback σ)) = queue (scraper σ)
        /\ stats (scraper (start cfg callback σ)) = stats (scraper σ)
        /\ world (start cfg callback σ) = world σ
        /\ workers (start cfg callback σ) = replicate (num_threads cfg) AtLoop
        /\ caller (start cfg callback σ) = Polling)
    /\ (visited_urls (scraper (session cfg callback)) = ∅
        /\ queue (scraper (session cfg callback)) = [(base_url cfg, 0%Z)]
        /\ stats (scraper (session cfg callback)) = mkStats 0 0 0
        /\ load (workers (session cfg callback)) = 0).
Proof.
  intros cfg callback σ. repeat split.
  unfold load. simpl.
  induction (num_threads cfg) as [|n IH]; simpl; [done|exact IH].
Qed.

(** C8, counterexample to the claim as stated: [start] called again on a
    scraper whose first crawl was stopped.  The first [start] has
    returned and its worker has ended; the second [start] puts no seed on
    the queue and keeps the counters of the first crawl. *)
Lemma second_start_keeps_queue_and_counters :
  caller stopped_session = Returned
  /\ workers stopped_session = [Exited]
  /\ visited_urls (scraper second_start) = ∅
  /\ queue (scraper second_start) = []
  /\ stats (scraper second_start) = mkStats 1 1 0.
Proof. repeat split; by vm_compute. Qed.

(* ===================================================================== *)
(** ** The example site, computed *)
(* ===================================================================== *)

(** The path mapper: a directory index, a port, a file. *)
Example local_path_examples :
  local_path demo_cfg "http://a.test/" = "out/a.test/index.html"
  /\ local_path demo_cfg "http://a.test:8080/docs" = "out/a.test_8080/docs/index.html"
  /\ local_path demo_cfg "http://a.test/logo.png" = "out/a.test/logo.png".
Proof. repeat split; reflexivity. Qed.

(** The links of the seed page: the link to another host is dropped, the
    two links to [b.html] both stay, the fragment-only link is the page
    itself. *)
Example seed_page_links :
  extract_links demo_cfg demo_page "http://a.test/"
  = ["http://a.test/b.html"; "http://a.test/b.html"; "http://a.test/";
     "http://a.test/paper.PDF"].
Proof. vm_compute. reflexivity. Qed.

(** Processing the seed page: one page request, the logo and the PDF are
    fetched to their local paths, and in the saved page the image points
    at the local copy while the anchors are as they were. *)
Example seed_page_processed :
  let w := world (run demo_cfg seed_events (session demo_cfg false)) in
  requests w
  = [PageGet "http://a.test/";
     ResourceGet "http://a.test/logo.png" "out/a.test/logo.png";
     ResourceGet "http://a.test/paper.PDF" "out/a.test/paper.PDF"]
  /\ files w !! "out/a.test/logo.png" = Some (Raw "PNG")
  /\ files w !! "out/a.test/paper.PDF" = Some (Raw "%PDF")
  /\ files w !! "out/a.test/index.html"
     = Some (Markup [anchor "/b.html"; anchor "b.html#intro"; anchor "#top";
                     anchor "http://other.test/c.html"; anchor "paper.PDF";
                     image "logo.png"]).
Proof. repeat split; by vm_compute. Qed.

(* ===================================================================== *)
(** ** More on the local path mapper *)
(* ===================================================================== *)

Section PathShape.
Import PyStr.

Lemma rpartition_app (c : ascii) (u v : string) :
  rpartition c (u +:+ v) =
    match rpartition c v with
    | Some (b, t) => Some (u +:+ b, t)
    | None =>
        match rpartition c u with
        | Some (b, t) => Some (b, t +:+ v)
        | None => None
        end
    end.
Proof.
  induction u as [|a u IH].
  - rewrite append_nil_l. destruct (rpartition c v) as [[b t]|]; by rewrite ?append_nil_l.
  - rewrite append_cons. simpl. rewrite IH.
    destruct (rpartition c v) as [[b t]|]; [by rewrite append_cons|].
    destruct (rpartition c u) as [[b t]|]; [done|].
    by destruct (Ascii.eqb a c).
Qed.

Lemma rpartition_absent (c : ascii) (u : string) :
  contains c u = false -> rpartition c u = None.
Proof.
  induction u as [|a u IH]; simpl; [done|].
  intros H. apply orb_false_iff in H as [H1 H2]. by rewrite (IH H2), H1.
Qed.

Lemma rpartition_present (c : ascii) (u : string) :
  contains c u = true -> exists b t, rpartition c u = Some (b, t).
Proof.
  induction u as [|a u IH]; simpl; [done|].
  intros H. destruct (rpartition c u) as [[b t]|] eqn:E; [eauto|].
  destruct (Ascii.eqb a c) eqn:A; [eauto|]. simpl in H.
  destruct (IH H) as (b & t & ?). done.
Qed.

(** The last component of a path that is put together from two parts. *)
Lemma basename_app (u v : string) :
  PosixPath.basename (u +:+ v) =
    if contains "/" v then PosixPath.basename v
    else PosixPath.basename u +:+ v.
Proof.
  unfold PosixPath.basename. rewrite rpartition_app.
  destruct (contains "/" v) eqn:C.
  - destruct (rpartition_present "/" v C) as (b & t & ->). done.
  - rewrite (rpartition_absent "/" v C).
    by destruct (rpartition "/" u) as [[b t]|].
Qed.

Lemma basename_after_slash (a : string) :
  endswith a "/" = true -> PosixPath.basename a = "".
Proof.
  intros H. destruct (endswith_inv a "/" H) as [p ->].
  rewrite basename_app. simpl. unfold PosixPath.basename. by simpl.
Qed.

Lemma basename_join2 (a b : string) :
  PosixPath.basename (PosixPath.join2 a b) = PosixPath.basename b.
Proof.
  unfold PosixPath.join2.
  destruct (startswith b "/"); [done|].
  destruct (negb (truthy a) || endswith a "/") eqn:E.
  - rewrite basename_app. destruct (contains "/" b) eqn:C; [done|].
    unfold PosixPath.basename at 2. rewrite (rpartition_absent "/" b C).
    apply orb_true_iff in E as [E|E].
    + apply negb_true_iff, truthy_false in E. by subst a.
    + by rewrite (basename_after_slash a E).
  - rewrite basename_app.
    replace (contains "/" ("/" +:+ b)) with true by done.
    unfold PosixPath.basename. change ("/" +:+ b) with (String "/" b). simpl.
    by destruct (rpartition "/" b) as [[x t]|].
Qed.

Lemma contains_replace_other (a b : ascii) (s : string) :
  a <> b -> contains a (replace a b s) = false.
Proof.
  intros Hab. induction s as [|x s IH]; simpl; [done|].
  rewrite IH, orb_false_r.
  destruct (Ascii.eqb x a) eqn:E.
  - apply Ascii.eqb_neq. congruence.
  - exact E.
Qed.

Lemma local_path_join (cfg : Config) (url : string) :
  local_path cfg url = PosixPath.join2 (output_dir cfg) (relative_path url).
Proof. reflexivity. Qed.

Lemma relative_path_colon_free (url : string) :
  contains ":" (relative_path url) = false.
Proof.
  unfold relative_path.
  set (p := replace ":" "_" _).
  assert (Hp : contains ":" p = false) by (by apply contains_replace_other).
  destruct (endswith p "/"); [by rewrite contains_app, Hp|].
  destruct (negb _); [by rewrite contains_app, Hp|done].
Qed.

Lemma relative_path_file_name (url : string) :
  contains "." (PosixPath.basename (relative_path url)) = true.
Proof.
  unfold relative_path.
  set (p := replace ":" "_" _).
  destruct (endswith p "/") eqn:E.
  - rewrite basename_app. simpl. rewrite contains_app. simpl. apply orb_true_r.
  - destruct (contains "." (PosixPath.basename p)) eqn:C; simpl; [done|].
    by rewrite basename_app.
Qed.

End PathShape.

(** X1.  Whatever the URL, the path that [_get_local_path] puts below the
    output directory holds no colon, and the last component of the local
    path holds a dot: a URL that ends in a slash or whose last segment has
    no extension is mapped to an [index.html]. *)
Theorem local_path_names_a_file :
  forall (cfg : Config) (url : string),
    local_path cfg url = PosixPath.join2 (output_dir cfg) (relative_path url)
    /\ PyStr.contains ":" (relative_path url) = false
    /\ PyStr.contains "." (PosixPath.basename (local_path cfg url)) = true
    /\ PyStr.endswith (local_path cfg url) "/" = false.
Proof.
  intros cfg url. split; [done|]. split; [apply relative_path_colon_free|].
  assert (H : PyStr.contains "." (PosixPath.basename (local_path cfg url)) = true).
  { rewrite local_path_join, basename_join2. apply relative_path_file_name. }
  split; [exact H|].
  destruct (PyStr.endswith (local_path cfg url) "/") eqn:E; [|done].
  by rewrite (basename_after_slash _ E) in H.
Qed.

Section PathPlacement.
Import PyStr.

Lemma splitnetloc_host_clean (s : string) :
  contains "/" (Urllib.splitnetloc s).1 = false.
Proof.
  induction s as [|a s IH]; simpl; [done|].
  destruct (Ascii.eqb a "/") eqn:E; simpl; [done|].
  destruct (Ascii.eqb a "?" || Ascii.eqb a "#"); simpl; [done|].
  destruct (Urllib.splitnetloc s) as [d r]. simpl in *. by rewrite E, IH.
Qed.

Lemma take_netloc_host_clean (s : string) :
  contains "/" (Urllib.take_netloc s).1 = false.
Proof.
  unfold Urllib.take_netloc. destruct s as [|a [|b s]]; [done|done|].
  destruct (Ascii.eqb a "/" && Ascii.eqb b "/"); [|done].
  apply splitnetloc_host_clean.
Qed.

(** The host that [urlparse] finds holds no slash. *)
Lemma urlparse_netloc_clean (url : string) :
  contains "/" (Urllib.netloc (Urllib.urlparse url)) = false.
Proof.
  unfold Urllib.urlparse, Urllib.urlparse_with, Urllib.urlsplit, Urllib.split_parts.
  destruct (Urllib.take_scheme _ _) as [sch u1].
  pose proof (take_netloc_host_clean u1) as H.
  destruct (Urllib.take_netloc u1) as [nl u2].
  destruct (Urllib.cut "#" u2) as [u3 frag].
  destruct (Urllib.cut "?" u3) as [u4 q]. simpl in H.
  destruct (_ && _); [by destruct (Urllib.splitparams u4)|done].
Qed.

Lemma startswith_self_app (a b : string) : startswith (a +:+ b) a = true.
Proof.
  unfold startswith. induction a as [|x a IH]; [by destruct b|].
  rewrite append_cons.
  change (String.prefix (String x a) (String x (a +:+ b)))
    with (if ascii_dec x x then String.prefix a (a +:+ b) else false).
  by destruct (ascii_dec x x).
Qed.

Lemma startswith_slash_cons (a : ascii) (s : string) :
  startswith (String a s) "/" = Ascii.eqb a "/".
Proof.
  unfold startswith.
  change (String.prefix "/" (String a s))
    with (if ascii_dec "/" a then String.prefix "" s else false).
  destruct (ascii_dec "/" a) as [<-|N].
  - by destruct s.
  - symmetry. apply Ascii.eqb_neq. congruence.
Qed.

Lemma startswith_slash_app (s t : string) :
  s <> "" -> startswith (s +:+ t) "/" = startswith s "/".
Proof.
  intros H. destruct s as [|a s]; [done|].
  by rewrite append_cons, !startswith_slash_cons.
Qed.

Lemma replace_app (a b : ascii) (u v : string) :
  replace a b (u +:+ v) = replace a b u +:+ replace a b v.
Proof. induction u as [|x u IH]; [done|]. rewrite !append_cons. simpl. by rewrite IH. Qed.

(** The relative path starts like the host and path it is made of. *)
Lemma relative_path_start (url : string) :
  let p := replace ":" "_"
             (Urllib.netloc (Urllib.urlparse url) +:+ Urllib.path (Urllib.urlparse url)) in
  p <> "" -> startswith (relative_path url) "/" = startswith p "/".
Proof.
  intros p Hp. unfold relative_path. fold p.
  destruct (endswith p "/"); [by apply startswith_slash_app|].
  destruct (negb _); [by apply startswith_slash_app|done].
Qed.

End PathPlacement.

(** X2.  A URL with a host is mapped below the output directory: the
    relative path does not start with a slash, so [os.path.join] keeps the
    output directory in front of it. *)
Theorem local_path_below_output_dir :
  forall (cfg : Config) (url : string),
    Urllib.netloc (Urllib.urlparse url) <> "" ->
    PyStr.startswith (relative_path url) "/" = false
    /\ PyStr.startswith (local_path cfg url) (output_dir cfg) = true.
Proof.
  intros cfg url Hn.
  pose proof (urlparse_netloc_clean url) as Hc.
  assert (Hrel : PyStr.startswith (relative_path url) "/" = false).
  { destruct (Urllib.netloc (Urllib.urlparse url)) as [|a n] eqn:E; [done|].
    simpl in Hc. apply orb_false_iff in Hc as [Hc _].
    rewrite relative_path_start; rewrite E, replace_app;
      cbn [PyStr.replace]; rewrite append_cons; [|done].
    rewrite startswith_slash_cons.
    destruct (Ascii.eqb a ":"); [done|exact Hc]. }
  split; [exact Hrel|].
  rewrite local_path_join. unfold PosixPath.join2. rewrite Hrel.
  destruct (_ || _); apply startswith_self_app.
Qed.

(** [local_path_below_output_dir] on the logo of the example. *)
Lemma local_path_below_output_dir_witness :
  PyStr.startswith (local_path demo_cfg "http://a.test/logo.png") "out" = true.
Proof.
  destruct (local_path_below_output_dir demo_cfg "http://a.test/logo.png")
    as [_ H]; [by vm_compute | exact H].
Defined.

(** X3.  A URL without a host whose path is absolute is mapped outside
    the output directory: the relative path starts with a slash, and
    [os.path.join] then drops the output directory, whatever it is. *)
Theorem local_path_without_host_ignores_output_dir :
  forall (cfg cfg' : Config) (url : string),
    Urllib.netloc (Urllib.urlparse url) = "" ->
    PyStr.startswith (Urllib.path (Urllib.urlparse url)) "/" = true ->
    local_path cfg url = relative_path url
    /\ local_path cfg url = local_path cfg' url
    /\ PyStr.startswith (local_path cfg url) "/" = true.
Proof.
  intros cfg cfg' url Hn Hp.
  assert (Hrel : PyStr.startswith (relative_path url) "/" = true).
  { destruct (Urllib.path (Urllib.urlparse url)) as [|a p] eqn:E; [done|].
    rewrite startswith_slash_cons in Hp. apply Ascii.eqb_eq in Hp. subst a.
    rewrite relative_path_start; rewrite Hn, E, append_nil_l;
      cbn [PyStr.replace]; [|done].
    by rewrite startswith_slash_cons. }
  assert (Hl : forall c, local_path c url = relative_path url).
  { intros c. rewrite local_path_join. unfold PosixPath.join2. by rewrite Hrel. }
  rewrite !Hl. by repeat split.
Qed.

(** [local_path_without_host_ignores_output_dir] on an image reference
    with an empty host. *)
Lemma local_path_without_host_witness :
  local_path demo_cfg "http:///srv/www/x.png" = "/srv/www/x.png".
Proof.
  destruct (local_path_without_host_ignores_output_dir demo_cfg demo_cfg
              "http:///srv/www/x.png") as (H & _); [done | done |].
  rewrite H. reflexivity.
Defined.

(* ===================================================================== *)
(** ** More on the normaliser, the links and the rewriting of a page *)
(* ===================================================================== *)

Section Rewriting.
Import PyStr.


Lemma is_http_nonempty (s : string) : is_http s = true -> s <> "".
Proof. by destruct s. Qed.

(** X5.  On an href that is absolute once its fragment is cut off,
    [_normalize_url] does not look at the parent URL, and normalising its
    result again changes nothing. *)
Theorem normalize_url_absolute_idempotent :
  forall (href parent parent' : string),
    is_http (partition "#" href).1 = true ->
    _normalize_url href parent = Some (partition "#" href).1
    /\ _normalize_url (partition "#" href).1 parent' = Some (partition "#" href).1
    /\ usable (_normalize_url href parent) = true.
Proof.
  intros href parent parent' H.
  set (r := (partition "#" href).1) in *.
  assert (Hr : r <> "") by (by apply is_http_nonempty).
  assert (Hh : href <> "").
  { intros ->. by apply Hr. }
  assert (E1 : _normalize_url href parent = Some r).
  { unfold _normalize_url. apply truthy_true in Hh. rewrite Hh. simpl.
    fold r. by rewrite H. }
  assert (E2 : _normalize_url r parent' = Some r).
  { unfold _normalize_url. pose proof Hr as Hr'. apply truthy_true in Hr'.
    rewrite Hr'. simpl.
    rewrite (partition_absent "#" r (partition_fst_clean "#" href)). simpl.
    by rewrite H. }
  split; [exact E1|]. split; [exact E2|].
  rewrite E1. simpl. by apply truthy_true.
Qed.

(** [normalize_url_absolute_idempotent] on an absolute link with a
    fragment. *)
Lemma normalize_url_absolute_idempotent_witness :
  _normalize_url "https://a.test/x.html#s2" "http://a.test/" = Some "https://a.test/x.html"
  /\ _normalize_url "https://a.test/x.html" "" = Some "https://a.test/x.html".
Proof.
  destruct (normalize_url_absolute_idempotent "https://a.test/x.html#s2"
              "http://a.test/" "") as (H1 & H2 & _); [reflexivity|].
  split; [exact H1 | exact H2].
Defined.

Lemma extract_links_app (cfg : Config) (s1 s2 : Document) (url : string) :
  extract_links cfg (s1 ++ s2) url
  = extract_links cfg s1 url ++ extract_links cfg s2 url.
Proof. unfold extract_links. by rewrite List.filter_app, flat_map_app. Qed.

Lemma filter_is_anchor_idem (soup : Document) :
  List.filter is_anchor (List.filter is_anchor soup) = List.filter is_anchor soup.
Proof.
  induction soup as [|t soup IH]; [done|]. simpl.
  destruct (is_anchor t) eqn:E; [|done]. simpl. by rewrite E, IH.
Qed.

(** X6.  The links [_process_html] returns come from the anchors alone,
    in document order, at most one per anchor; each is an http(s) URL
    that the classifier accepts, so none ends in [.exe] or [.bin]. *)
Theorem extract_links_shape :
  forall (cfg : Config) (soup more : Document) (url : string),
    extract_links cfg (List.filter is_anchor soup) url = extract_links cfg soup url
    /\ extract_links cfg (soup ++ more) url
       = extract_links cfg soup url ++ extract_links cfg more url
    /\ length (extract_links cfg soup url) <= length (List.filter is_anchor soup)
    /\ Forall (fun l => is_http l = true
                        /\ _is_valid_url cfg l = true
                        /\ endswith l ".exe" = false
                        /\ endswith l ".bin" = false)
         (extract_links cfg soup url).
Proof.
  intros cfg soup more url.
  split; [unfold extract_links; by rewrite filter_is_anchor_idem|].
  split; [apply extract_links_app|]. split.
  - unfold extract_links. induction (List.filter is_anchor soup) as [|a l IH]; [done|].
    simpl. rewrite length_app.
    destruct (attrs a !! "href") as [href|]; simpl; [|lia].
    destruct (_normalize_url href url) as [n|]; simpl; [|lia].
    destruct (truthy n && _is_valid_url cfg n); simpl; lia.
  - eapply Forall_impl; [apply extract_links_valid|].
    intros l Hl. simpl in Hl. pose proof Hl as Hv.
    rewrite is_valid_url_closed_form in Hl.
    apply andb_true_iff in Hl as [Hl Hbin].
    apply andb_true_iff in Hl as [Hl Hexe].
    apply andb_true_iff in Hl as [Hl _].
    apply negb_true_iff in Hbin, Hexe. done.
Qed.

Lemma download_resource_ok (net : Net) (url dest : string) (w : World) :
  (_download_resource net url dest w).1 = fetch_ok net url.
Proof.
  unfold _download_resource, fetch_ok, bind, act, ret. simpl.
  destruct (net url) as [|status ct body sp]; [done|].
  by destruct (status =? 200)%Z.
Qed.

Lemma localize_tag (cfg : Config) (net : Net) (url attr : string) (t : Tag)
    (w : World) :
  (localize cfg net url attr t w).1 = localized cfg net url attr t.
Proof.
  unfold localize, localized.
  destruct (attrs t !! attr) as [ref|]; [|done].
  destruct (_normalize_url ref url) as [res_url|]; [|done].
  destruct (truthy res_url); [|done]. simpl.
  rewrite !bind_run. rewrite download_resource_ok.
  destruct (fetch_ok net res_url); [|done].
  rewrite bind_run. reflexivity.
Qed.

Lemma localize_all_tags (cfg : Config) (enabled : bool) (sel : Tag -> bool)
    (net : Net) (url attr : string) (soup : Document) (w : World) :
  (localize_all cfg enabled sel net url attr soup w).1
  = map (fun t => if enabled && sel t then localized cfg net url attr t else t) soup.
Proof.
  unfold localize_all. destruct enabled; simpl.
  - revert w. induction soup as [|t soup IH]; intros w; [done|].
    simpl. rewrite !bind_run. simpl. rewrite IH. f_equal.
    destruct (sel t); [apply localize_tag|done].
  - by rewrite map_id.
Qed.

Lemma process_html_value (cfg : Config) (net : Net) (soup : Document)
    (url : string) (depth : Z) (w : World) :
  (_process_html cfg net soup url depth w).1
  = (extract_links cfg soup url, map (rewrite_tag cfg net url) soup).
Proof.
  unfold _process_html. rewrite !bind_run. simpl. f_equal.
  rewrite !localize_all_tags, !map_map. reflexivity.
Qed.


Lemma download_resource_failed (net : Net) (url dest : string) (w : World) :
  fetch_ok net url = false ->
  files (_download_resource net url dest w).2 = files w.
Proof.
  unfold _download_resource, fetch_ok, bind, act, ret. simpl.
  destruct (net url) as [|status ct body sp]; [done|].
  by intros ->.
Qed.

Lemma for_each_files {A} (l : list A) (body : A -> M unit) (w : World) :
  (forall x w, files (body x w).2 = files w) ->
  files (for_each l body w).2 = files w.
Proof.
  intros Hb. revert w. induction l as [|x l IH]; intros w; simpl; [done|].
  rewrite bind_run. by rewrite IH, Hb.
Qed.

Lemma for_tags_files (soup : Document) (body : Tag -> M Tag) (w : World) :
  (forall t w, files (body t w).2 = files w) ->
  files (for_tags soup body w).2 = files w.
Proof.
  intros Hb. revert w. induction soup as [|t soup IH]; intros w; simpl; [done|].
  rewrite !bind_run. simpl. by rewrite IH, Hb.
Qed.

Lemma localize_failed (cfg : Config) (net : Net) (url attr : string) (t : Tag)
    (w : World) :
  (forall u, fetch_ok net u = false) ->
  files (localize cfg net url attr t w).2 = files w.
Proof.
  intros Hdead. unfold localize.
  destruct (attrs t !! attr) as [ref|]; [|done].
  destruct (_normalize_url ref url) as [res_url|]; [|done].
  destruct (truthy res_url); [|done].
  rewrite !bind_run. rewrite download_resource_ok, Hdead.
  unfold ret. simpl. by rewrite download_resource_failed.
Qed.

Lemma download_file_failed (cfg : Config) (net : Net) (url : string) (a : Tag)
    (w : World) :
  (forall u, fetch_ok net u = false) ->
  files (download_file cfg net url a w).2 = files w.
Proof.
  intros Hdead. unfold download_file.
  destruct (attrs a !! "href") as [href|]; [|done].
  destruct (_normalize_url href url) as [file_url|]; [|done].
  destruct (truthy file_url && _should_download_file cfg file_url); [|done].
  rewrite !bind_run. simpl. by rewrite download_resource_failed.
Qed.



End Rewriting.

(* ===================================================================== *)
(** ** The session: progress figures, [stop()] and the end of the workers *)
(* ===================================================================== *)

Section Lag.
Context (cfg : Config).

Lemma step_workers_length (e : Event) (σ : Session) :
  length (workers (step cfg e σ)) = length (workers σ).
Proof.
  destruct σ as [s ws c w]. destruct e as [i|i net| | |]; simpl.
  - destruct (ws !! i) as [wk|]; [|done].
    destruct (worker_step wk s w) as [[wk' s'] w']. simpl. apply length_insert.
  - destruct (ws !! i) as [wk|]; [|done].
    destruct (worker_respond cfg net wk w) as [wk' w']. simpl. apply length_insert.
  - destruct c; try done. destruct (running s); [|done]. by destruct (drained _).
  - done.
  - by destruct c.
Qed.

Lemma run_workers_length (events : list Event) (σ : Session) :
  length (workers (run cfg events σ)) = length (workers σ).
Proof.
  revert σ. induction events as [|e events IH]; intros σ; [done|].
  by rewrite run_cons, IH, step_workers_length.
Qed.

Lemma load_le_length (ws : list Worker) : load ws <= length ws.
Proof.
  unfold load. induction ws as [|wk ws IH]; simpl; [lia|].
  destruct wk; simpl; lia.
Qed.

End Lag.


Section Reports.
Context (cfg : Config).

Lemma stats_le_refl (r : Stats) : stats_le r r.
Proof. unfold stats_le. lia. Qed.

Lemma stats_le_trans (r1 r2 r3 : Stats) :
  stats_le r1 r2 -> stats_le r2 r3 -> stats_le r1 r3.
Proof. unfold stats_le. lia. Qed.

Lemma step_stats_le (e : Event) (σ : Session) :
  stats_le (stats (scraper σ)) (stats (scraper (step cfg e σ))).
Proof. apply step_monotone. Qed.

(** A step either leaves the reports alone, and then counts nothing while
    a callback is set, or counts one page and reports the new counters. *)
Lemma step_reports (e : Event) (σ : Session) :
  progress_callback (scraper (step cfg e σ)) = progress_callback (scraper σ)
  /\ ((reports (world (step cfg e σ)) = reports (world σ)
       /\ (progress_callback (scraper σ) = true ->
           downloaded_pages (scraper (step cfg e σ)) + failed_pages (scraper (step cfg e σ))
           = downloaded_pages (scraper σ) + failed_pages (scraper σ)))
      \/ (reports (world (step cfg e σ))
            = reports (world σ) ++ [stats (scraper (step cfg e σ))]
          /\ downloaded_pages (scraper (step cfg e σ)) + failed_pages (scraper (step cfg e σ))
             = S (downloaded_pages (scraper σ) + failed_pages (scraper σ))
          /\ progress_callback (scraper σ) = true)).
Proof.
  destruct σ as [s ws c w]. destruct e as [i|i net| | |]; simpl.
  - destruct (ws !! i) as [wk|] eqn:E; [|by (split; [|left])].
    destruct wk as [| |url depth|url depth|depth links|ok| |]; simpl;
      try by (split; [|left]).
    + destruct (queue s) as [|[url depth] q]; simpl; by (split; [|left]).
    + destruct (bool_decide (url ∈ visited_urls s)); simpl; by (split; [|left]).
    + destruct links as [|link rest]; simpl; [by (split; [|left])|].
      destruct (bool_decide (link ∈ visited_urls s)); simpl; by (split; [|left]).
    + split; [done|].
      destruct (progress_callback s) eqn:P; simpl.
      * right. split; [done|]. split; [|done]. destruct ok; lia.
      * left. by split.
  - destruct (ws !! i) as [wk|] eqn:E; [|by (split; [|left])].
    destruct wk as [| |url depth|url depth|depth links|ok| |]; simpl;
      try by (split; [|left]).
    destruct (fetch_page_world cfg net url depth w) as [_ Hr].
    destruct (fetch_page cfg net url depth w) as [r w']. simpl in Hr.
    destruct r; simpl; by (split; [|left]).
  - destruct c; simpl; try by (split; [|left]).
    destruct (running s); simpl; [|by (split; [|left])].
    destruct (drained _); simpl; by (split; [|left]).
  - by (split; [|left]).
  - destruct c; simpl; by (split; [|left]).
Qed.

Lemma session_reports_inv (callback : bool) :
  reports_inv callback (session cfg callback).
Proof.
  unfold reports_inv. simpl. split; [done|]. split; [by destruct callback|].
  split; intros; done.
Qed.

Lemma reports_inv_step (callback : bool) (e : Event) (σ : Session) :
  reports_inv callback σ -> reports_inv callback (step cfg e σ).
Proof.
  intros (Hcb & Hlen & Hk & Hmono).
  destruct (step_reports e σ) as [Hcb' Hcase].
  pose proof (step_stats_le e σ) as Hle.
  unfold reports_inv. rewrite Hcb'. split; [exact Hcb|].
  destruct Hcase as [[Hrep Hcount]|(Hrep & Hcount & Hset)]; rewrite Hrep.
  - split; [|split].
    + rewrite Hlen. destruct callback; [|done]. rewrite Hcount; [done|].
      by rewrite Hcb.
    + intros k r Hr. destruct (Hk k r Hr) as [H1 H2]. split; [done|].
      by eapply stats_le_trans.
    + exact Hmono.
  - rewrite Hcb in Hset. subst callback. rewrite Hset in Hlen |- *.
    split; [|split].
    + rewrite length_app, Hcount, Hlen. simpl. lia.
    + intros k r Hr. apply lookup_app_Some in Hr as [Hr|[Hge Hr]].
      * destruct (Hk k r Hr) as [H1 H2]. split; [done|].
        by eapply stats_le_trans.
      * apply list_lookup_singleton_Some in Hr as [Hz <-].
        split; [|apply stats_le_refl]. simpl. lia.
    + intros j k rj rk Hjk Hj Hr.
      apply lookup_app_Some in Hr as [Hr|[Hge Hr]].
      * apply lookup_app_Some in Hj as [Hj|[Hgj Hj]].
        -- by eapply Hmono.
        -- apply lookup_lt_Some in Hr. lia.
      * apply list_lookup_singleton_Some in Hr as [Hz <-].
        apply lookup_app_Some in Hj as [Hj|[Hgj Hj]].
        -- destruct (Hk j rj Hj) as [_ H2]. by eapply stats_le_trans.
        -- apply list_lookup_singleton_Some in Hj as [_ <-]. apply stats_le_refl.
Qed.

End Reports.

(** X10.  The progress callback is called once for every page counted
    as downloaded or failed and at no other moment: the [k]-th snapshot
    it receives counts exactly [k] finished pages, no snapshot is ahead of
    a later one or of the counters, and without a callback nothing is
    reported. *)
Theorem callback_called_once_per_page :
  forall (cfg : Config) (callback : bool) (events : list Event),
    let σ := run cfg events (session cfg callback) in
    length (reports (world σ))
      = (if callback
         then downloaded_pages (scraper σ) + failed_pages (scraper σ) else 0)
    /\ (forall k r, reports (world σ) !! k = Some r ->
          st_downloaded r + st_failed r = S k
          /\ stats_le r (stats (scraper σ)))
    /\ (forall j k rj rk, j <= k ->
          reports (world σ) !! j = Some rj -> reports (world σ) !! k = Some rk ->
          stats_le rj rk).
Proof.
  intros cfg callback events σ.
  assert (Hinv : reports_inv callback σ).
  { apply (run_invariant_all cfg (reports_inv callback));
      [intros e σ0; apply reports_inv_step|].
    apply session_reports_inv. }
  destruct Hinv as (_ & Hlen & Hk & Hmono). done.
Qed.

Section Stopping.
Context (cfg : Config).

Lemma worker_step_running (wk : Worker) (s : Scraper) (w : World) :
  running (worker_step wk s w).1.2 = running s.
Proof.
  destruct wk as [| |url depth|url depth|depth links|ok| |]; simpl; try done.
  - by destruct (queue s) as [|[url depth] q].
  - by destruct (bool_decide (url ∈ visited_urls s)).
  - destruct links as [|link rest]; simpl; [done|].
    by destruct (bool_decide (link ∈ visited_urls s)).
Qed.

(** Only [start] sets the flag: once it is false it stays false. *)
Lemma step_stays_stopped (e : Event) (σ : Session) :
  running (scraper σ) = false -> running (scraper (step cfg e σ)) = false.
Proof.
  destruct σ as [s ws c w]. simpl. intros Hrun.
  destruct e as [i|i net| | |]; simpl.
  - destruct (ws !! i) as [wk|]; [|done].
    pose proof (worker_step_running wk s w) as H.
    destruct (worker_step wk s w) as [[wk' s'] w']. simpl in *. by rewrite H.
  - destruct (ws !! i) as [wk|]; [|done].
    by destruct (worker_respond cfg net wk w) as [wk' w'].
  - destruct c; try done. by rewrite Hrun.
  - done.
  - by destruct c.
Qed.

Lemma run_stays_stopped (events : list Event) (σ : Session) :
  running (scraper σ) = false -> running (scraper (run cfg events σ)) = false.
Proof.
  revert σ. induction events as [|e events IH]; intros σ H; [done|].
  rewrite run_cons. apply IH. by apply step_stays_stopped.
Qed.

(** [start] has returned: nothing brings it back. *)
Lemma step_stays_returned (e : Event) (σ : Session) :
  caller σ = Returned -> caller (step cfg e σ) = Returned.
Proof.
  destruct σ as [s ws c w]. simpl. intros ->.
  destruct e as [i|i net| | |]; simpl; try done.
  - destruct (ws !! i) as [wk|]; [|done].
    by destruct (worker_step wk s w) as [[wk' s'] w'].
  - destruct (ws !! i) as [wk|]; [|done].
    by destruct (worker_respond cfg net wk w) as [wk' w'].
Qed.

Lemma run_stays_returned (events : list Event) (σ : Session) :
  caller σ = Returned -> caller (run cfg events σ) = Returned.
Proof.
  revert σ. induction events as [|e events IH]; intros σ H; [done|].
  rewrite run_cons. apply IH. by apply step_stays_returned.
Qed.

(** Inside [start] the caller is in the waiting loop or past it. *)
Lemma step_not_idle (e : Event) (σ : Session) :
  caller σ <> Idle -> caller (step cfg e σ) <> Idle.
Proof.
  destruct σ as [s ws c w]. simpl. intros Hc.
  destruct e as [i|i net| | |]; simpl; try done.
  - destruct (ws !! i) as [wk|]; [|done].
    by destruct (worker_step wk s w) as [[wk' s'] w'].
  - destruct (ws !! i) as [wk|]; [|done].
    by destruct (worker_respond cfg net wk w) as [wk' w'].
  - destruct c; try done. destruct (running s); [|done]. by destruct (drained _).
  - by destruct c.
Qed.

Lemma run_not_idle (events : list Event) (σ : Session) :
  caller σ <> Idle -> caller (run cfg events σ) <> Idle.
Proof.
  revert σ. induction events as [|e events IH]; intros σ H; [done|].
  rewrite run_cons. apply IH. by apply step_not_idle.
Qed.

Lemma poll_when_stopped (σ : Session) :
  caller σ <> Idle -> running (scraper σ) = false ->
  caller (step cfg Poll σ) = Returned.
Proof.
  destruct σ as [s ws c w]. simpl. intros Hc ->. by destruct c.
Qed.

Lemma interrupt_returns (σ : Session) :
  caller σ <> Idle ->
  caller (step cfg Interrupt σ) = Returned
  /\ (caller σ = Polling -> running (scraper (step cfg Interrupt σ)) = false).
Proof.
  destruct σ as [s ws c w]. simpl. intros Hc. by destruct c.
Qed.

Lemma session_not_idle (callback : bool) (events : list Event) :
  caller (run cfg events (session cfg callback)) <> Idle.
Proof. by apply run_not_idle. Qed.

(** [start] only returns through its [finally] block, which clears the
    flag. *)
Lemma step_returned_stopped (e : Event) (σ : Session) :
  (caller σ = Returned -> running (scraper σ) = false) ->
  caller (step cfg e σ) = Returned -> running (scraper (step cfg e σ)) = false.
Proof.
  destruct σ as [s ws c w]. simpl. intros Hc.
  destruct e as [i|i net| | |]; simpl.
  - destruct (ws !! i) as [wk|]; [|done].
    pose proof (worker_step_running wk s w) as H.
    destruct (worker_step wk s w) as [[wk' s'] w']. simpl in *.
    intros Hr. rewrite H. by apply Hc.
  - destruct (ws !! i) as [wk|]; [|done].
    by destruct (worker_respond cfg net wk w) as [wk' w'].
  - destruct c; try done. destruct (running s); [|done]. by destruct (drained _).
  - done.
  - by destruct c.
Qed.

Lemma session_returned_stopped (callback : bool) (events : list Event) :
  caller (run cfg events (session cfg callback)) = Returned ->
  running (scraper (run cfg events (session cfg callback))) = false.
Proof.
  apply (run_invariant_all cfg
           (fun σ => caller σ = Returned -> running (scraper σ) = false)).
  - intros e σ. apply step_returned_stopped.
  - done.
Qed.

(** Replacing one worker changes a sum over the workers by its share. *)
Lemma sum_insert (f : Worker -> nat) (ws : list Worker) (i : nat)
    (wk wk' : Worker) :
  ws !! i = Some wk ->
  sum_list_with f (<[i := wk']> ws) + f wk = sum_list_with f ws + f wk'.
Proof.
  intros H. destruct (insert_middle ws i wk H) as (l1 & l2 & E & E').
  rewrite (E' wk'). clear E'. subst ws.
  rewrite !sum_list_with_app. simpl. lia.
Qed.

Lemma pending_le_length (ws : list Worker) : pending ws <= length ws.
Proof.
  unfold pending. induction ws as [|wk ws IH]; simpl; [lia|].
  destruct wk; simpl; lia.
Qed.

(** Once the flag is false, a page is only started by a worker that was
    already past the test of the flag. *)
Lemma step_winds_down (e : Event) (σ : Session) :
  running (scraper σ) = false ->
  total_pages (scraper (step cfg e σ)) + pending (workers (step cfg e σ))
  <= total_pages (scraper σ) + pending (workers σ).
Proof.
  destruct σ as [s ws c w]. simpl. intros Hrun.
  destruct e as [i|i net| | |]; simpl.
  - destruct (ws !! i) as [wk|] eqn:E; [|simpl; lia].
    destruct wk as [| |url depth|url depth|depth links|ok| |]; simpl.
    + rewrite Hrun. pose proof (sum_insert may_start ws i _ Exited E).
      unfold pending. simpl in *. lia.
    + destruct (queue s) as [|[url depth] q]; simpl.
      * pose proof (sum_insert may_start ws i _ AtLoop E).
        unfold pending. simpl in *. lia.
      * pose proof (sum_insert may_start ws i _ (Dequeued url depth) E).
        unfold pending. simpl in *. lia.
    + destruct (bool_decide (url ∈ visited_urls s)); simpl.
      * pose proof (sum_insert may_start ws i _ AtLoop E).
        unfold pending. simpl in *. lia.
      * pose proof (sum_insert may_start ws i _ (Fetching url depth) E).
        unfold pending. simpl in *. lia.
    + pose proof (sum_insert may_start ws i _ (Fetching url depth) E).
      unfold pending. simpl in *. lia.
    + destruct links as [|link rest]; simpl.
      * pose proof (sum_insert may_start ws i _ (Counting true) E).
        unfold pending. simpl in *. lia.
      * pose proof (sum_insert may_start ws i _ (Enqueuing depth rest) E).
        unfold pending. simpl in *.
        destruct (bool_decide (link ∈ visited_urls s)); simpl; lia.
    + pose proof (sum_insert may_start ws i _ Sleeping E).
      unfold pending. simpl in *. lia.
    + pose proof (sum_insert may_start ws i _ AtLoop E).
      unfold pending. simpl in *. lia.
    + pose proof (sum_insert may_start ws i _ Exited E).
      unfold pending. simpl in *. lia.
  - destruct (ws !! i) as [wk|] eqn:E; [|simpl; lia].
    destruct wk as [| |url depth|url depth|depth links|ok| |]; simpl;
      try (rewrite (list_insert_id _ _ _ E); lia).
    destruct (fetch_page cfg net url depth w) as [r w']. simpl.
    destruct r as [| |links]; simpl.
    + pose proof (sum_insert may_start ws i _ (Counting false) E).
      unfold pending. simpl in *. lia.
    + pose proof (sum_insert may_start ws i _ (Counting true) E).
      unfold pending. simpl in *. lia.
    + destruct (depth <? max_depth cfg)%Z.
      * pose proof (sum_insert may_start ws i _ (Enqueuing depth links) E).
        unfold pending. simpl in *. lia.
      * pose proof (sum_insert may_start ws i _ (Counting true) E).
        unfold pending. simpl in *. lia.
  - destruct c; simpl; try lia. rewrite Hrun. simpl. lia.
  - simpl. lia.
  - destruct c; simpl; lia.
Qed.

Lemma run_winds_down (events : list Event) (σ : Session) :
  running (scraper σ) = false ->
  total_pages (scraper (run cfg events σ)) + pending (workers (run cfg events σ))
  <= total_pages (scraper σ) + pending (workers σ).
Proof.
  revert σ. induction events as [|e events IH]; intros σ H; [simpl; lia|].
  rewrite run_cons.
  pose proof (step_winds_down e σ H).
  pose proof (IH (step cfg e σ) (step_stays_stopped e σ H)). lia.
Qed.

End Stopping.

(** X11.  [stop()] ends [start]: whatever the workers do before and
    after the call, the next turn of the waiting loop leaves it, [start]
    has then returned for good and [running] is false from the call on.
    An interrupt in the waiting loop does the same at once. *)
Theorem stop_ends_start :
  forall (cfg : Config) (callback : bool) (before between after : list Event),
    let σ := run cfg (before ++ Stop :: between) (session cfg callback) in
    let σ' := run cfg (Poll :: after) σ in
    let σi := run cfg (before ++ Interrupt :: after) (session cfg callback) in
    running (scraper σ) = false
    /\ caller σ' = Returned
    /\ running (scraper σ') = false
    /\ caller σi = Returned
    /\ running (scraper σi) = false.
Proof.
  intros cfg callback before between after σ σ' σi.
  assert (Hσ : running (scraper σ) = false).
  { subst σ. rewrite run_app, run_cons. by apply run_stays_stopped. }
  assert (Hidle : caller σ <> Idle) by apply session_not_idle.
  split; [exact Hσ|]. split; [|split; [|split]].
  - subst σ'. rewrite run_cons. apply run_stays_returned.
    by apply poll_when_stopped.
  - subst σ'. by apply run_stays_stopped.
  - subst σi. rewrite run_app, run_cons. apply run_stays_returned.
    apply interrupt_returns, session_not_idle.
  - subst σi. rewrite run_app, run_cons. apply run_stays_stopped.
    pose proof (session_not_idle cfg callback before) as Hn.
    pose proof (session_returned_stopped cfg callback before) as Hr.
    destruct (run cfg before (session cfg callback)) as [s ws c w].
    simpl in *. destruct c; [done|done|by apply Hr].
Qed.

(** X12.  [stop()] does not cut a download short, but it bounds what is
    still started: after the call a page is started only by a worker that
    was already waiting on the queue or holding a task, so at most one
    more page per worker thread is started, however long the threads keep
    running. *)
Theorem stop_bounds_new_pages :
  forall (cfg : Config) (callback : bool) (before after : list Event),
    let σ := run cfg (before ++ [Stop]) (session cfg callback) in
    let σ' := run cfg after σ in
    total_pages (scraper σ') + pending (workers σ')
      <= total_pages (scraper σ) + pending (workers σ)
    /\ pending (workers σ) <= num_threads cfg
    /\ total_pages (scraper σ') <= total_pages (scraper σ) + num_threads cfg.
Proof.
  intros cfg callback before after σ σ'.
  assert (Hσ : running (scraper σ) = false).
  { subst σ. by rewrite run_app. }
  pose proof (run_winds_down cfg after σ Hσ) as H.
  assert (Hp : pending (workers σ) <= num_threads cfg).
  { pose proof (pending_le_length (workers σ)) as Hl.
    subst σ. rewrite run_workers_length in Hl. simpl in Hl.
    by rewrite length_replicate in Hl. }
  split; [exact H|]. split; [exact Hp|]. fold σ' in H. lia.
Qed.

Section WindDown.
Context (cfg : Config) (i : nat) (net : Net).

Lemma exits_turn (σ : Session) :
  exits cfg i net (run cfg [Respond i net; Run i] σ) -> exits cfg i net σ.
Proof.
  intros [n H]. exists (S n). exact H.
Qed.

(** One turn of worker [i]: a pending answer, then one step. *)
Lemma turn_lookup (σ : Session) (wk : Worker) :
  workers σ !! i = Some wk ->
  run cfg [Respond i net; Run i] σ
  = let r := worker_respond cfg net wk (world σ) in
    let r' := worker_step r.1 (scraper σ) r.2 in
    mkSession r'.1.2 (<[i := r'.1.1]> (workers σ)) (caller σ) r'.2.
Proof.
  destruct σ as [s ws c w]. simpl. intros E. rewrite E.
  destruct (worker_respond cfg net wk w) as [wk1 w1]. simpl.
  rewrite list_lookup_insert_eq by (by eapply lookup_lt_Some).
  destruct (worker_step wk1 s w1) as [[wk2 s2] w2]. simpl.
  by rewrite list_insert_insert_eq.
Qed.

Lemma turn_ends (wk : Worker) :
  (forall s w,
      running s = false ->
      ends cfg i net (worker_step (worker_respond cfg net wk w).1 s
              (worker_respond cfg net wk w).2).1.1) ->
  ends cfg i net wk.
Proof.
  intros H σ Hrun E. apply exits_turn. rewrite (turn_lookup σ wk E). simpl.
  apply (H (scraper σ) (world σ) Hrun).
  - simpl. by rewrite worker_step_running.
  - simpl. apply list_lookup_insert_eq. by eapply lookup_lt_Some.
Qed.

Lemma ends_Exited : ends cfg i net Exited.
Proof. intros σ _ E. by exists 0. Qed.

Lemma ends_AtLoop : ends cfg i net AtLoop.
Proof. apply turn_ends. intros s w Hrun. simpl. rewrite Hrun. apply ends_Exited. Qed.

Lemma ends_Sleeping : ends cfg i net Sleeping.
Proof. apply turn_ends. intros s w Hrun. simpl. apply ends_AtLoop. Qed.

Lemma ends_Counting (ok : bool) : ends cfg i net (Counting ok).
Proof. apply turn_ends. intros s w Hrun. simpl. apply ends_Sleeping. Qed.

Lemma ends_Enqueuing (depth : Z) (links : list string) :
  ends cfg i net (Enqueuing depth links).
Proof.
  induction links as [|link rest IH]; apply turn_ends; intros s w Hrun; simpl.
  - apply ends_Counting.
  - exact IH.
Qed.

Lemma ends_Fetching (url : string) (depth : Z) : ends cfg i net (Fetching url depth).
Proof.
  apply turn_ends. intros s w Hrun. simpl.
  destruct (fetch_page cfg net url depth w) as [r w']. simpl.
  destruct r as [| |links]; simpl; try apply ends_Sleeping.
  destruct (depth <? max_depth cfg)%Z; simpl; [|apply ends_Sleeping].
  destruct links as [|link rest]; simpl;
    [apply ends_Counting|apply ends_Enqueuing].
Qed.

Lemma ends_Dequeued (url : string) (depth : Z) : ends cfg i net (Dequeued url depth).
Proof.
  apply turn_ends. intros s w Hrun. simpl.
  destruct (bool_decide (url ∈ visited_urls s)); simpl;
    [apply ends_AtLoop|apply ends_Fetching].
Qed.

Lemma ends_InGet : ends cfg i net InGet.
Proof.
  apply turn_ends. intros s w Hrun. simpl.
  destruct (queue s) as [|[url depth] q]; simpl;
    [apply ends_AtLoop|apply ends_Dequeued].
Qed.

Lemma ends_any (wk : Worker) : ends cfg i net wk.
Proof.
  destruct wk.
  - apply ends_AtLoop.
  - apply ends_InGet.
  - apply ends_Dequeued.
  - apply ends_Fetching.
  - apply ends_Enqueuing.
  - apply ends_Counting.
  - apply ends_Sleeping.
  - apply ends_Exited.
Qed.

(** A thread that has ended stays so. *)
Lemma step_stays_exited (e : Event) (σ : Session) :
  workers σ !! i = Some Exited -> workers (step cfg e σ) !! i = Some Exited.
Proof.
  destruct σ as [s ws c w]. simpl. intros E.
  destruct e as [j|j net'| | |]; simpl; try done.
  - destruct (ws !! j) as [wk|] eqn:Ej; [|done].
    destruct (decide (j = i)) as [->|Hne].
    + rewrite E in Ej. injection Ej as <-. simpl.
      apply list_lookup_insert_eq. by eapply lookup_lt_Some.
    + destruct (worker_step wk s w) as [[wk' s'] w']. simpl.
      by rewrite list_lookup_insert_ne.
  - destruct (ws !! j) as [wk|] eqn:Ej; [|done].
    destruct (decide (j = i)) as [->|Hne].
    + rewrite E in Ej. injection Ej as <-. simpl.
      apply list_lookup_insert_eq. by eapply lookup_lt_Some.
    + destruct (worker_respond cfg net' wk w) as [wk' w']. simpl.
      by rewrite list_lookup_insert_ne.
  - destruct c; try done. destruct (running s); [|done]. by destruct (drained _).
  - by destruct c.
Qed.

Lemma run_stays_exited (events : list Event) (σ : Session) :
  workers σ !! i = Some Exited -> workers (run cfg events σ) !! i = Some Exited.
Proof.
  revert σ. induction events as [|e events IH]; intros σ H; [done|].
  rewrite run_cons. apply IH. by apply step_stays_exited.
Qed.

End WindDown.

(** X13.  After [stop()] every worker thread ends: scheduled often
    enough, with its pending request answered in any way, worker [i]
    finishes the task it holds, finds the flag false at the head of its
    loop and leaves; from then on it is not alive, whatever happens
    next. *)
Theorem workers_exit_after_stop :
  forall (cfg : Config) (callback : bool) (before between : list Event)
         (i : nat) (net : Net),
    i < num_threads cfg ->
    let σ := run cfg (before ++ Stop :: between) (session cfg callback) in
    exists n,
      forall later,
        workers (run cfg (wind_down i net n ++ later) σ) !! i = Some Exited.
Proof.
  intros cfg callback before between i net Hi σ.
  assert (Hσ : running (scraper σ) = false).
  { subst σ. rewrite run_app, run_cons. by apply run_stays_stopped. }
  assert (Hlen : length (workers σ) = num_threads cfg).
  { subst σ. rewrite run_workers_length. simpl. apply length_replicate. }
  destruct (lookup_lt_is_Some_2 (workers σ) i) as [wk E]; [lia|].
  destruct (ends_any cfg i net wk σ Hσ E) as [n Hn].
  exists n. intros later. rewrite run_app. by apply run_stays_exited.
Qed.

(** [workers_exit_after_stop] on the example: the only worker has taken
    the seed from the queue when [stop()] is called. *)
Lemma workers_exit_after_stop_witness :
  exists n,
    forall later,
      workers (run demo_cfg (wind_down 0 lonely_net n ++ later)
                 (run demo_cfg ([Run 0; Run 0] ++ Stop :: [])
                    (session demo_cfg false))) !! 0
      = Some Exited.
Proof.
  apply (workers_exit_after_stop demo_cfg false [Run 0; Run 0] [] 0 lonely_net).
  simpl. lia.
Defined.

(* ===================================================================== *)
(** ** Every file on disk was asked for *)
(* ===================================================================== *)

Section Accounting.
Context (cfg : Config).

Lemma accounted_mono (w w' : World) :
  files w' = files w ->
  (forall r, r ∈ requests w -> r ∈ requests w') ->
  accounted cfg w -> accounted cfg w'.
Proof.
  intros Hf Hr H p Hp. rewrite Hf in Hp.
  destruct (H p Hp) as (u & -> & [Hu|Hu]); exists u; split; auto.
Qed.

Lemma accounted_write (u : string) (d : FileData) (w : World) :
  PageGet u ∈ requests w \/ ResourceGet u (local_path cfg u) ∈ requests w ->
  accounted cfg w -> accounted cfg (write_file (local_path cfg u) d w).
Proof.
  intros Hu H p Hp. simpl in Hp. rewrite dom_insert in Hp.
  apply elem_of_union in Hp as [Hp|Hp].
  - apply elem_of_singleton in Hp as ->. by exists u.
  - exact (H p Hp).
Qed.

Lemma page_accounted_mono (url : string) (w w' : World) :
  files w' = files w ->
  (forall r, r ∈ requests w -> r ∈ requests w') ->
  page_accounted cfg url w -> page_accounted cfg url w'.
Proof.
  intros Hf Hr [H1 H2]. split; [by eapply accounted_mono|by apply Hr].
Qed.

Lemma get_local_path_accounted (url u : string) (w : World) :
  page_accounted cfg url w -> page_accounted cfg url (_get_local_path cfg u w).2.
Proof. apply page_accounted_mono; done. Qed.

Lemma download_resource_accounted (net : Net) (url u : string) (w : World) :
  page_accounted cfg url w ->
  page_accounted cfg url (_download_resource net u (local_path cfg u) w).2.
Proof.
  intros H.
  assert (H1 : page_accounted cfg url (send (ResourceGet u (local_path cfg u)) w)).
  { revert H. apply page_accounted_mono; [done|].
    intros r Hr. simpl. apply elem_of_app. by left. }
  unfold _download_resource, bind, act, ret. simpl.
  destruct (net u) as [|status ct body sp]; [done|].
  destruct (status =? 200)%Z; [|done]. simpl.
  destruct H1 as [H1 H2]. split; [|exact H2].
  apply accounted_write; [|exact H1].
  right. simpl. apply elem_of_app. right. by apply list_elem_of_singleton.
Qed.

Lemma localize_accounted (net : Net) (url attr : string) (t : Tag) (w : World) :
  page_accounted cfg url w ->
  page_accounted cfg url (localize cfg net url attr t w).2.
Proof.
  intros H. unfold localize.
  destruct (attrs t !! attr) as [ref|]; [|done].
  destruct (_normalize_url ref url) as [res_url|]; [|done].
  destruct (PyStr.truthy res_url); [|done].
  rewrite !bind_run. rewrite get_local_path_run. simpl.
  set (w1 := makedirs _ w).
  assert (H1 : page_accounted cfg url
                 (_download_resource net res_url (local_path cfg res_url) w1).2).
  { apply download_resource_accounted. revert H. by apply page_accounted_mono. }
  destruct ((_download_resource net res_url (local_path cfg res_url) w1).1);
    [|done].
  rewrite bind_run. by apply get_local_path_accounted.
Qed.

Lemma for_each_accounted {A} (url : string) (l : list A) (body : A -> M unit)
    (w : World) :
  (forall x w, page_accounted cfg url w -> page_accounted cfg url (body x w).2) ->
  page_accounted cfg url w -> page_accounted cfg url (for_each l body w).2.
Proof.
  intros Hb. revert w. induction l as [|x l IH]; intros w H; simpl; [done|].
  rewrite bind_run. apply IH. by apply Hb.
Qed.

Lemma for_tags_accounted (url : string) (soup : Document) (body : Tag -> M Tag)
    (w : World) :
  (forall t w, page_accounted cfg url w -> page_accounted cfg url (body t w).2) ->
  page_accounted cfg url w -> page_accounted cfg url (for_tags soup body w).2.
Proof.
  intros Hb. revert w. induction soup as [|t soup IH]; intros w H; simpl; [done|].
  rewrite !bind_run. simpl. apply IH. by apply Hb.
Qed.

Lemma localize_all_accounted (enabled : bool) (sel : Tag -> bool) (net : Net)
    (url attr : string) (soup : Document) (w : World) :
  page_accounted cfg url w ->
  page_accounted cfg url (localize_all cfg enabled sel net url attr soup w).2.
Proof.
  intros H. unfold localize_all. destruct enabled; [|done].
  apply for_tags_accounted; [|done]. intros t w' H'.
  destruct (sel t); [by apply localize_accounted|done].
Qed.

Lemma download_file_accounted (net : Net) (url : string) (a : Tag) (w : World) :
  page_accounted cfg url w ->
  page_accounted cfg url (download_file cfg net url a w).2.
Proof.
  intros H. unfold download_file.
  destruct (attrs a !! "href") as [href|]; [|done].
  destruct (_normalize_url href url) as [file_url|]; [|done].
  destruct (PyStr.truthy file_url && _should_download_file cfg file_url); [|done].
  rewrite !bind_run. simpl.
  apply download_resource_accounted. revert H. by apply page_accounted_mono.
Qed.

Lemma process_html_accounted (net : Net) (soup : Document) (url : string)
    (depth : Z) (w : World) :
  page_accounted cfg url w ->
  page_accounted cfg url (_process_html cfg net soup url depth w).2.
Proof.
  intros H. unfold _process_html. rewrite !bind_run. simpl.
  set (s1 := localize_all cfg (download_images cfg) is_image net url "src" soup w).
  set (s2 := localize_all cfg (download_css cfg) is_stylesheet net url "href" s1.1 s1.2).
  set (s3 := localize_all cfg (download_js cfg) is_script net url "src" s2.1 s2.2).
  set (w4 := (download_files cfg net url s3.1 s3.2).2).
  assert (H4 : page_accounted cfg url w4).
  { unfold w4, download_files. apply for_each_accounted.
    - intros a w'. apply download_file_accounted.
    - unfold s3. apply localize_all_accounted.
      unfold s2. apply localize_all_accounted.
      unfold s1. by apply localize_all_accounted. }
  destruct H4 as [H4 H5]. split; [|exact H5].
  apply accounted_write; [by left|].
  revert H4. by apply accounted_mono.
Qed.

Lemma fetch_page_accounted (net : Net) (url : string) (depth : Z) (w : World) :
  accounted cfg w -> accounted cfg (fetch_page cfg net url depth w).2.
Proof.
  intros H.
  assert (H0 : page_accounted cfg url (send (PageGet url) w)).
  { split.
    - revert H. apply accounted_mono; [done|].
      intros r Hr. simpl. apply elem_of_app. by left.
    - simpl. apply elem_of_app. right. by apply list_elem_of_singleton. }
  unfold fetch_page. rewrite bind_run. simpl.
  destruct (net url) as [|status ct body sp]; [apply H0|].
  destruct (status =? 200)%Z; [|apply H0].
  destruct (PyStr.substr_in "text/html" (PyStr.lower ct)).
  - rewrite bind_run. simpl. by apply process_html_accounted.
  - simpl. destruct H0 as [H1 H2].
    apply accounted_write; [by left|].
    revert H1. by apply accounted_mono.
Qed.

Lemma accounted_step (e : Event) (σ : Session) :
  accounted cfg (world σ) -> accounted cfg (world (step cfg e σ)).
Proof.
  destruct σ as [s ws c w]. simpl. intros H.
  destruct e as [i|i net| | |]; simpl.
  - destruct (ws !! i) as [wk|]; [|done].
    destruct wk as [| |url depth|url depth|depth links|ok| |]; simpl; try done.
    + by destruct (queue s) as [|[url depth] q].
    + by destruct (bool_decide (url ∈ visited_urls s)).
    + by destruct links.
    + destruct (progress_callback s); [|done]. simpl.
      revert H. by apply accounted_mono.
  - destruct (ws !! i) as [wk|]; [|done].
    destruct wk as [| |url depth|url depth|depth links|ok| |]; simpl; try done.
    pose proof (fetch_page_accounted net url depth w H) as H'.
    destruct (fetch_page cfg net url depth w) as [r w']. simpl in H'.
    by destruct r.
  - destruct c; try done. destruct (running s); [|done]. by destruct (drained _).
  - done.
  - by destruct c.
Qed.

End Accounting.

(** X14.  Every file a session has written is the mapped local path of
    a URL the session asked for: a page it requested, or a resource it
    requested for that very path.  Nothing else is written or
    overwritten. *)
Theorem every_file_was_requested :
  forall (cfg : Config) (callback : bool) (events : list Event) (p : string),
    let σ := run cfg events (session cfg callback) in
    p ∈ dom (files (world σ)) ->
    exists u, p = local_path cfg u
              /\ (PageGet u ∈ requests (world σ)
                  \/ ResourceGet u p ∈ requests (world σ)).
Proof.
  intros cfg callback events p σ.
  assert (Hinv : accounted cfg (world σ)).
  { apply (run_invariant_all cfg (fun σ => accounted cfg (world σ)));
      [apply accounted_step|].
    intros q Hq. simpl in Hq. by rewrite dom_empty in Hq. }
  apply Hinv.
Qed.

(** [every_file_was_requested] on the example: the logo saved beside
    the seed page. *)
Lemma every_file_was_requested_witness :
  exists u, "out/a.test/logo.png" = local_path demo_cfg u
            /\ (PageGet u ∈ requests (world (run demo_cfg seed_events (session demo_cfg false)))
                \/ ResourceGet u "out/a.test/logo.png"
                   ∈ requests (world (run demo_cfg seed_events (session demo_cfg false)))).
Proof.
  apply (every_file_was_requested demo_cfg false seed_events "out/a.test/logo.png").
  vm_compute. reflexivity.
Defined.

(* ===================================================================== *)
(** ** Which pages are requested *)
(* ===================================================================== *)

Section Requested.
Context (cfg : Config).

Lemma session_requested_inv (callback : bool) :
  requested_inv cfg (session cfg callback).
Proof.
  unfold requested_inv. simpl. split; [|split].
  - constructor; [by left|constructor].
  - by apply Forall_replicate.
  - constructor.
Qed.

Lemma requested_inv_step (e : Event) (σ : Session) :
  requested_inv cfg σ -> requested_inv cfg (step cfg e σ).
Proof.
  destruct σ as [s ws c w]. unfold requested_inv. simpl. intros (Hq & Hw & Hr).
  destruct e as [i|i net| | |]; simpl.
  - destruct (ws !! i) as [wk|] eqn:E; [|done].
    pose proof (Forall_lookup_1 _ _ _ _ Hw E) as Hwk.
    destruct wk as [| |url depth|url depth|depth links|ok| |]; simpl in *.
    + split; [done|]. split; [|done]. apply Forall_insert; [done|].
      by destruct (running s).
    + destruct (queue s) as [|[url depth] q] eqn:Q; simpl.
      * rewrite Q. split; [done|]. split; [|done]. by apply Forall_insert.
      * inversion Hq; subst. split; [done|]. split; [|done].
        by apply Forall_insert.
    + destruct (bool_decide (url ∈ visited_urls s)); simpl;
        (split; [done|]); (split; [|done]); by apply Forall_insert.
    + split; [done|]. split; [|done]. by apply Forall_insert.
    + destruct links as [|link rest]; simpl.
      * split; [done|]. split; [|done]. by apply Forall_insert.
      * inversion Hwk; subst. split; [|split; [by apply Forall_insert|done]].
        destruct (bool_decide (link ∈ visited_urls s)); simpl; [done|].
        apply Forall_app. split; [done|]. constructor; [by right|constructor].
    + split; [done|]. split; [by apply Forall_insert|].
      by destruct (progress_callback s).
    + split; [done|]. split; [|done]. by apply Forall_insert.
    + split; [done|]. split; [|done]. by apply Forall_insert.
  - destruct (ws !! i) as [wk|] eqn:E; [|done].
    pose proof (Forall_lookup_1 _ _ _ _ Hw E) as Hwk.
    destruct wk as [| |url depth|url depth|depth links|ok| |]; simpl in *;
      try (split; [done|]; split; [|done]; by apply Forall_insert).
    pose proof (fetch_page_links cfg net url depth w) as Hlinks.
    destruct (fetch_page_world cfg net url depth w) as [Hp _].
    destruct (fetch_page cfg net url depth w) as [r w']. simpl in Hp.
    assert (Hr' : Forall (seed_or_valid cfg) (page_gets (requests w'))).
    { rewrite Hp. apply Forall_app. split; [done|].
      constructor; [done|constructor]. }
    destruct r as [| |links]; simpl;
      try (split; [done|]; split; [|done]; by apply Forall_insert).
    split; [done|]. split; [|done]. apply Forall_insert; [done|].
    destruct (depth <? max_depth cfg)%Z; simpl; [|done].
    by apply Hlinks.
  - destruct c; simpl; try done.
    destruct (running s); simpl; [|done]. by destruct (drained _).
  - done.
  - by destruct c.
Qed.

End Requested.

(** X15.  Apart from the seed, which is requested as it was given, every
    page a session requests went through the classifier: it is an http(s)
    URL, it does not end in [.exe] or [.bin], and unless external links
    are followed it is on the host of the seed. *)
Theorem page_requests_went_through_classifier :
  forall (cfg : Config) (callback : bool) (events : list Event),
    let σ := run cfg events (session cfg callback) in
    Forall (fun u =>
              u = base_url cfg
              \/ (_is_valid_url cfg u = true
                  /\ is_http u = true
                  /\ PyStr.endswith u ".exe" = false
                  /\ PyStr.endswith u ".bin" = false
                  /\ (follow_external cfg
                      || String.eqb (Urllib.netloc (Urllib.urlparse u))
                           (base_domain cfg)) = true))
      (page_gets (requests (world σ))).
Proof.
  intros cfg callback events σ.
  assert (Hinv : requested_inv cfg σ).
  { apply (run_invariant_all cfg (requested_inv cfg));
      [apply requested_inv_step|apply session_requested_inv]. }
  destruct Hinv as (_ & _ & Hr).
  eapply Forall_impl; [exact Hr|].
  intros u [Hu|Hu]; [by left|right].
  split; [exact Hu|].
  rewrite is_valid_url_closed_form in Hu.
  apply andb_true_iff in Hu as [Hu Hbin].
  apply andb_true_iff in Hu as [Hu Hexe].
  apply andb_true_iff in Hu as [Hhttp Hhost].
  apply negb_true_iff in Hbin, Hexe. done.
Qed.

(* ===================================================================== *)
(** ** Linked files of a wanted type *)
(* ===================================================================== *)

Section LinkedFiles.
Import PyStr.

(** The soup the last loop of [_process_html] runs over has the anchors
    of the page as parsed. *)
Lemma rewriting_keeps_anchors (cfg : Config) (net : Net) (soup : Document)
    (url : string) (w : World) :
  let s1 := localize_all cfg (download_images cfg) is_image net url "src" soup w in
  let s2 := localize_all cfg (download_css cfg) is_stylesheet net url "href" s1.1 s1.2 in
  let s3 := localize_all cfg (download_js cfg) is_script net url "src" s2.1 s2.2 in
  List.filter is_anchor s3.1 = List.filter is_anchor soup.
Proof.
  intros s1 s2 s3. apply same_anchors_filter.
  eapply same_anchors_trans; [|eapply same_anchors_trans].
  - apply (localize_all_same_anchors cfg (download_images cfg) is_image net url "src" soup w).
    intros t Ht. unfold is_image in Ht.
    apply andb_true_iff in Ht as [Ht _]. apply String.eqb_eq in Ht.
    by rewrite Ht.
  - apply (localize_all_same_anchors cfg (download_css cfg) is_stylesheet net url "href" s1.1 s1.2).
    intros t Ht. unfold is_stylesheet in Ht.
    apply andb_true_iff in Ht as [Ht _]. apply andb_true_iff in Ht as [Ht _].
    apply String.eqb_eq in Ht. by rewrite Ht.
  - apply (localize_all_same_anchors cfg (download_js cfg) is_script net url "src" s2.1 s2.2).
    intros t Ht. unfold is_script in Ht.
    apply andb_true_iff in Ht as [Ht _]. apply String.eqb_eq in Ht.
    by rewrite Ht.
Qed.

Lemma extract_links_elem (cfg : Config) (soup : Document) (url : string)
    (a : Tag) (href u : string) :
  a ∈ soup -> is_anchor a = true ->
  attrs a !! "href" = Some href ->
  _normalize_url href url = Some u ->
  _is_valid_url cfg u = true ->
  u ∈ extract_links cfg soup url.
Proof.
  intros Hin Ha Hh Hn Hv. unfold extract_links.
  apply list_elem_of_In, in_flat_map. exists a. split.
  - apply filter_In. split; [by apply list_elem_of_In|done].
  - rewrite Hh, Hn, Hv.
    assert (Ht : truthy u = true).
    { rewrite is_valid_url_closed_form in Hv.
      do 3 (apply andb_true_iff in Hv as [Hv _]). by destruct u. }
    rewrite Ht. simpl. by left.
Qed.

End LinkedFiles.



(* ===================================================================== *)
(** ** The console menu: the URL it accepts *)
(* ===================================================================== *)

Section MenuUrl.
Import PyStr.

Lemma app_nonempty_r (p w : string) : w <> "" -> p +:+ w <> "".
Proof.
  intros Hw. destruct p as [|a p]; [by rewrite append_nil_l|].
  by rewrite append_cons.
Qed.

Lemma rstrip_cons_nonempty (f : ascii -> bool) (a : ascii) (s : string) :
  rstrip f s <> "" -> rstrip f (String a s) = String a (rstrip f s).
Proof. simpl. by destruct (rstrip f s). Qed.

Lemma rstrip_cons_keep (f : ascii -> bool) (a : ascii) (s : string) :
  f a = false -> exists r, rstrip f (String a s) = String a r.
Proof. intros Ha. simpl. destruct (rstrip f s); rewrite ?Ha; eauto. Qed.

Lemma rstrip_idem (f : ascii -> bool) (s : string) :
  rstrip f (rstrip f s) = rstrip f s.
Proof.
  induction s as [|a s IH]; [done|].
  destruct (rstrip f s) as [|b r] eqn:E.
  - simpl. rewrite E. destruct (f a) eqn:Fa; [done|]. simpl. by rewrite Fa.
  - rewrite rstrip_cons_nonempty by (by rewrite E).
    rewrite E. rewrite rstrip_cons_nonempty by (by rewrite IH).
    by rewrite IH.
Qed.

Lemma rstrip_app_fixed (f : ascii -> bool) (p w : string) :
  rstrip f w = w -> w <> "" -> rstrip f (p +:+ w) = p +:+ w.
Proof.
  intros Hw Hne. induction p as [|a p IH]; [by rewrite append_nil_l|].
  rewrite append_cons. rewrite rstrip_cons_nonempty; rewrite IH; [done|].
  by apply app_nonempty_r.
Qed.

Lemma lstrip_cases (f : ascii -> bool) (s : string) :
  lstrip f s = ""
  \/ exists a t, lstrip f s = String a t /\ f a = false.
Proof.
  induction s as [|a s IH]; [by left|]. simpl.
  destruct (f a) eqn:Fa; [exact IH|]. right. eauto.
Qed.

Lemma lstrip_blank (f : ascii -> bool) (s : string) :
  all_chars f s = true -> lstrip f s = "".
Proof.
  induction s as [|a s IH]; [done|]. simpl.
  intros H. apply andb_true_iff in H as [-> H]. by apply IH.
Qed.

Lemma strip_idem (f : ascii -> bool) (s : string) :
  strip f (strip f s) = strip f s.
Proof.
  unfold strip. destruct (lstrip_cases f s) as [E|(a & t & E & Fa)]; rewrite E.
  - done.
  - destruct (rstrip_cons_keep f a t Fa) as [r Hr]. rewrite Hr.
    simpl. rewrite Fa. rewrite <- Hr. apply rstrip_idem.
Qed.

Lemma strip_https (s : string) :
  strip isspace ("https://" +:+ strip isspace s) = "https://" +:+ strip isspace s.
Proof.
  unfold strip at 1. rewrite append_cons.
  change (lstrip isspace (String "h" ("ttps://" +:+ strip isspace s)))
    with (String "h" ("ttps://" +:+ strip isspace s)).
  rewrite <- append_cons.
  destruct (strip isspace s) as [|b r] eqn:E; [by rewrite append_nil_r|].
  rewrite <- E. apply rstrip_app_fixed.
  - unfold strip. apply rstrip_idem.
  - by rewrite E.
Qed.

Lemma validate_url_http (line : string) :
  line <> "" -> is_http (InteractiveMenu.validate_url line) = true.
Proof.
  intros T. unfold InteractiveMenu.validate_url.
  apply truthy_true in T. rewrite T. simpl.
  destruct (is_http (strip isspace line)) eqn:H; simpl; [done|].
  unfold is_http. rewrite (startswith_self_app "https://" _).
  apply orb_true_r.
Qed.

End MenuUrl.

(** X17.  [validate_url] returns the empty string for the empty input
    only; every other input, blank lines included, gives a string that
    starts with [http://] or [https://], which [start_scraping] takes for
    a URL that is set.  The result is stripped of surrounding blanks, a
    line of blanks gives the bare [https://], and validating a result
    again changes nothing. *)
Theorem validate_url_gives_http_url :
  forall (line : string),
    (line = "" -> InteractiveMenu.validate_url line = "")
    /\ (line <> "" -> is_http (InteractiveMenu.validate_url line) = true)
    /\ (line <> "" -> PyStr.all_chars isspace line = true ->
        InteractiveMenu.validate_url line = "https://")
    /\ PyStr.strip isspace (InteractiveMenu.validate_url line)
       = InteractiveMenu.validate_url line
    /\ InteractiveMenu.validate_url (InteractiveMenu.validate_url line)
       = InteractiveMenu.validate_url line.
Proof.
  intros line. unfold InteractiveMenu.validate_url.
  destruct (PyStr.truthy line) eqn:T; simpl.
  - apply truthy_true in T. split; [done|].
    set (w := PyStr.strip isspace line).
    assert (Hw : PyStr.strip isspace w = w) by apply strip_idem.
    destruct (is_http w) eqn:H; simpl.
    + split; [done|]. split.
      { intros _ Hb. unfold w, PyStr.strip in H.
        by rewrite (lstrip_blank _ _ Hb) in H. }
      split; [exact Hw|].
      pose proof (is_http_nonempty w H) as Hne.
      apply truthy_true in Hne. rewrite Hne. simpl. by rewrite Hw, H.
    + assert (Hs : is_http ("https://" +:+ w) = true).
      { unfold is_http. rewrite (startswith_self_app "https://" w).
        apply orb_true_r. }
      split; [done|]. split.
      { intros _ Hb. unfold w, PyStr.strip. by rewrite (lstrip_blank _ _ Hb). }
      split; [apply strip_https|].
      unfold w. rewrite strip_https. fold w. by rewrite Hs.
  - apply truthy_false in T. subst line. done.
Qed.

(* ===================================================================== *)
(** ** The console menu: the settings it keeps *)
(* ===================================================================== *)

Section MenuSettings.
Context (int : string -> option Z) (delay_ok : string -> bool) (cwd : string).

Lemma good_weaken {A} (k k' n n' : nat) (Q Q' : A -> InteractiveMenu.Menu -> Prop)
    (r : InteractiveMenu.Res A) :
  k' <= k -> n <= n' -> (forall a m, Q a m -> Q' a m) ->
  good k n Q r -> good k' n' Q' r.
Proof.
  intros Hk Hn HQ. destruct r as [a m rest|e m|m]; simpl; [|done|done].
  intros [H1 H2]. split; [by apply HQ|lia].
Qed.

Lemma good_and_then {A B} (k1 k2 n : nat) (Q : A -> InteractiveMenu.Menu -> Prop)
    (R : B -> InteractiveMenu.Menu -> Prop) (f : InteractiveMenu.Method A)
    (g : A -> InteractiveMenu.Method B) (m : InteractiveMenu.Menu) (lines : list string) :
  good k1 n Q (f m lines) ->
  (forall a m' rest, Q a m' -> length rest + k1 <= n ->
     good k2 (length rest) R (g a m' rest)) ->
  good (k1 + k2) n R (InteractiveMenu.and_then f g m lines).
Proof.
  unfold InteractiveMenu.and_then.
  destruct (f m lines) as [a m' rest|e m'|m']; simpl; [|done|done].
  intros [HQ Hlen] Hg. specialize (Hg a m' rest HQ Hlen).
  destruct (g a m' rest) as [b m'' rest'|e m''|m'']; simpl in *; [|done|done].
  destruct Hg as [HR Hlen']. split; [done|lia].
Qed.

Lemma input_good (m : InteractiveMenu.Menu) (lines : list string) :
  menu_ok m -> good 1 (length lines) kept (InteractiveMenu.input m lines).
Proof.
  intros Hm. destruct lines as [|line rest]; simpl; [done|].
  split; [done|lia].
Qed.

Lemma pure_good {A} (a : A) (m : InteractiveMenu.Menu) (lines : list string) :
  menu_ok m -> good 0 (length lines) kept (InteractiveMenu.pure a m lines).
Proof. intros Hm. simpl. split; [done|lia]. Qed.

Lemma self_good (m : InteractiveMenu.Menu) (lines : list string) :
  menu_ok m ->
  good 0 (length lines) (fun a m' => a = m' /\ menu_ok m')
    (InteractiveMenu.self m lines).
Proof. intros Hm. simpl. split; [done|lia]. Qed.

Lemma assign_good (f : InteractiveMenu.Menu -> InteractiveMenu.Menu) (m : InteractiveMenu.Menu) (lines : list string) :
  menu_ok (f m) ->
  good 0 (length lines) kept (InteractiveMenu.assign f m lines).
Proof. intros Hm. simpl. split; [done|lia]. Qed.

(** [get_option] returns a number in range, or the input has ended. *)
Lemma get_option_good (min_val max_val : Z) (m : InteractiveMenu.Menu) (lines : list string) :
  menu_ok m ->
  good 1 (length lines)
    (fun c m' => menu_ok m' /\ m' = m /\ (min_val <= c <= max_val)%Z)
    (InteractiveMenu.get_option int min_val max_val m lines).
Proof.
  intros Hm. induction lines as [|line rest IH]; simpl; [done|].
  assert (Hrec : good 1 (S (length rest))
                   (fun c m' => menu_ok m' /\ m' = m /\ (min_val <= c <= max_val)%Z)
                   (InteractiveMenu.get_option int min_val max_val m rest)).
  { revert IH. apply good_weaken; auto. }
  destruct (int line) as [choice|]; [|exact Hrec].
  destruct ((min_val <=? choice)%Z && (choice <=? max_val)%Z) eqn:E;
    [|exact Hrec].
  apply andb_true_iff in E as [E1 E2].
  apply Z.leb_le in E1, E2. simpl. split; [done|lia].
Qed.

Lemma set_delay_good (m : InteractiveMenu.Menu) (lines : list string) :
  menu_ok m ->
  good 1 (length lines) kept (InteractiveMenu.set_delay delay_ok m lines).
Proof.
  intros Hm. induction lines as [|line rest IH]; simpl; [done|].
  destruct (delay_ok line).
  - simpl. split; [done|lia].
  - revert IH. apply good_weaken; auto.
Qed.

(** Enter is awaited, then the method returns. *)
Lemma await_enter_good (m : InteractiveMenu.Menu) (lines : list string) :
  menu_ok m ->
  good 0 (length lines) kept
    (InteractiveMenu.and_then InteractiveMenu.input
       (fun _ => InteractiveMenu.pure tt) m lines).
Proof.
  intros Hm.
  eapply good_weaken; [| | |eapply (good_and_then 1 0)];
    [lia|done|done|by apply input_good|].
  intros a m' rest Hk _. by apply pure_good.
Qed.

Lemma assign_then_enter_good (f : InteractiveMenu.Menu -> InteractiveMenu.Menu) (m : InteractiveMenu.Menu) (lines : list string) :
  menu_ok (f m) ->
  good 0 (length lines) kept
    (InteractiveMenu.and_then (InteractiveMenu.assign f)
       (fun _ => InteractiveMenu.and_then InteractiveMenu.input
                   (fun _ => InteractiveMenu.pure tt)) m lines).
Proof.
  intros Hm.
  eapply (good_and_then 0 0); [by apply assign_good|].
  intros a m' rest Hk _. by apply await_enter_good.
Qed.

Lemma set_url_good (m : InteractiveMenu.Menu) (lines : list string) :
  menu_ok m -> good 0 (length lines) kept (InteractiveMenu.set_url m lines).
Proof.
  intros Hm. unfold InteractiveMenu.set_url.
  eapply good_weaken; [| | |eapply (good_and_then 1 0)];
    [lia|done|done|by apply input_good|].
  intros line m' rest Hk _. apply assign_good.
  destruct Hk as [(H1 & H2 & H3 & H4 & H5) H6].
  split; [|exact H6]. split_and!; simpl; try done; try lia.
  destruct (decide (line = "")) as [->|Hne]; [by left|].
  right. by apply validate_url_http.
Qed.

Lemma set_output_dir_good (m : InteractiveMenu.Menu) (lines : list string) :
  menu_ok m -> good 0 (length lines) kept (InteractiveMenu.set_output_dir cwd m lines).
Proof.
  intros Hm. unfold InteractiveMenu.set_output_dir.
  eapply good_weaken; [| | |eapply (good_and_then 1 0)];
    [lia|done|done|by apply input_good|].
  intros line m' rest Hk _.
  destruct (PyStr.truthy line); [|by apply pure_good].
  by apply assign_good.
Qed.

Lemma set_max_depth_good (m : InteractiveMenu.Menu) (lines : list string) :
  menu_ok m -> good 0 (length lines) kept (InteractiveMenu.set_max_depth int m lines).
Proof.
  intros Hm. unfold InteractiveMenu.set_max_depth.
  eapply good_weaken; [| | |eapply (good_and_then 1 0)];
    [lia|done|done|by apply get_option_good|].
  intros depth m' rest (Hk & _ & Hr) _. apply assign_good.
  destruct Hk as [(H1 & H2 & H3 & H4 & H5) H6].
  split; [|exact H6]. split_and!; simpl; try done; try lia.
Qed.

Lemma set_num_threads_good (m : InteractiveMenu.Menu) (lines : list string) :
  menu_ok m -> good 0 (length lines) kept (InteractiveMenu.set_num_threads int m lines).
Proof.
  intros Hm. unfold InteractiveMenu.set_num_threads.
  eapply good_weaken; [| | |eapply (good_and_then 1 0)];
    [lia|done|done|by apply get_option_good|].
  intros threads m' rest (Hk & _ & Hr) _. apply assign_then_enter_good.
  destruct Hk as [(H1 & H2 & H3 & H4 & H5) H6].
  split; [|exact H6]. split_and!; simpl; try done; try lia.
Qed.

Lemma mem_false (x : string) (l : list string) :
  PyStr.mem x l = false -> x ∉ l.
Proof.
  unfold PyStr.mem. induction l as [|y l IH]; simpl; [intros _; apply not_elem_of_nil|].
  intros H. apply orb_false_iff in H as [H1 H2].
  apply not_elem_of_cons. split; [|by apply IH].
  intros ->. by rewrite String.eqb_refl in H1.
Qed.

Lemma dotted_starts_with_dot (ext : string) :
  PyStr.startswith
    (if negb (PyStr.startswith ext ".") then "." +:+ ext else ext) "." = true.
Proof.
  destruct (PyStr.startswith ext ".") eqn:E; simpl; [done|].
  apply (startswith_self_app "." ext).
Qed.

Lemma add_file_type_good (m : InteractiveMenu.Menu) (lines : list string) :
  menu_ok m -> good 0 (length lines) kept (InteractiveMenu.add_file_type m lines).
Proof.
  intros Hm. unfold InteractiveMenu.add_file_type.
  eapply good_weaken; [| | |eapply (good_and_then 1 0)];
    [lia|done|done|by apply input_good|].
  intros ext m1 rest1 Hk1 _.
  eapply (good_and_then 0 0 _ kept);
    [|intros a m3 rest3 Hk3 _; by apply await_enter_good].
  destruct (PyStr.truthy ext); [|by apply pure_good].
  eapply (good_and_then 0 0); [by apply self_good|].
  intros m2 m2' rest2 [-> Hk2] _.
  destruct (PyStr.mem _ (InteractiveMenu.file_types m2')) eqn:E; simpl;
    [by apply pure_good|].
  apply assign_good.
  destruct Hk2 as [(H1 & H2 & H3 & H4 & H5) H6].
  split; [|exact H6]. split_and!; simpl; try done; try lia.
  - apply NoDup_app. split; [done|]. split; [|apply NoDup_singleton].
    intros x Hx Hx'. apply list_elem_of_singleton in Hx'. subst x.
    by apply mem_false in E.
  - apply Forall_app. split; [done|].
    constructor; [apply dotted_starts_with_dot|constructor].
Qed.

Lemma pop_in_range (idx : Z) (l : list string) :
  (1 <= idx <= Z.of_nat (length l))%Z ->
  InteractiveMenu.pop (idx - 1) l = Some (delete (Z.to_nat (idx - 1)) l).
Proof.
  intros H. unfold InteractiveMenu.pop.
  replace ((0 <=? idx - 1)%Z) with true by (symmetry; apply Z.leb_le; lia).
  replace ((idx - 1 <? Z.of_nat (length l))%Z) with true
    by (symmetry; apply Z.ltb_lt; lia).
  done.
Qed.

Lemma remove_file_type_good (m : InteractiveMenu.Menu) (lines : list string) :
  menu_ok m ->
  good 0 (length lines) kept (InteractiveMenu.remove_file_type int m lines).
Proof.
  intros Hm. unfold InteractiveMenu.remove_file_type.
  eapply (good_and_then 0 0); [by apply self_good|].
  intros m1 m1' rest1 [-> Hk1] _.
  eapply (good_and_then 0 0 _ kept);
    [|intros a m3 rest3 Hk3 _; by apply await_enter_good].
  destruct (negb (0 <? length (InteractiveMenu.file_types m1'))%nat);
    [by apply pure_good|].
  eapply good_weaken; [| | |eapply (good_and_then 1 0)];
    [lia|done|done|by apply get_option_good|].
  intros idx m2 rest2 (Hk2 & -> & Hr) _.
  rewrite (pop_in_range idx _ Hr). apply assign_good.
  destruct Hk2 as [(H1 & H2 & H3 & H4 & H5) H6].
  split; [|exact H6]. split_and!; simpl; try done; try lia.
  - eapply sublist_NoDup; [exact H3|apply sublist_delete].
  - by apply Forall_delete.
Qed.

Lemma clear_file_types_good (m : InteractiveMenu.Menu) (lines : list string) :
  menu_ok m ->
  good 0 (length lines) kept (InteractiveMenu.clear_file_types m lines).
Proof.
  intros Hm. apply assign_then_enter_good.
  destruct Hm as [(H1 & H2 & H3 & H4 & H5) H6].
  split; [|exact H6]. split_and!; simpl; try done; try lia; constructor.
Qed.

Lemma toggle_good (f : InteractiveMenu.Menu -> InteractiveMenu.Menu)
    (m : InteractiveMenu.Menu) (lines : list string) :
  (InteractiveMenu.max_depth (f m) = InteractiveMenu.max_depth m
   /\ InteractiveMenu.num_threads (f m) = InteractiveMenu.num_threads m
   /\ InteractiveMenu.file_types (f m) = InteractiveMenu.file_types m
   /\ InteractiveMenu.url (f m) = InteractiveMenu.url m
   /\ InteractiveMenu.scraper (f m) = InteractiveMenu.scraper m) ->
  menu_ok m ->
  good 0 (length lines) kept
    (InteractiveMenu.and_then (InteractiveMenu.assign f)
       (fun _ => InteractiveMenu.and_then InteractiveMenu.input
                   (fun _ => InteractiveMenu.pure tt)) m lines).
Proof.
  intros (E1 & E2 & E3 & E4 & E5) Hm. apply assign_then_enter_good.
  unfold menu_ok, InteractiveMenu.settings_ok. by rewrite E1, E2, E3, E4, E5.
Qed.

Lemma manage_file_types_loop_good (turns : nat) (m : InteractiveMenu.Menu)
    (lines : list string) :
  length lines < turns -> menu_ok m ->
  good 0 (length lines) kept
    (InteractiveMenu.manage_file_types_loop int turns m lines).
Proof.
  revert m lines. induction turns as [|turns IH]; intros m lines Hlen Hm; [lia|].
  simpl.
  eapply good_weaken; [| | |eapply (good_and_then 1 0)];
    [lia|done|done|by apply get_option_good|].
  intros choice m1 rest1 (Hk1 & _ & _) Hlen1.
  assert (Hnext : forall (f : InteractiveMenu.Method unit),
             (forall m lines, menu_ok m -> good 0 (length lines) kept (f m lines)) ->
             good 0 (length rest1) kept
               (InteractiveMenu.and_then f
                  (fun _ => InteractiveMenu.manage_file_types_loop int turns)
                  m1 rest1)).
  { intros f Hf. eapply (good_and_then 0 0 _ kept); [by apply Hf|].
    intros a m2 rest2 Hk2 Hlen2. apply IH; [lia|done]. }
  destruct (choice =? 0)%Z; [by apply pure_good|].
  destruct (choice =? 1)%Z; [apply Hnext, add_file_type_good|].
  destruct (choice =? 2)%Z; [apply Hnext, remove_file_type_good|].
  destruct (choice =? 3)%Z; [apply Hnext, clear_file_types_good|].
  apply IH; [lia|done].
Qed.

Lemma manage_file_types_good (m : InteractiveMenu.Menu) (lines : list string) :
  menu_ok m ->
  good 0 (length lines) kept (InteractiveMenu.manage_file_types int m lines).
Proof.
  intros Hm. unfold InteractiveMenu.manage_file_types.
  apply manage_file_types_loop_good; [lia|done].
Qed.

Lemma start_scraping_good (m : InteractiveMenu.Menu) (lines : list string) :
  menu_ok m ->
  good 0 (length lines) kept (InteractiveMenu.start_scraping cwd m lines).
Proof.
  intros Hm. unfold InteractiveMenu.start_scraping.
  eapply (good_and_then 0 0); [by apply self_good|].
  intros m1 m1' rest1 [-> Hk1] _.
  destruct (PyStr.truthy (InteractiveMenu.url m1')) eqn:T; simpl;
    [|by apply await_enter_good].
  apply assign_then_enter_good.
  destruct Hk1 as [(H1 & H2 & H3 & H4 & H5) H6].
  split; [split_and!; simpl; try done; try lia|]. simpl.
  unfold made_by_menu. simpl.
  split_and!; try done; try lia.
  destruct H5 as [H5|H5]; [|done].
  rewrite H5 in T. done.
Qed.

Lemma main_menu_loop_good (turns : nat) (m : InteractiveMenu.Menu)
    (lines : list string) :
  length lines < turns -> menu_ok m ->
  good 0 (length lines) (fun (_ : unit) _ => False)
    (InteractiveMenu.main_menu_loop int delay_ok cwd turns m lines).
Proof.
  revert m lines. induction turns as [|turns IH]; intros m lines Hlen Hm; [lia|].
  simpl.
  eapply (good_weaken (1 + 0) 0 _ _ (fun _ _ => False) (fun _ _ => False));
    [lia|reflexivity|done|].
  eapply (good_and_then 1 0); [by apply get_option_good|].
  intros choice m1 rest1 (Hk1 & _ & _) Hlen1.
  destruct (choice =? 0)%Z; [exact Hk1|].
  eapply (good_and_then 0 0 _ kept);
    [|intros a m2 rest2 Hk2 Hlen2; apply IH; [lia|done]].
  destruct (choice =? 1)%Z; [by apply set_url_good|].
  destruct (choice =? 2)%Z; [by apply set_output_dir_good|].
  destruct (choice =? 3)%Z; [by apply set_max_depth_good|].
  destruct (choice =? 4)%Z; [by apply toggle_good|].
  destruct (choice =? 5)%Z; [by apply toggle_good|].
  destruct (choice =? 6)%Z; [by apply toggle_good|].
  destruct (choice =? 7)%Z; [by apply toggle_good|].
  destruct (choice =? 8)%Z.
  { eapply good_weaken; [| | |by apply set_delay_good]; [lia|done|done]. }
  destruct (choice =? 9)%Z; [by apply toggle_good|].
  destruct (choice =? 10)%Z; [by apply set_num_threads_good|].
  destruct (choice =? 11)%Z; [by apply manage_file_types_good|].
  destruct (choice =? 12)%Z; [by apply start_scraping_good|].
  destruct (choice =? 13)%Z; [by apply await_enter_good|].
  by apply pure_good.
Qed.

Lemma init_menu_ok : menu_ok InteractiveMenu.__init__.
Proof.
  split; [|done]. unfold InteractiveMenu.settings_ok. simpl.
  split_and!; try lia; [constructor|constructor|by left].
Qed.

End MenuSettings.


(** The visit of [menu_lines], computed. *)
Example menu_visit :
  InteractiveMenu.main_menu decimal (fun _ => true) "/home/user"
    InteractiveMenu.__init__ menu_lines
  = InteractiveMenu.Raise InteractiveMenu.SystemExit
      (InteractiveMenu.mkMenu "https://a.test/docs" "./scraped_sites" 7 false
         true true true [".pdf"] false 5
         (Some (mkConfig "https://a.test/docs" "./scraped_sites" 7 false
                  true true true [".pdf"] 5 "/home/user"))).
Proof. vm_compute. reflexivity. Qed.

(* ===================================================================== *)
(** ** [os.path.relpath] and back *)
(* ===================================================================== *)

Section Relpath.
Import PyStr.

Lemma split_not_nil (c : ascii) (s : string) : split c s <> [].
Proof.
  destruct s as [|a s]; simpl; [done|].
  destruct (Ascii.eqb a c); [done|]. by destruct (split c s).
Qed.

Lemma split_cons_other (c a : ascii) (s : string) :
  Ascii.eqb a c = false ->
  exists h t, split c s = h :: t /\ split c (String a s) = String a h :: t.
Proof.
  intros H. simpl. rewrite H. pose proof (split_not_nil c s) as Hn.
  destruct (split c s) as [|h t]; [done|]. eauto.
Qed.

Lemma split_app_sep (c : ascii) (a b : string) :
  split c (a +:+ String c b) = split c a ++ split c b.
Proof.
  induction a as [|x a IH].
  - rewrite append_nil_l. simpl. by rewrite Ascii.eqb_refl.
  - rewrite append_cons. destruct (Ascii.eqb x c) eqn:E.
    + simpl. by rewrite E, IH.
    + destruct (split_cons_other c x a E) as (h & t & H1 & H2).
      rewrite H2. simpl. rewrite E, IH, H1. done.
Qed.

Lemma split_plain (c : ascii) (s : string) :
  contains c s = false -> split c s = [s].
Proof.
  induction s as [|a s IH]; [done|]. simpl. intros H.
  apply orb_false_iff in H as [H1 H2]. rewrite H1, (IH H2). done.
Qed.

Lemma split_clean (c : ascii) (s : string) :
  Forall (fun x => contains c x = false) (split c s).
Proof.
  induction s as [|a s IH]; simpl; [by repeat constructor|].
  destruct (Ascii.eqb a c) eqn:E; [by constructor|].
  destruct (split c s) as [|h t]; [by repeat constructor; simpl; rewrite E|].
  inversion IH; subst. constructor; [|done]. simpl. by rewrite E.
Qed.

Lemma join_cons (sep x y : string) (l : list string) :
  join sep (x :: y :: l) = x +:+ sep +:+ join sep (y :: l).
Proof. reflexivity. Qed.

Lemma split_join (c : ascii) (l : list string) :
  l <> [] -> Forall (fun x => contains c x = false) l ->
  split c (join (String c "") l) = l.
Proof.
  induction l as [|x l IH]; [done|]. intros _ H. inversion H; subst.
  destruct l as [|y l]; [by apply split_plain|].
  rewrite join_cons, append_cons, append_nil_l, split_app_sep.
  rewrite split_plain by done. rewrite IH; done.
Qed.

Lemma components_app_sep (a b : string) :
  components (a +:+ String "/" b) = components a ++ components b.
Proof. unfold components. by rewrite split_app_sep, List.filter_app. Qed.

Lemma components_nil : components "" = [].
Proof. reflexivity. Qed.

Lemma components_clean (p : string) :
  Forall (fun x => x <> "" /\ contains "/" x = false) (components p).
Proof.
  unfold components. pose proof (split_clean "/" p) as H.
  induction H as [|x l Hx H IH]; simpl; [constructor|].
  destruct (truthy x) eqn:T; [|done]. constructor; [|done].
  split; [by apply truthy_true|done].
Qed.

Lemma filter_truthy_id (l : list string) :
  Forall (fun x => x <> "") l -> List.filter truthy l = l.
Proof.
  induction 1 as [|x l Hx H IH]; [done|]. simpl.
  apply truthy_true in Hx. by rewrite Hx, IH.
Qed.

(** The components of a joined list are the list. *)
Lemma components_join (l : list string) :
  Forall (fun x => x <> "" /\ contains "/" x = false) l ->
  components (join "/" l) = l.
Proof.
  intros H. destruct l as [|x l]; [done|]. unfold components.
  rewrite split_join; [|done|by eapply Forall_impl; [exact H|]; intros ? []].
  apply filter_truthy_id. eapply Forall_impl; [exact H|]. by intros ? [].
Qed.

Lemma components_slash_join (l : list string) :
  Forall (fun x => x <> "" /\ contains "/" x = false) l ->
  components ("/" +:+ join "/" l) = l.
Proof.
  intros H. change ("/" +:+ join "/" l) with ("" +:+ String "/" (join "/" l)).
  rewrite components_app_sep. rewrite components_nil. simpl.
  by apply components_join.
Qed.


Lemma step_empty (initial : bool) (acc : list string) :
  PosixPath.normpath_step initial acc "" = acc.
Proof. reflexivity. Qed.

(** [normpath] skips the empty components. *)
Lemma fold_step_components (initial : bool) (l acc : list string) :
  fold_left (PosixPath.normpath_step initial) l acc
  = fold_left (PosixPath.normpath_step initial) (List.filter truthy l) acc.
Proof.
  revert acc. induction l as [|x l IH]; intros acc; [done|]. simpl.
  destruct (truthy x) eqn:T; simpl; [apply IH|].
  apply truthy_false in T. subst x. rewrite step_empty. apply IH.
Qed.

Lemma regular_last (acc : list string) :
  Forall regular acc -> String.eqb (List.last acc "") ".." = false.
Proof.
  intros H. apply String.eqb_neq.
  destruct acc as [|x acc _] using rev_ind; [done|].
  rewrite last_last. apply Forall_app in H as [_ H].
  inversion H as [|? ? (_ & _ & Hx & _)]; subst. done.
Qed.

Lemma step_dotdot (acc : list string) :
  Forall regular acc ->
  PosixPath.normpath_step true acc ".." = removelast acc.
Proof.
  intros H. unfold PosixPath.normpath_step. simpl.
  rewrite (regular_last acc H). by rewrite andb_false_r.
Qed.

Lemma step_regular (initial : bool) (acc : list string) (c : string) :
  regular c -> PosixPath.normpath_step initial acc c = acc ++ [c].
Proof.
  intros (H1 & H2 & H3 & _). unfold PosixPath.normpath_step.
  apply String.eqb_neq in H1, H2, H3. by rewrite H1, H2, H3.
Qed.

Lemma removelast_regular (acc : list string) :
  Forall regular acc -> Forall regular (removelast acc).
Proof.
  intros H. destruct acc as [|x acc _] using rev_ind; [done|].
  rewrite removelast_last. by apply Forall_app in H as [H _].
Qed.

(** From the root, [normpath] leaves components that name something. *)
Lemma step_keeps_regular (acc : list string) (c : string) :
  contains "/" c = false ->
  Forall regular acc -> Forall regular (PosixPath.normpath_step true acc c).
Proof.
  intros Hc H.
  destruct (decide (c = "")) as [->|H1]; [done|].
  destruct (decide (c = ".")) as [->|H2]; [done|].
  destruct (decide (c = "..")) as [->|H3].
  - rewrite step_dotdot by done. by apply removelast_regular.
  - rewrite step_regular by done. apply Forall_app. split; [done|].
    by repeat constructor.
Qed.

Lemma fold_step_keeps_regular (l acc : list string) :
  Forall (fun x => contains "/" x = false) l ->
  Forall regular acc ->
  Forall regular (fold_left (PosixPath.normpath_step true) l acc).
Proof.
  intros Hl. revert acc. induction Hl as [|x l Hx Hl IH]; intros acc H; [done|].
  simpl. apply IH. by apply step_keeps_regular.
Qed.

Lemma removelast_take (acc : list string) :
  removelast acc = take (length acc - 1) acc.
Proof.
  destruct acc as [|x acc _] using rev_ind; [done|].
  rewrite removelast_last, length_app. simpl.
  replace (length acc + 1 - 1) with (length acc) by lia.
  by rewrite take_app_length.
Qed.

Lemma fold_step_dotdots (k : nat) (acc : list string) :
  Forall regular acc ->
  fold_left (PosixPath.normpath_step true) (repeat ".." k) acc
  = take (length acc - k) acc.
Proof.
  revert acc. induction k as [|k IH]; intros acc H; simpl.
  - rewrite Nat.sub_0_r. by rewrite firstn_all.
  - rewrite step_dotdot by done. rewrite IH by (by apply removelast_regular).
    rewrite removelast_take. rewrite take_take. rewrite length_take.
    f_equal. lia.
Qed.

Lemma fold_step_regulars (initial : bool) (l acc : list string) :
  Forall regular l ->
  fold_left (PosixPath.normpath_step initial) l acc = acc ++ l.
Proof.
  intros Hl. revert acc. induction Hl as [|x l Hx Hl IH]; intros acc; simpl.
  - by rewrite app_nil_r.
  - rewrite step_regular by done. rewrite IH. by rewrite <- app_assoc.
Qed.


Lemma append_assoc (a b c : string) : (a +:+ b) +:+ c = a +:+ (b +:+ c).
Proof. induction a as [|x a IH]; [done|]. by rewrite !append_cons, IH. Qed.

Lemma startswith_cons (a b : ascii) (s t : string) :
  startswith (String a s) (String b t) = Ascii.eqb a b && startswith s t.
Proof.
  unfold startswith.
  change (String.prefix (String b t) (String a s))
    with (if ascii_dec b a then String.prefix t s else false).
  destruct (ascii_dec b a) as [<-|N].
  - by rewrite Ascii.eqb_refl.
  - replace (Ascii.eqb a b) with false; [done|].
    symmetry. apply Ascii.eqb_neq. congruence.
Qed.

Lemma startswith_nil (s : string) : startswith s "" = true.
Proof. by destruct s. Qed.

Lemma startswith_two_one (s : string) :
  startswith s "/" = false -> startswith s "//" = false.
Proof.
  destruct s as [|a s]; [done|]. rewrite !startswith_cons.
  rewrite startswith_nil, andb_true_r. by intros ->.
Qed.

Lemma startswith_two_app (s t : string) :
  startswith t "/" = false ->
  startswith s "//" = false -> startswith (s +:+ t) "//" = false.
Proof.
  intros Ht Hs. destruct s as [|a s]; [by apply startswith_two_one|].
  rewrite append_cons. rewrite startswith_cons in *.
  destruct (Ascii.eqb a "/"); [|done]. simpl in *.
  destruct s as [|b s]; [by rewrite append_nil_l|].
  rewrite append_cons. rewrite startswith_cons in *.
  by rewrite startswith_nil in *.
Qed.

Lemma startswith_clean (c : string) :
  contains "/" c = false -> startswith c "/" = false.
Proof.
  destruct c as [|a c]; [done|]. intros H. simpl in H.
  apply orb_false_iff in H as [H _]. by rewrite startswith_slash_cons.
Qed.

Lemma endswith_char_app (c : ascii) (u v : string) :
  v <> "" -> endswith (u +:+ v) (String c "") = endswith v (String c "").
Proof.
  intros Hv. induction u as [|a u IH]; [done|].
  rewrite append_cons. cbn [endswith]. rewrite IH.
  replace (String.eqb (String a (u +:+ v)) (String c "")) with false; [done|].
  symmetry. apply String.eqb_neq. intros [= _ E].
  destruct u; [by rewrite append_nil_l in E|by rewrite append_cons in E].
Qed.

Lemma endswith_clean (c : string) :
  contains "/" c = false -> endswith c "/" = false.
Proof.
  intros H. destruct (endswith c "/") eqn:E; [|done].
  apply endswith_inv in E as [p ->].
  rewrite contains_app in H. simpl in H. by rewrite orb_true_r in H.
Qed.

(** [os.path.join] of a relative path adds its components. *)
Lemma components_join2 (a b : string) :
  startswith b "/" = false ->
  components (PosixPath.join2 a b) = components a ++ components b.
Proof.
  intros Hb. unfold PosixPath.join2. rewrite Hb.
  destruct (truthy a) eqn:T; simpl.
  - destruct (endswith a "/") eqn:E.
    + apply endswith_inv in E as [p ->].
      rewrite append_assoc, append_cons, append_nil_l.
      rewrite components_app_sep.
      change (p +:+ "/") with (p +:+ String "/" "").
      rewrite components_app_sep, components_nil. by rewrite app_nil_r.
    + rewrite append_cons, append_nil_l. apply components_app_sep.
  - apply truthy_false in T. subst a. by rewrite append_nil_l.
Qed.

Lemma join2_relative (a b : string) :
  startswith b "/" = false ->
  startswith (PosixPath.join2 a b) "/" = startswith a "/"
  /\ (startswith a "//" = false -> startswith (PosixPath.join2 a b) "//" = false).
Proof.
  intros Hb. unfold PosixPath.join2. rewrite Hb.
  destruct (truthy a) eqn:T; simpl.
  - apply truthy_true in T.
    destruct (endswith a "/") eqn:E.
    + split; [by apply startswith_slash_app|]. intros Ha.
      by apply startswith_two_app.
    + split; [by apply startswith_slash_app|]. intros Ha.
      destruct a as [|x a]; [done|]. rewrite append_cons.
      rewrite startswith_cons in *.
      destruct (Ascii.eqb x "/") eqn:X; [|done]. simpl in *.
      destruct a as [|y a].
      { apply Ascii.eqb_eq in X. subst x. done. }
      rewrite append_cons. rewrite startswith_cons in *.
      by rewrite startswith_nil in *.
  - apply truthy_false in T. subst a. rewrite append_nil_l.
    split; [done|]. intros _. by apply startswith_two_one.
Qed.

Lemma rooted_anchored (cwd p : string) :
  rooted cwd -> startswith p "//" = false -> rooted (anchored cwd p).
Proof.
  intros [H1 H2] Hp. unfold anchored.
  destruct (startswith p "/") eqn:E; [done|].
  destruct (join2_relative cwd p E) as [J1 J2].
  split; [by rewrite J1|by apply J2].
Qed.

Lemma components_anchored (cwd p : string) :
  components (anchored cwd p)
  = if startswith p "/" then components p else components cwd ++ components p.
Proof.
  unfold anchored. destruct (startswith p "/") eqn:E; [done|].
  by apply components_join2.
Qed.

(** [normpath] of a path with one leading slash. *)
Lemma normpath_rooted (p : string) :
  rooted p ->
  PosixPath.normpath p
  = "/" +:+ join "/" (fold_left (PosixPath.normpath_step true) (components p) []).
Proof.
  intros [H1 H2]. unfold PosixPath.normpath.
  assert (T : truthy p = true) by (by destruct p).
  rewrite T, H1, H2. simpl.
  rewrite fold_step_components. reflexivity.
Qed.

Lemma abspath_rooted (cwd p : string) :
  rooted cwd -> startswith p "//" = false ->
  PosixPath.abspath cwd p
  = "/" +:+ join "/" (fold_left (PosixPath.normpath_step true)
                        (components (anchored cwd p)) []).
Proof.
  intros Hc Hp. apply (normpath_rooted (anchored cwd p)).
  by apply rooted_anchored.
Qed.

Lemma regular_clean (l : list string) :
  Forall regular l -> Forall (fun x => x <> "" /\ contains "/" x = false) l.
Proof. intros H. eapply Forall_impl; [exact H|]. by intros x (H1 & _ & _ & H4). Qed.

(** The components of an absolute, normalised path name something. *)
Lemma abspath_components (cwd p : string) :
  rooted cwd -> startswith p "//" = false ->
  let l := fold_left (PosixPath.normpath_step true)
             (components (anchored cwd p)) [] in
  Forall regular l
  /\ List.filter truthy (split "/" (PosixPath.abspath cwd p)) = l.
Proof.
  intros Hc Hp l.
  assert (Hl : Forall regular l).
  { apply fold_step_keeps_regular; [|constructor].
    eapply Forall_impl; [apply components_clean|]. by intros x []. }
  split; [exact Hl|].
  rewrite abspath_rooted by done. fold l.
  apply (components_slash_join l). by apply regular_clean.
Qed.

Lemma common_prefix_take (a b : list string) :
  take (PosixPath.common_prefix_len a b) a = take (PosixPath.common_prefix_len a b) b
  /\ PosixPath.common_prefix_len a b <= length a.
Proof.
  revert b. induction a as [|x a IH]; intros b; [by destruct b|].
  destruct b as [|y b]; [simpl; split; [done|lia]|]. simpl.
  destruct (String.eqb x y) eqn:E; [|simpl; split; [done|lia]].
  apply String.eqb_eq in E. subst y. destruct (IH b) as [H1 H2].
  simpl. split; [by rewrite H1|lia].
Qed.

Lemma join_snoc (pre y : string) (r : list string) :
  join "/" ((pre +:+ "/" +:+ y) :: r) = pre +:+ "/" +:+ join "/" (y :: r).
Proof.
  destruct r as [|z r]; [done|].
  rewrite !join_cons. by rewrite !append_assoc.
Qed.

(** [os.path.join] of a list of components is the list joined by
    slashes. *)
Lemma fold_join2 (rest : list string) (pre : string) :
  pre <> "" -> endswith pre "/" = false ->
  Forall (fun x => x <> "" /\ contains "/" x = false) rest ->
  fold_left PosixPath.join2 rest pre = join "/" (pre :: rest).
Proof.
  intros H1 H2 Hr. revert pre H1 H2.
  induction Hr as [|y r [Hy1 Hy2] Hr IH]; intros pre H1 H2; [done|].
  simpl fold_left.
  assert (E : PosixPath.join2 pre y = pre +:+ "/" +:+ y).
  { unfold PosixPath.join2. rewrite (startswith_clean y Hy2), H2.
    apply truthy_true in H1. by rewrite H1. }
  rewrite E. rewrite IH.
  - apply join_snoc.
  - destruct pre; [done|by rewrite append_cons].
  - rewrite <- append_assoc. rewrite endswith_char_app by done.
    by apply endswith_clean.
Qed.


(** What [relpath] returns, as [normpath] reads it: the steps up from
    [start], then the rest of [path]. *)
Lemma relpath_steps (cwd path start : string) :
  rooted cwd -> startswith path "//" = false -> startswith start "//" = false ->
  let sl := fold_left (PosixPath.normpath_step true)
              (components (anchored cwd start)) [] in
  let pl := fold_left (PosixPath.normpath_step true)
              (components (anchored cwd path)) [] in
  let i := PosixPath.common_prefix_len sl pl in
  startswith (PosixPath.relpath cwd path start) "/" = false
  /\ forall acc,
       fold_left (PosixPath.normpath_step true)
         (components (PosixPath.relpath cwd path start)) acc
       = fold_left (PosixPath.normpath_step true)
           (repeat ".." (length sl - i) ++ skipn i pl) acc.
Proof.
  intros Hc Hp Hs sl pl i.
  destruct (abspath_components cwd start Hc Hs) as [Hsl Es].
  destruct (abspath_components cwd path Hc Hp) as [Hpl Ep].
  fold sl in Hsl, Es. fold pl in Hpl, Ep.
  unfold PosixPath.relpath. rewrite Es, Ep. fold i.
  assert (Hrel : Forall (fun x => x <> "" /\ contains "/" x = false)
                   (repeat ".." (length sl - i) ++ skipn i pl)).
  { apply Forall_app. split.
    - apply Forall_forall. intros x Hx. apply list_elem_of_In in Hx.
      apply repeat_spec in Hx. by subst x.
    - apply regular_clean. by apply Forall_drop. }
  destruct (repeat ".." (length sl - i) ++ skipn i pl) as [|x rest] eqn:E.
  - split; [done|]. intros acc. reflexivity.
  - inversion Hrel as [|? ? [Hx1 Hx2] Hrest]; subst.
    rewrite fold_join2; [|done|by apply endswith_clean|done].
    split.
    + destruct rest as [|y rest]; [by apply startswith_clean|].
      rewrite join_cons. rewrite startswith_slash_app by done.
      by apply startswith_clean.
    + intros acc. by rewrite components_join.
Qed.

(** The relative path leads back: joined to [start] it names [path]. *)
Lemma relpath_leads_back (cwd path start : string) :
  rooted cwd -> startswith path "//" = false -> startswith start "//" = false ->
  PosixPath.abspath cwd (PosixPath.join2 start (PosixPath.relpath cwd path start))
  = PosixPath.abspath cwd path.
Proof.
  intros Hc Hp Hs.
  destruct (relpath_steps cwd path start Hc Hp Hs) as [Hrel Hfold].
  destruct (abspath_components cwd start Hc Hs) as [Hsl _].
  destruct (abspath_components cwd path Hc Hp) as [Hpl _].
  set (rel := PosixPath.relpath cwd path start) in *.
  set (sl := fold_left _ (components (anchored cwd start)) []) in *.
  set (pl := fold_left _ (components (anchored cwd path)) []) in *.
  destruct (join2_relative start rel Hrel) as [J1 J2].
  rewrite (abspath_rooted cwd (PosixPath.join2 start rel)) by auto.
  rewrite (abspath_rooted cwd path) by done. fold pl. f_equal. f_equal.
  assert (Ec : components (anchored cwd (PosixPath.join2 start rel))
               = components (anchored cwd start) ++ components rel).
  { rewrite !components_anchored. rewrite J1.
    destruct (startswith start "/").
    - by apply components_join2.
    - rewrite components_join2 by done. by rewrite app_assoc. }
  rewrite Ec, fold_left_app. fold sl. rewrite Hfold, fold_left_app.
  rewrite fold_step_dotdots by done.
  destruct (common_prefix_take sl pl) as [Ht Hle].
  set (i := PosixPath.common_prefix_len sl pl) in *.
  replace (length sl - (length sl - i)) with i by lia.
  rewrite fold_step_regulars by (by apply Forall_drop).
  rewrite Ht. apply take_drop.
Qed.

Lemma relative_path_not_rooted (url : string) :
  Urllib.netloc (Urllib.urlparse url) <> "" ->
  startswith (relative_path url) "/" = false.
Proof.
  intros Hn. pose proof (urlparse_netloc_clean url) as Hc.
  destruct (Urllib.netloc (Urllib.urlparse url)) as [|a n] eqn:E; [done|].
  simpl in Hc. apply orb_false_iff in Hc as [Hc _].
  rewrite relative_path_start; rewrite E, replace_app;
    cbn [PyStr.replace]; rewrite append_cons; [|done].
  rewrite startswith_slash_cons.
  destruct (Ascii.eqb a ":"); [done|exact Hc].
Qed.

Lemma local_path_one_slash (cfg : Config) (url : string) :
  startswith (output_dir cfg) "//" = false ->
  Urllib.netloc (Urllib.urlparse url) <> "" ->
  startswith (local_path cfg url) "//" = false.
Proof.
  intros Ho Hn. rewrite local_path_join.
  by apply join2_relative; [apply relative_path_not_rooted|].
Qed.

Lemma rpartition_split (c : ascii) (u b t : string) :
  rpartition c u = Some (b, t) -> u = b +:+ String c t.
Proof.
  revert b t. induction u as [|a u IH]; intros b t; simpl; [done|].
  destruct (rpartition c u) as [[b' t']|] eqn:E.
  - intros [= <- <-]. rewrite append_cons. f_equal. by apply IH.
  - destruct (Ascii.eqb a c) eqn:A; [|done].
    intros [= <- <-]. apply Ascii.eqb_eq in A. by subst a.
Qed.

Lemma rstrip_prefix (f : ascii -> bool) (s : string) :
  exists t, s = rstrip f s +:+ t.
Proof.
  induction s as [|a s [t IH]]; [by exists ""|]. simpl.
  destruct (rstrip f s) as [|b r] eqn:E.
  - destruct (f a); [by exists (String a s)|]. exists s. by rewrite append_cons.
  - exists t. rewrite append_cons. by rewrite <- IH.
Qed.

Lemma dirname_prefix (p : string) : exists t, p = PosixPath.dirname p +:+ t.
Proof.
  unfold PosixPath.dirname.
  destruct (rpartition "/" p) as [[b t]|] eqn:E; [|by exists p].
  apply rpartition_split in E.
  assert (H : p = (b +:+ "/") +:+ t).
  { by rewrite append_assoc, append_cons, append_nil_l. }
  destruct (all_chars (Ascii.eqb "/") (b +:+ "/")); [by exists t|].
  destruct (rstrip_prefix (Ascii.eqb "/") (b +:+ "/")) as [t' Ht'].
  exists (t' +:+ t). rewrite <- append_assoc. by rewrite <- Ht'.
Qed.

Lemma startswith_app_l (q t x : string) :
  startswith q x = true -> startswith (q +:+ t) x = true.
Proof.
  revert q. induction x as [|b x IH]; intros q; [intros _; apply startswith_nil|].
  destruct q as [|a q]; [done|].
  rewrite append_cons, !startswith_cons.
  intros H. apply andb_true_iff in H as [-> H]. by apply IH.
Qed.

Lemma dirname_one_slash (p : string) :
  startswith p "//" = false -> startswith (PosixPath.dirname p) "//" = false.
Proof.
  intros H. destruct (dirname_prefix p) as [t Ht].
  destruct (startswith (PosixPath.dirname p) "//") eqn:E; [|done].
  rewrite Ht in H. by rewrite (startswith_app_l _ t _ E) in H.
Qed.

End Relpath.



(** The same reference, computed: one step up, then the logo. *)
Example rewritten_logo :
  attrs (localize demo_cfg demo_net "http://a.test/docs/p.html" "src"
           (image "/logo.png") empty_world).1 !! "src"
  = Some "../logo.png".
Proof. by vm_compute. Qed.

(* ===================================================================== *)
(** ** The GUI hears nothing from its worker *)
(* ===================================================================== *)

(** X20.  In the GUI the crawl is started without a progress callback
    and nothing calls [stop()]: the worker emits neither [progress] nor
    [finished], [update_progress] is never reached through the scraper,
    and the counters of the scraper move on unseen. *)
Theorem gui_hears_nothing_from_worker :
  forall (cfg : Config) (events : list Event),
    Forall quiet events ->
    let σ := run cfg events (ScraperWorker_run cfg) in
    emitted σ = []
    /\ reports (world σ) = []
    /\ progress_callback (scraper σ) = false.
Proof.
  intros cfg events Hq σ.
  assert (Hinv : keeps_polling σ).
  { apply (run_invariant cfg keeps_polling quiet); [|done|].
    - intros e σ0. apply keeps_polling_step.
    - apply session_keeps_polling. }
  assert (Hrep : reports_inv false σ).
  { apply (run_invariant_all cfg (reports_inv false));
      [intros e σ0; apply reports_inv_step|].
    apply session_reports_inv. }
  destruct Hinv as (_ & Hc & _). destruct Hrep as (Hcb & Hlen & _).
  split; [unfold emitted; by rewrite Hc|]. split; [|exact Hcb].
  by apply nil_length_inv.
Qed.

(** [gui_hears_nothing_from_worker] after the only page of a site has
    been downloaded and counted. *)
Lemma gui_hears_nothing_from_worker_witness :
  downloaded_pages (scraper (run demo_cfg lonely_events (ScraperWorker_run demo_cfg))) = 1
  /\ emitted (run demo_cfg lonely_events (ScraperWorker_run demo_cfg)) = []
  /\ reports (world (run demo_cfg lonely_events (ScraperWorker_run demo_cfg))) = [].
Proof.
  destruct (gui_hears_nothing_from_worker demo_cfg lonely_events) as (H1 & H2 & _).
  - unfold lonely_events. repeat constructor.
  - split; [by vm_compute|]. split; [exact H1|exact H2].
Defined.
